(** * FDD validator: a shallow embedding of the traceability core

    The development follows the Python sources under
    [skills/fdd/scripts/fdd]: [utils/text.py], [utils/helpers.py],
    [validation/fdl.py], [validation/artifacts/common.py] and
    [validation/artifacts/adr.py].

    Python [str] values are sequences of Unicode code points, Python dicts
    keep insertion order, and every error the validators report is a dict
    of JSON-like values; the embedding keeps all three. *)

From Stdlib Require Import List NArith ZArith Lia Bool String Ascii Arith.
From Stdlib Require Import DecimalString.
From Stdlib Require Import Permutation Sorted.
Import ListNotations.

Set Implicit Arguments.
Set Warnings "-register-all".

(** ** Python strings *)

(** A [str] is a list of code points. *)
Definition pystr := list N.

Module Utf8.

Local Open Scope N_scope.

(** Decoding of the UTF-8 bytes of a Rocq string literal, so that the
    literals of the sources can be written as they are. *)
Definition cont (a : ascii) : N := N.land (N_of_ascii a) 63.

Fixpoint decode (s : string) : pystr :=
  match s with
  | EmptyString => []
  | String a s1 =>
    let b := N_of_ascii a in
    if b <? 128 then b :: decode s1
    else if b <? 224 then
      match s1 with
      | String a1 s2 => (N.land b 31 * 64 + cont a1) :: decode s2
      | _ => [b]
      end
    else if b <? 240 then
      match s1 with
      | String a1 (String a2 s3) =>
        (N.land b 15 * 4096 + cont a1 * 64 + cont a2) :: decode s3
      | _ => [b]
      end
    else
      match s1 with
      | String a1 (String a2 (String a3 s4)) =>
        (N.land b 7 * 262144 + cont a1 * 4096 + cont a2 * 64 + cont a3)
          :: decode s4
      | _ => [b]
      end
  end.

End Utf8.

Definition py (s : string) : pystr := Utf8.decode s.

Definition pystr_eqb (a b : pystr) : bool :=
  if list_eq_dec N.eq_dec a b then true else false.

(** [x in xs] for a list, a set or the keys of a dict. *)
Definition mem (x : pystr) (xs : list pystr) : bool :=
  existsb (pystr_eqb x) xs.

Module Unicode.

Local Open Scope N_scope.

(** [str.isspace] and the class [\s] of [re] on [str] patterns. *)
Definition isspace (c : N) : bool :=
  ((9 <=? c) && (c <=? 13)) || ((28 <=? c) && (c <=? 32))
  || (c =? 133) || (c =? 160) || (c =? 5760)
  || ((8192 <=? c) && (c <=? 8202))
  || (c =? 8232) || (c =? 8233) || (c =? 8239) || (c =? 8287)
  || (c =? 12288).

(** First code points of the runs of ten decimal digits (category Nd,
    Unicode 14); the mathematical digits at 120782 form a run of fifty. *)
Definition digit_runs : list N :=
  [48; 1632; 1776; 1984; 2406; 2534; 2662; 2790; 2918; 3046; 3174; 3302;
   3430; 3558; 3664; 3792; 3872; 4160; 4240; 6112; 6160; 6470; 6608; 6784;
   6800; 6992; 7088; 7232; 7248; 42528; 43216; 43264; 43472; 43504; 43600;
   44016; 65296; 66720; 68912; 69734; 69872; 69942; 70096; 70384; 70736;
   70864; 71248; 71360; 71472; 71904; 72016; 72784; 73040; 73120; 92768;
   92864; 93008; 120782; 120792; 120802; 120812; 120822; 123200; 123632;
   125264; 130032].

(** The class [\d] of [re] on [str] patterns. *)
Definition isdecimal (c : N) : bool :=
  existsb (fun lo => (lo <=? c) && (c <? lo + 10)) digit_runs.

(** Value of a decimal digit, as [int] reads it. *)
Definition digit_value (c : N) : option N :=
  match find (fun lo => (lo <=? c) && (c <? lo + 10)) digit_runs with
  | Some lo => Some (c - lo)
  | None => None
  end.

(** The line boundaries of [str.splitlines]. *)
Definition islinebreak (c : N) : bool :=
  ((10 <=? c) && (c <=? 13)) || ((28 <=? c) && (c <=? 30))
  || (c =? 133) || (c =? 8232) || (c =? 8233).

(** The word characters [\w]; the sources apply it to ASCII text only. *)
Definition isword (c : N) : bool :=
  ((48 <=? c) && (c <=? 57)) || ((65 <=? c) && (c <=? 90))
  || ((97 <=? c) && (c <=? 122)) || (c =? 95).

Definition lower (c : N) : N :=
  if (65 <=? c) && (c <=? 90) then c + 32 else c.

Definition upper (c : N) : N :=
  if (97 <=? c) && (c <=? 122) then c - 32 else c.

End Unicode.

Module Str.

Fixpoint lstrip (s : pystr) : pystr :=
  match s with
  | c :: s1 => if Unicode.isspace c then lstrip s1 else s
  | [] => []
  end.

Definition rstrip (s : pystr) : pystr := rev (lstrip (rev s)).

(** [s.strip()] *)
Definition strip (s : pystr) : pystr := rstrip (lstrip s).

(** [s.splitlines()]: a line ends at every line boundary, ["\r\n"] counts
    as one, and no empty line follows the last boundary. *)
Fixpoint splitlines_aux (cur : pystr) (s : pystr) : list pystr :=
  match s with
  | [] => match cur with [] => [] | _ => [rev cur] end
  | c :: s1 =>
    if Unicode.islinebreak c then
      match c, s1 with
      | 13%N, 10%N :: s2 => rev cur :: splitlines_aux [] s2
      | _, _ => rev cur :: splitlines_aux [] s1
      end
    else splitlines_aux (c :: cur) s1
  end.

Definition splitlines (s : pystr) : list pystr := splitlines_aux [] s.

(** [s.split(sep)] for a separator of one character: the result is never
    empty. *)
Fixpoint split_char_aux (sep : N) (cur : pystr) (s : pystr) : list pystr :=
  match s with
  | [] => [rev cur]
  | c :: s1 =>
    if (c =? sep)%N then rev cur :: split_char_aux sep [] s1
    else split_char_aux sep (c :: cur) s1
  end.

Definition split_char (sep : N) (s : pystr) : list pystr :=
  split_char_aux sep [] s.

Definition newline : pystr := [10%N].

(** [sep.join(xs)] *)
Fixpoint join (sep : pystr) (xs : list pystr) : pystr :=
  match xs with
  | [] => []
  | [x] => x
  | x :: rest => x ++ sep ++ join sep rest
  end.

Fixpoint startswith (p s : pystr) : bool :=
  match p, s with
  | [], _ => true
  | a :: p1, b :: s1 => (a =? b)%N && startswith p1 s1
  | _ :: _, [] => false
  end.

(** Position of the first occurrence of [p] in [s] ([s.find(p)]). *)
Fixpoint find (p s : pystr) : option nat :=
  if startswith p s then Some 0
  else match s with
       | [] => None
       | _ :: s1 => option_map S (find p s1)
       end.

(** [p in s] *)
Definition contains (p s : pystr) : bool :=
  match find p s with Some _ => true | None => false end.

(** Lexicographic order on code points, the order of [sorted] on
    strings. *)
Fixpoint leb (a b : pystr) : bool :=
  match a, b with
  | [], _ => true
  | _ :: _, [] => false
  | x :: a1, y :: b1 =>
    if (x <? y)%N then true else if (y <? x)%N then false else leb a1 b1
  end.

Fixpoint insert_sorted (x : pystr) (xs : list pystr) : list pystr :=
  match xs with
  | [] => [x]
  | y :: ys => if leb x y then x :: xs else y :: insert_sorted x ys
  end.

(** [sorted(xs)]: the order is total and antisymmetric, so the sorted
    list does not depend on the algorithm. *)
Definition sorted (xs : list pystr) : list pystr :=
  fold_right insert_sorted [] xs.

(** [str(n)] for a length or a count. *)
Definition of_nat (n : nat) : pystr :=
  py (NilEmpty.string_of_uint (Nat.to_uint n)).

End Str.

(** ** Regular expressions

    The subset of Python's [re] that the sources use: a backtracking
    matcher with greedy repetition, ordered alternatives and numbered
    groups, so that the first match found is the one [re] returns. *)

Module Re.

(** Character sets. *)
Inductive cset : Type :=
| CChar (c : N)
| CRange (lo hi : N)
| CSpace
| CDigit
| CWord
| CAny
| CUnion (a b : cset)
| CNot (a : cset).

Fixpoint cset_mem (cs : cset) (c : N) : bool :=
  match cs with
  | CChar x => (c =? x)%N
  | CRange lo hi => ((lo <=? c) && (c <=? hi))%N
  | CSpace => Unicode.isspace c
  | CDigit => Unicode.isdecimal c
  | CWord => Unicode.isword c
  | CAny => negb (c =? 10)%N
  | CUnion a b => cset_mem a c || cset_mem b c
  | CNot a => negb (cset_mem a c)
  end.

Inductive regex : Type :=
| Eps
| Chr (cs : cset)
| Seq (r1 r2 : regex)
| Alt (r1 r2 : regex)
| Star (r : regex)
| Group (i : nat) (r : regex)
| Bol
| Eol
| WordB.

(** The flags [re.IGNORECASE] and [re.MULTILINE]. *)
Record flags : Type := { ignorecase : bool; multiline : bool }.

Definition no_flags : flags := {| ignorecase := false; multiline := false |}.
Definition flag_I : flags := {| ignorecase := true; multiline := false |}.
Definition flag_M : flags := {| ignorecase := false; multiline := true |}.

(** Groups captured so far, the latest first. *)
Definition caps := list (nat * pystr).

Fixpoint cap_get (i : nat) (c : caps) : option pystr :=
  match c with
  | [] => None
  | (j, w) :: c1 => if Nat.eqb i j then Some w else cap_get i c1
  end.

Definition cmatch (fl : flags) (cs : cset) (c : N) : bool :=
  cset_mem cs c
  || (ignorecase fl
      && (cset_mem cs (Unicode.lower c) || cset_mem cs (Unicode.upper c))).

(** [^]: the start of the text, and with [re.MULTILINE] also the
    position after a newline. *)
Definition at_bol (fl : flags) (prev : option N) : bool :=
  match prev with
  | None => true
  | Some p => multiline fl && (p =? 10)%N
  end.

(** [$]: the end of the text or the position before a final newline, and
    with [re.MULTILINE] the position before any newline. *)
Definition at_eol (fl : flags) (s : pystr) : bool :=
  match s with
  | [] => true
  | c :: s1 =>
    (c =? 10)%N && (multiline fl || match s1 with [] => true | _ => false end)
  end.

Definition is_word (o : option N) : bool :=
  match o with Some c => Unicode.isword c | None => false end.

(** [\b] *)
Definition at_wordb (prev : option N) (s : pystr) : bool :=
  xorb (is_word prev) (is_word (hd_error s)).

Section Matcher.

Variable fl : flags.
Variable A : Type.

(** What follows a sub-pattern: the character before the position, the
    rest of the text and the groups. *)
Definition cont : Type := option N -> pystr -> caps -> option A.

(** Greedy repetition of [m1]: one more round when it consumes
    something and the rest succeeds, otherwise stop here. *)
Fixpoint star_loop (m1 : option N -> pystr -> caps -> cont -> option A)
         (k : cont) (fuel : nat) (prev : option N) (s : pystr) (c : caps)
  : option A :=
  match fuel with
  | O => k prev s c
  | S f =>
    match m1 prev s c
             (fun p1 s1 c1 =>
                if List.length s1 <? List.length s then star_loop m1 k f p1 s1 c1
                else None) with
    | Some a => Some a
    | None => k prev s c
    end
  end.

Fixpoint rmatch (r : regex) (prev : option N) (s : pystr) (c : caps)
         (k : cont) {struct r} : option A :=
  match r with
  | Eps => k prev s c
  | Chr cs =>
    match s with
    | x :: s1 => if cmatch fl cs x then k (Some x) s1 c else None
    | [] => None
    end
  | Seq r1 r2 =>
    rmatch r1 prev s c (fun p1 s1 c1 => rmatch r2 p1 s1 c1 k)
  | Alt r1 r2 =>
    match rmatch r1 prev s c k with
    | Some a => Some a
    | None => rmatch r2 prev s c k
    end
  | Star r1 => star_loop (rmatch r1) k (List.length s) prev s c
  | Group i r1 =>
    rmatch r1 prev s c
           (fun p1 s1 c1 =>
              k p1 s1 ((i, firstn (List.length s - List.length s1) s) :: c1))
  | Bol => if at_bol fl prev then k prev s c else None
  | Eol => if at_eol fl s then k prev s c else None
  | WordB => if at_wordb prev s then k prev s c else None
  end.

End Matcher.

(** A match object: where the match starts, the text matched (group 0),
    the numbered groups and the text after the match. *)
Record Match : Type :=
  { m_start : nat; m_text : pystr; m_caps : caps; m_rest : pystr;
    m_last : option N }.

(** [m.group(i)]; the patterns of the sources have no optional group, so
    a group that took no part is not told apart from an empty one. *)
Definition group (m : Match) (i : nat) : pystr :=
  match i with
  | O => m_text m
  | _ => match cap_get i (m_caps m) with Some w => w | None => [] end
  end.

Definition match_here (fl : flags) (r : regex) (start : nat)
           (prev : option N) (s : pystr) : option Match :=
  rmatch fl r prev s []
         (fun p1 s1 c1 =>
            Some {| m_start := start;
                    m_text := firstn (List.length s - List.length s1) s;
                    m_caps := c1; m_rest := s1; m_last := p1 |}).

(** [re.match(r, s, flags)] *)
Definition re_match (fl : flags) (r : regex) (s : pystr) : option Match :=
  match_here fl r 0 None s.

Fixpoint search_from (fl : flags) (r : regex) (start : nat)
         (prev : option N) (s : pystr) : option Match :=
  match match_here fl r start prev s with
  | Some m => Some m
  | None =>
    match s with
    | [] => None
    | c :: s1 => search_from fl r (S start) (Some c) s1
    end
  end.

(** [re.search(r, s, flags)]: the leftmost match. *)
Definition re_search (fl : flags) (r : regex) (s : pystr) : option Match :=
  search_from fl r 0 None s.

(** [re.finditer]: the matches from left to right, none overlapping; the
    patterns it is used with match no empty text, and after an empty
    match the scan moves on by one character. *)
Fixpoint finditer_from (fl : flags) (r : regex) (fuel : nat) (start : nat)
         (prev : option N) (s : pystr) : list Match :=
  match fuel with
  | O => []
  | S f =>
    match search_from fl r start prev s with
    | None => []
    | Some m =>
      match m_text m, m_rest m with
      | [], [] => [m]
      | [], c :: s1 =>
        m :: finditer_from fl r f (S (m_start m)) (Some c) s1
      | _ :: _, s1 =>
        m :: finditer_from fl r f (m_start m + List.length (m_text m))
                           (m_last m) s1
      end
    end
  end.

Definition re_finditer (fl : flags) (r : regex) (s : pystr) : list Match :=
  finditer_from fl r (S (List.length s)) 0 None s.

(** [re.findall] for a pattern with one group, and for one with none. *)
Definition re_findall1 (fl : flags) (r : regex) (s : pystr) : list pystr :=
  map (fun m => group m 1) (re_finditer fl r s).

Definition re_findall0 (fl : flags) (r : regex) (s : pystr) : list pystr :=
  map (fun m => group m 0) (re_finditer fl r s).

(** Pattern syntax. *)
Definition chr (c : string) : regex :=
  match py c with
  | [x] => Chr (CChar x)
  | _ => Eps
  end.

Fixpoint lit_chars (s : pystr) : regex :=
  match s with
  | [] => Eps
  | [c] => Chr (CChar c)
  | c :: s1 => Seq (Chr (CChar c)) (lit_chars s1)
  end.

Definition lit (s : string) : regex := lit_chars (py s).
Definition plus (r : regex) : regex := Seq r (Star r).

Fixpoint seq (rs : list regex) : regex :=
  match rs with
  | [] => Eps
  | [r] => r
  | r :: rs1 => Seq r (seq rs1)
  end.

Fixpoint alt (rs : list regex) : regex :=
  match rs with
  | [] => Eps
  | [r] => r
  | r :: rs1 => Alt r (alt rs1)
  end.

(** [\s], [\d], [.] and the class [[a-z0-9-]] of the identifiers. *)
Definition ws : regex := Chr CSpace.
Definition digit : regex := Chr CDigit.
Definition dot : regex := Chr CAny.
Definition idchar : regex :=
  Chr (CUnion (CRange 97 122) (CUnion (CRange 48 57) (CChar 45))).

End Re.

(** *** What a match means

    [matches fl r p w s c p' c']: at a position preceded by [p] and
    followed by [w ++ s], the pattern [r] can consume exactly [w], turning
    the groups [c] into [c']; [p'] is the character before the position
    reached.  Every answer of the matcher is such a match. *)

Module ReSpec.

Import Re.

Inductive matches (fl : flags)
  : regex -> option N -> pystr -> pystr -> caps -> option N -> caps -> Prop :=
| M_Eps p s c : matches fl Eps p [] s c p c
| M_Chr cs x p s c :
    cmatch fl cs x = true -> matches fl (Chr cs) p [x] s c (Some x) c
| M_Seq r1 r2 p w1 w2 s c p1 c1 p2 c2 :
    matches fl r1 p w1 (w2 ++ s) c p1 c1 ->
    matches fl r2 p1 w2 s c1 p2 c2 ->
    matches fl (Seq r1 r2) p (w1 ++ w2) s c p2 c2
| M_AltL r1 r2 p w s c p1 c1 :
    matches fl r1 p w s c p1 c1 -> matches fl (Alt r1 r2) p w s c p1 c1
| M_AltR r1 r2 p w s c p1 c1 :
    matches fl r2 p w s c p1 c1 -> matches fl (Alt r1 r2) p w s c p1 c1
| M_StarNil r p s c : matches fl (Star r) p [] s c p c
| M_StarCons r p w1 w2 s c p1 c1 p2 c2 :
    matches fl r p w1 (w2 ++ s) c p1 c1 ->
    w1 <> [] ->
    matches fl (Star r) p1 w2 s c1 p2 c2 ->
    matches fl (Star r) p (w1 ++ w2) s c p2 c2
| M_Group i r p w s c p1 c1 :
    matches fl r p w s c p1 c1 ->
    matches fl (Group i r) p w s c p1 ((i, w) :: c1)
| M_Bol p s c : at_bol fl p = true -> matches fl Bol p [] s c p c
| M_Eol p s c : at_eol fl s = true -> matches fl Eol p [] s c p c
| M_WordB p s c : at_wordb p s = true -> matches fl WordB p [] s c p c.

(** The property of a matching function that the proofs below carry. *)
Definition sound_for (fl : flags) (A : Type) (r : regex)
           (m : option N -> pystr -> caps -> cont A -> option A) : Prop :=
  forall p s c k a,
    m p s c k = Some a ->
    exists w s1 p1 c1,
      s = w ++ s1 /\ matches fl r p w s1 c p1 c1 /\ k p1 s1 c1 = Some a.

End ReSpec.
(** ** Python values, exceptions and dicts *)

(** Compiled patterns, as the constants module exports them: the methods
    the sources call on them. *)
Record Pattern : Type :=
  { p_match : pystr -> option Re.Match;
    p_search : pystr -> option Re.Match;
    p_findall : pystr -> list pystr;
    p_finditer : pystr -> list Re.Match }.

Module Compile.

Import Re.

Fixpoint has_group (r : regex) : bool :=
  match r with
  | Group _ _ => true
  | Seq a b | Alt a b => has_group a || has_group b
  | Star a => has_group a
  | _ => false
  end.

(** [re.compile(r, flags)]; [findall] gives group 1 when the pattern has
    a group and the whole match when it has none. *)
Definition compile (fl : flags) (r : regex) : Pattern :=
  {| p_match := re_match fl r;
     p_search := re_search fl r;
     p_findall := if has_group r then re_findall1 fl r else re_findall0 fl r;
     p_finditer := re_finditer fl r |}.

End Compile.

(** The values that the validators put in their results. *)
Inductive pyval : Type :=
| VNone
| VBool (b : bool)
| VInt (n : Z)
| VStr (s : pystr)
| VList (l : list pyval)
| VDict (d : list (string * pyval)).

(** Truth value of an object in a condition. *)
Definition truthy (v : pyval) : bool :=
  match v with
  | VNone => false
  | VBool b => b
  | VInt n => negb (n =? 0)%Z
  | VStr s => match s with [] => false | _ => true end
  | VList l => match l with [] => false | _ => true end
  | VDict d => match d with [] => false | _ => true end
  end.

Definition str_truthy (s : pystr) : bool :=
  match s with [] => false | _ => true end.

(** Truth value of a list, a set or a dict. *)
Definition nonempty {A : Type} (xs : list A) : bool :=
  match xs with [] => false | _ => true end.

Definition vstrs (xs : list pystr) : pyval := VList (map VStr xs).
Definition vlen {A : Type} (xs : list A) : pyval :=
  VInt (Z.of_nat (List.length xs)).

(** [d[k]] for a result dict with literal keys. *)
Fixpoint field (k : string) (d : list (string * pyval)) : option pyval :=
  match d with
  | [] => None
  | (k1, v) :: d1 => if String.eqb k k1 then Some v else field k d1
  end.

Definition vfield (k : string) (v : pyval) : option pyval :=
  match v with
  | VDict d => field k d
  | _ => None
  end.

Inductive exn : Type := KeyError | IndexError | NameError | ValueError.

(** A call returns or raises. *)
Inductive outcome (A : Type) : Type :=
| Ok (a : A)
| Raise (e : exn).

Arguments Ok {A} a.
Arguments Raise {A} e.

Definition bind {A B : Type} (m : outcome A) (f : A -> outcome B)
  : outcome B :=
  match m with
  | Ok a => f a
  | Raise e => Raise e
  end.

Notation "x <- m ;; k" := (bind m (fun x => k))
  (at level 61, m at next level, right associativity).
Notation "' pat <- m ;; k" :=
  (bind m (fun x => match x with pat => k end))
  (at level 61, pat pattern, m at next level, right associativity).

(** A [for] loop whose body may raise. *)
Fixpoint for_each {A S : Type} (body : S -> A -> outcome S) (xs : list A)
         (st : S) : outcome S :=
  match xs with
  | [] => Ok st
  | x :: rest => st1 <- body st x ;; for_each body rest st1
  end.

(** [enumerate(xs, start)] *)
Fixpoint enumerate_from {A : Type} (start : nat) (xs : list A)
  : list (nat * A) :=
  match xs with
  | [] => []
  | x :: rest => (start, x) :: enumerate_from (S start) rest
  end.

(** [xs[:n]] *)
Definition take {A : Type} (n : nat) (xs : list A) : list A := firstn n xs.

Module Dict.

(** A dict with [str] keys keeps its keys in insertion order. *)
Definition t (V : Type) : Type := list (pystr * V).

Definition keys {V : Type} (d : t V) : list pystr := map fst d.

Fixpoint get {V : Type} (k : pystr) (d : t V) : option V :=
  match d with
  | [] => None
  | (k1, v) :: d1 => if pystr_eqb k k1 then Some v else get k d1
  end.

(** [k in d] *)
Definition contains {V : Type} (k : pystr) (d : t V) : bool :=
  match get k d with Some _ => true | None => false end.

(** [d[k]] *)
Definition getitem {V : Type} (k : pystr) (d : t V) : outcome V :=
  match get k d with
  | Some v => Ok v
  | None => Raise KeyError
  end.

(** [d[k] = v]: a key already there keeps its place. *)
Fixpoint set {V : Type} (k : pystr) (v : V) (d : t V) : t V :=
  match d with
  | [] => [(k, v)]
  | (k1, v1) :: d1 =>
    if pystr_eqb k k1 then (k1, v) :: d1 else (k1, v1) :: set k v d1
  end.

End Dict.

(** A [set] of strings: its elements without repetition.  The sources
    only test membership in sets, unite them and list them sorted. *)
Module PySet.

Definition t : Type := list pystr.

Fixpoint of_list (xs : list pystr) : t :=
  match xs with
  | [] => []
  | x :: rest => let s := of_list rest in if mem x s then s else x :: s
  end.

(** [a | b] *)
Definition union (a b : t) : t := of_list (a ++ b).

Definition add (x : pystr) (s : t) : t := if mem x s then s else s ++ [x].

(** [a.issubset(b)] *)
Definition issubset (a b : t) : bool := forallb (fun x => mem x b) a.

End PySet.

(** [int(s)] for a string: blanks around, a sign, decimal digits with
    single underscores between them. *)
Module PyInt.

Fixpoint digits (acc : N) (seen : bool) (under : bool) (s : pystr)
  : option N :=
  match s with
  | [] => if seen && negb under then Some acc else None
  | c :: s1 =>
    match Unicode.digit_value c with
    | Some d => digits (acc * 10 + d)%N true false s1
    | None =>
      if (c =? 95)%N && seen && negb under then digits acc true true s1
      else None
    end
  end.

Definition int (s : pystr) : outcome Z :=
  let body := Str.strip s in
  let '(neg, rest) :=
      match body with
      | 45%N :: r => (true, r)
      | 43%N :: r => (false, r)
      | _ => (false, body)
      end in
  match digits 0 false false rest with
  | Some n => Ok (if neg then (- Z.of_N n)%Z else Z.of_N n)
  | None => Raise ValueError
  end.

End PyInt.

(** Paths: the names from the root of the file system to the file. *)
Module Path.

Definition t : Type := list pystr.

(** [p.parent]; the root is its own parent. *)
Definition parent (p : t) : t := removelast p.

(** [p / name] *)
Definition join (p : t) (name : pystr) : t := p ++ [name].

(** [p.name] *)
Definition name (p : t) : pystr := last p [].

(** [str(p)] *)
Definition to_str (p : t) : pystr :=
  match p with
  | [] => py "/"
  | _ => flat_map (fun n => py "/" ++ n) p
  end.

(** Position of the last ['.'] of a name. *)
Fixpoint rfind_dot (i : nat) (s : pystr) : option nat :=
  match s with
  | [] => None
  | c :: s1 =>
    match rfind_dot (S i) s1 with
    | Some j => Some j
    | None => if (c =? 46)%N then Some i else None
    end
  end.

(** [p.suffix]: from the last dot on, unless the dot is the first or the
    last character of the name. *)
Definition suffix (nm : pystr) : pystr :=
  match rfind_dot 0 nm with
  | Some i =>
    if (0 <? i) && (i <? List.length nm - 1) then skipn i nm else []
  | None => []
  end.

End Path.
(** ** What the sources take from outside

    [constants.py] is not part of the sources: its compiled patterns are
    parameters of the model.  So are the two helpers of [utils] that read
    files, [load_text] and [parse_required_sections]. *)

Record Constants : Type :=
  { FDL_SCOPE_ID_RE : Pattern;
    FDL_STEP_LINE_RE : Pattern;
    PLACEHOLDER_RE : Pattern;
    HEADING_ID_RE : Pattern;
    ACTOR_ID_RE : Pattern;
    CAPABILITY_ID_RE : Pattern;
    USECASE_ID_RE : Pattern;
    REQ_ID_RE : Pattern;
    PRINCIPLE_ID_RE : Pattern;
    ADR_HEADING_RE : Pattern;
    ADR_DATE_RE : Pattern;
    ADR_STATUS_RE : Pattern;
    ADR_ID_RE : Pattern;
    ADR_NUM_RE : Pattern }.

Record Env : Type :=
  { (** [load_text(path)]: the text and no error, or no text and an error
        message. *)
    load_text : Path.t -> option pystr * option pystr;
    (** [parse_required_sections(path)]: section id to title, in the order
        of the requirements file. *)
    parse_required_sections : Path.t -> Dict.t pystr }.

(** The file system that the marker scan walks. *)
Inductive fsnode : Type :=
| File (content : option pystr)
| Dir (listable : bool) (entries : list (pystr * fsnode))
| Special.


Module Fs.

Fixpoint find_entry (nm : pystr) (entries : list (pystr * fsnode))
  : option fsnode :=
  match entries with
  | [] => None
  | (n1, x) :: rest => if pystr_eqb nm n1 then Some x else find_entry nm rest
  end.

Fixpoint lookup (root : fsnode) (p : Path.t) : option fsnode :=
  match p with
  | [] => Some root
  | nm :: p1 =>
    match root with
    | Dir _ entries =>
      match find_entry nm entries with
      | Some x => lookup x p1
      | None => None
      end
    | _ => None
    end
  end.

(** [p.exists()] *)
Definition exists_ (root : fsnode) (p : Path.t) : bool :=
  match lookup root p with Some _ => true | None => false end.

End Fs.
(** ** [validation/fdl.py] *)

Module Fdl.

Import Re.

(** One entry of the result of [extract_fdl_instructions]. *)
Record scope_entry : Type :=
  { instructions : list pystr; completed : list pyval }.

Definition design_fdl : Type := Dict.t scope_entry.

(** [r"`(fdd-[a-z0-9-]+)`"] *)
Definition scope_token_re : regex :=
  seq [chr "`"; Group 1 (Seq (lit "fdd-") (plus idchar)); chr "`"].

(** [r"^\s*\d+\.\s*\[x\]"], used with [re.I] *)
Definition checked_re : regex :=
  seq [Bol; Star ws; plus digit; chr "."; Star ws; lit "[x]"].

(** [r"`(inst-[a-z0-9-]+)`\s*$"] *)
Definition inst_token_re : regex :=
  seq [chr "`"; Group 1 (Seq (lit "inst-") (plus idchar)); chr "`";
       Star ws; Eol].

Section WithConstants.

Variable K : Constants.

(** The state of the loop of [extract_fdl_instructions]. *)
Definition extract_state : Type := (design_fdl * option pystr)%type.

(** The first [if] of the loop body: a scope ID line sets the current
    scope and opens its entry. *)
Definition enter_scope (st : extract_state) (line : pystr) : extract_state :=
  let '(result, current_scope_id) := st in
  match p_match (FDL_SCOPE_ID_RE K) line with
  | Some _ =>
    match re_search no_flags scope_token_re line with
    | Some m =>
      let current := group m 1 in
      (if negb (Dict.contains current result)
       then Dict.set current {| instructions := []; completed := [] |} result
       else result,
       Some current)
    | None => st
    end
  | None => st
  end.

(** The two [append] statements. *)
Definition record_instruction (sid inst_id : pystr) (result : design_fdl)
  : outcome design_fdl :=
  e <- Dict.getitem sid result ;;
  let result1 :=
      Dict.set sid {| instructions := instructions e ++ [inst_id];
                      completed := completed e |} result in
  e1 <- Dict.getitem sid result1 ;;
  Ok (Dict.set sid {| instructions := instructions e1;
                      completed := completed e1 ++ [VStr inst_id] |} result1).

(** The second [if] of the loop body: a step line marked [[x]] adds its
    trailing instruction ID to the current scope. *)
Definition record_step (st : extract_state) (line : pystr)
  : outcome extract_state :=
  let '(result, current_scope_id) := st in
  match current_scope_id with
  | Some sid =>
    if str_truthy sid then
      match p_match (FDL_STEP_LINE_RE K) line with
      | Some _ =>
        match re_match flag_I checked_re line with
        | Some _ =>
          match re_search no_flags inst_token_re (Str.strip line) with
          | Some m_inst =>
            result1 <- record_instruction sid (group m_inst 1) result ;;
            Ok (result1, current_scope_id)
          | None => Ok st
          end
        | None => Ok st
        end
      | None => Ok st
      end
    else Ok st
  | None => Ok st
  end.

Definition extract_step (st : extract_state) (line : pystr)
  : outcome extract_state :=
  record_step (enter_scope st line) line.

Definition extract_lines (lines : list pystr) (st : extract_state)
  : outcome extract_state :=
  for_each extract_step lines st.

Definition extract_fdl_instructions (text : pystr) : outcome design_fdl :=
  st <- extract_lines (Str.splitlines text) ([], None) ;;
  Ok (fst st).

End WithConstants.

(** *** The marker scan *)

Record tag_info : Type :=
  { has_begin : bool; has_end : bool; complete : bool; scopes : list pystr }.

Definition inst_tags : Type := Dict.t tag_info.

Definition code_extensions : list pystr :=
  map py [".py"; ".rs"; ".ts"; ".tsx"; ".js"; ".jsx"; ".go"; ".java"; ".cs";
          ".sql"; ".md"]%string.

Definition skip_dirs : list pystr :=
  map py [".git"; "node_modules"; "venv"; "__pycache__"; ".pytest_cache";
          "target"; "build"; "dist"; "tests"; "examples"]%string.

(** [(fdd-[a-z0-9-]+(?:-flow|-algo|-state|-req|-test|-change)-[a-z0-9-]+):ph-\d+:(inst-[a-z0-9-]+)] *)
Definition marker_payload : regex :=
  seq [Group 1 (seq [lit "fdd-"; plus idchar;
                     alt [lit "-flow"; lit "-algo"; lit "-state"; lit "-req";
                          lit "-test"; lit "-change"];
                     chr "-"; plus idchar]);
       lit ":ph-"; plus digit; chr ":";
       Group 2 (Seq (lit "inst-") (plus idchar))].

Definition begin_pattern : regex :=
  seq [lit "fdd-begin"; plus ws; marker_payload].

Definition end_pattern : regex :=
  seq [lit "fdd-end"; plus ws; marker_payload].

Definition fresh_tag : tag_info :=
  {| has_begin := false; has_end := false; complete := false; scopes := [] |}.

Inductive marker_kind : Type := Begin | End_.

Definition set_flag (kind : marker_kind) (e : tag_info) : tag_info :=
  match kind with
  | Begin => {| has_begin := true; has_end := has_end e;
                complete := complete e; scopes := scopes e |}
  | End_ => {| has_begin := has_begin e; has_end := true;
               complete := complete e; scopes := scopes e |}
  end.

Definition add_scope (scope_id : pystr) (e : tag_info) : tag_info :=
  if negb (mem scope_id (scopes e))
  then {| has_begin := has_begin e; has_end := has_end e;
          complete := complete e; scopes := scopes e ++ [scope_id] |}
  else e.

(** What the scan does with one marker: open the entry of the instruction
    when there is none, set the flag, note the scope.  The entry is there
    when it is read: the statement before has put it. *)
Definition mark (kind : marker_kind) (scope_id inst_id : pystr)
           (tags : inst_tags) : inst_tags :=
  let tags1 :=
      if negb (Dict.contains inst_id tags)
      then Dict.set inst_id fresh_tag tags else tags in
  match Dict.get inst_id tags1 with
  | Some e => Dict.set inst_id (add_scope scope_id (set_flag kind e)) tags1
  | None => tags1
  end.

(** The body of the loop over the lines of a file. *)
Definition scan_line (tags : inst_tags) (line : pystr) : inst_tags :=
  let tags1 :=
      match re_search no_flags begin_pattern line with
      | Some m => mark Begin (group m 1) (group m 2) tags
      | None => tags
      end in
  match re_search no_flags end_pattern line with
  | Some m => mark End_ (group m 1) (group m 2) tags1
  | None => tags1
  end.

(** [scan_file]: a file that cannot be read is passed over. *)
Definition scan_file (content : option pystr) (tags : inst_tags)
  : inst_tags :=
  match content with
  | Some text => fold_left scan_line (Str.split_char 10 text) tags
  | None => tags
  end.

(** [scan_directory]: a directory that cannot be listed, or a path that
    is no directory, is passed over. *)
Fixpoint scan_directory (directory : fsnode) (tags : inst_tags) {struct directory}
  : inst_tags :=
  match directory with
  | Dir true entries =>
    (fix scan_items (items : list (pystr * fsnode)) (tags : inst_tags)
       : inst_tags :=
       match items with
       | [] => tags
       | (name, item) :: rest =>
         scan_items rest
           match item with
           | Dir _ _ =>
             if negb (mem name skip_dirs) then scan_directory item tags
             else tags
           | File content =>
             if mem (Path.suffix name) code_extensions
             then scan_file content tags else tags
           | Special => tags
           end
       end) entries tags
  | _ => tags
  end.

(** The last loop: complete when both tags are present. *)
Definition mark_complete (tags : inst_tags) : inst_tags :=
  map (fun '(inst_id, e) =>
         (inst_id, {| has_begin := has_begin e; has_end := has_end e;
                      complete := has_begin e && has_end e;
                      scopes := scopes e |})) tags.

Definition extract_inst_tags_from_code (fs : fsnode)
           (feature_root : option Path.t) : inst_tags :=
  let scanned :=
      match feature_root with
      | Some root =>
        if Fs.exists_ fs root then
          let project_root := Path.parent (Path.parent (Path.parent root)) in
          match Fs.lookup fs project_root with
          | Some d => scan_directory d []
          | None => []
          end
        else []
      | None => []
      end in
  mark_complete scanned.

(** *** The completion check *)

(** [r"\*\*Status\*\*:\s*(✅\s*COMPLETED|🔄\s*IN_PROGRESS|⏳\s*NOT_STARTED|✨\s*IMPLEMENTED)"] *)
Definition status_re : regex :=
  seq [lit "**Status**:"; Star ws;
       Group 1 (alt [seq [chr "✅"; Star ws; lit "COMPLETED"];
                     seq [chr "🔄"; Star ws; lit "IN_PROGRESS"];
                     seq [chr "⏳"; Star ws; lit "NOT_STARTED"];
                     seq [chr "✨"; Star ws; lit "IMPLEMENTED"]])].

(** The instructions of one scope whose [completed] entry is false. *)
Fixpoint uncompleted_of (scope_id : pystr) (data : scope_entry)
         (items : list (nat * pystr)) : outcome (list (pystr * pystr)) :=
  match items with
  | [] => Ok []
  | (i, inst_id) :: rest =>
    match nth_error (completed data) i with
    | Some c =>
      more <- uncompleted_of scope_id data rest ;;
      Ok (if negb (truthy c) then (scope_id, inst_id) :: more else more)
    | None => Raise IndexError
    end
  end.

Fixpoint uncompleted_instructions (d : design_fdl)
  : outcome (list (pystr * pystr)) :=
  match d with
  | [] => Ok []
  | (scope_id, data) :: rest =>
    here <- uncompleted_of scope_id data
                           (enumerate_from 0 (instructions data)) ;;
    more <- uncompleted_instructions rest ;;
    Ok (here ++ more)
  end.

Definition premature_completion (uncompleted : list (pystr * pystr))
  : pyval :=
  VDict [("type", VStr (py "premature_completion"));
         ("message",
          VStr (py "Feature marked COMPLETED but FDL instructions not all implemented ([x])"));
         ("uncompleted_count", vlen uncompleted);
         ("examples",
          VList (map (fun '(scope, inst) =>
                        VDict [("scope", VStr scope);
                               ("instruction", VStr inst)]%string)
                     (take 10 uncompleted)))]%string.

(** [validate_fdl_completion].  The function has no parameter
    [feature_root] and the module binds no such name: the condition
    [status == "IMPLEMENTED" and feature_root] raises [NameError] as soon
    as its first half holds. *)
Definition validate_fdl_completion (changes_text : pystr) (d : design_fdl)
  : outcome (list pyval) :=
  match re_search no_flags status_re changes_text with
  | None => Ok []
  | Some status_match =>
    let status := Str.strip (group status_match 1) in
    if negb (str_truthy status) then Ok []
    else if pystr_eqb status (py "IMPLEMENTED") then Raise NameError
    else
      uncompleted <- uncompleted_instructions d ;;
      Ok (if nonempty uncompleted
          then [premature_completion uncompleted] else [])
  end.

End Fdl.
(** ** [utils/text.py] and [utils/helpers.py] *)

Module Utils.

Section WithConstants.

Variable K : Constants.

(** [find_placeholders] *)
Definition placeholder_hit (idx : nat) (line : pystr) : pyval :=
  VDict [("line", VInt (Z.of_nat idx)); ("text", VStr line)]%string.

Fixpoint placeholder_hits_of (items : list (nat * pystr)) : list pyval :=
  match items with
  | [] => []
  | (idx, line) :: rest =>
    match p_search (PLACEHOLDER_RE K) line with
    | Some _ => placeholder_hit idx line :: placeholder_hits_of rest
    | None => placeholder_hits_of rest
    end
  end.

Definition find_placeholders (artifact_text : pystr) : list pyval :=
  placeholder_hits_of (enumerate_from 1 (Str.splitlines artifact_text)).

(** [find_present_section_ids] *)
Fixpoint present_ids_of (lines : list pystr) : list pystr :=
  match lines with
  | [] => []
  | line :: rest =>
    match p_match (HEADING_ID_RE K) (Str.strip line) with
    | Some m => Re.group m 1 :: present_ids_of rest
    | None => present_ids_of rest
    end
  end.

Definition find_present_section_ids (artifact_text : pystr) : list pystr :=
  present_ids_of (Str.splitlines artifact_text).

(** [parse_business_model]: the state of its loop. *)
Record bm_state : Type :=
  { in_capability_section : bool;
    current_capability_id : option pystr;
    capability_to_actors : Dict.t PySet.t }.

(** [capability_to_actors[current].add(actor_id)] *)
Definition add_actor (current actor_id : pystr) (c2a : Dict.t PySet.t)
  : outcome (Dict.t PySet.t) :=
  s <- Dict.getitem current c2a ;;
  Ok (Dict.set current (PySet.add actor_id s) c2a).

Definition bm_step (st : bm_state) (line : pystr) : outcome bm_state :=
  if Str.contains (py "## C. Capabilities") line
     || Str.contains (py "## Section C") line
  then Ok {| in_capability_section := true;
             current_capability_id := current_capability_id st;
             capability_to_actors := capability_to_actors st |}
  else
    let in_section :=
        if in_capability_section st
           && Str.startswith (py "## ") (Str.strip line)
        then false else in_capability_section st in
    if in_section then
      let '(current, c2a) :=
          match p_findall (CAPABILITY_ID_RE K) line with
          | cap :: _ =>
            (Some cap, Dict.set cap [] (capability_to_actors st))
          | [] => (current_capability_id st, capability_to_actors st)
          end in
      match current with
      | Some cur =>
        if str_truthy cur then
          c2a1 <- for_each (fun d actor_id => add_actor cur actor_id d)
                           (p_findall (ACTOR_ID_RE K) line) c2a ;;
          Ok {| in_capability_section := in_section;
                current_capability_id := current;
                capability_to_actors := c2a1 |}
        else Ok {| in_capability_section := in_section;
                   current_capability_id := current;
                   capability_to_actors := c2a |}
      | None => Ok {| in_capability_section := in_section;
                      current_capability_id := current;
                      capability_to_actors := c2a |}
      end
    else Ok {| in_capability_section := in_section;
               current_capability_id := current_capability_id st;
               capability_to_actors := capability_to_actors st |}.

Definition parse_business_model (text : pystr)
  : outcome (PySet.t * Dict.t PySet.t * PySet.t) :=
  let actor_ids := PySet.of_list (p_findall (ACTOR_ID_RE K) text) in
  let usecase_ids := PySet.of_list (p_findall (USECASE_ID_RE K) text) in
  st <- for_each bm_step (Str.splitlines text)
                 {| in_capability_section := false;
                    current_capability_id := None;
                    capability_to_actors := [] |} ;;
  Ok (actor_ids, capability_to_actors st, usecase_ids).

(** [parse_adr_index] *)
Record adr_entry : Type :=
  { adr_ref : pystr; adr_num : Z; adr_title : pystr;
    adr_date : option pystr; adr_status : option pystr;
    adr_id : option pystr }.

(** The look-ahead over the lines after a heading; it reads the next
    heading too before it stops there. *)
Fixpoint adr_metadata (window : list pystr)
         (meta : option pystr * option pystr * option pystr)
  : option pystr * option pystr * option pystr :=
  match window with
  | [] => meta
  | next_line :: rest =>
    let '(date_val, status_val, id_val) := meta in
    let date_val :=
        match p_search (ADR_DATE_RE K) next_line with
        | Some date_m => Some (Re.group date_m 1)
        | None => date_val
        end in
    let status_val :=
        match p_search (ADR_STATUS_RE K) next_line with
        | Some status_m => Some (Re.group status_m 1)
        | None => status_val
        end in
    let id_val :=
        match p_findall (ADR_ID_RE K) next_line with
        | x :: _ => Some x
        | [] => id_val
        end in
    if Str.startswith (py "## ") (Str.strip next_line)
    then (date_val, status_val, id_val)
    else adr_metadata rest (date_val, status_val, id_val)
  end.

Fixpoint parse_adr_lines (lines : list pystr) : outcome (list adr_entry) :=
  match lines with
  | [] => Ok []
  | line :: rest =>
    match p_match (ADR_HEADING_RE K) (Str.strip line) with
    | Some m =>
      num <- PyInt.int (Re.group m 2) ;;
      let '(date_val, status_val, id_val) :=
          adr_metadata (take 9 rest) (None, None, None) in
      more <- parse_adr_lines rest ;;
      Ok ({| adr_ref := Re.group m 1; adr_num := num;
             adr_title := Re.group m 3; adr_date := date_val;
             adr_status := status_val; adr_id := id_val |} :: more)
    | None => parse_adr_lines rest
    end
  end.

(** The entries and the issues; the function reports no issue. *)
Definition parse_adr_index (text : pystr)
  : outcome (list adr_entry * list pyval) :=
  adrs <- parse_adr_lines (Str.splitlines text) ;;
  Ok (adrs, []).

End WithConstants.

End Utils.
(** ** [validation/artifacts/common.py] *)

Inductive status : Type := PASS | FAIL.

Module Common.

Record result : Type :=
  { required_section_count : nat;
    missing_sections : list pyval;
    placeholder_hits : list pyval;
    status_ : status;
    errors : list pyval }.

Section WithConstants.

Variable K : Constants.
Variable E : Env.

Definition missing_section (section_id title : pystr) : pyval :=
  VDict [("id", VStr section_id); ("title", VStr title)]%string.

(** The counting loop: each id with the number of times it occurs, in
    the order of first occurrence. *)
Fixpoint count_ids (ids : list pystr) (counts : Dict.t nat) : Dict.t nat :=
  match ids with
  | [] => counts
  | sid :: rest =>
    count_ids rest
      (Dict.set sid
                (match Dict.get sid counts with Some c => c | None => 0 end
                 + 1) counts)
  end.

Definition duplicate_ids (present_ids_list : list pystr) : list pystr :=
  Str.sorted
    (map fst (filter (fun '(_, c) => 1 <? c) (count_ids present_ids_list []))).

Definition list_eqb (a b : list pystr) : bool :=
  if list_eq_dec (list_eq_dec N.eq_dec) a b then true else false.

Definition order_error (required_order found_order : list pystr) : pyval :=
  VDict [("type", VStr (py "structure"));
         ("message", VStr (py "Sections are not in required order"));
         ("required_order", vstrs required_order);
         ("found_order", vstrs found_order)]%string.

Definition validate_generic_sections (artifact_text : pystr)
           (requirements_path : Path.t) : result :=
  let required_sections := parse_required_sections E requirements_path in
  if negb (nonempty required_sections) then
    {| required_section_count := 0;
       missing_sections := [];
       placeholder_hits := Utils.find_placeholders K artifact_text;
       status_ := FAIL;
       errors :=
         [VDict [("type", VStr (py "requirements"));
                 ("message",
                  VStr (py "Could not parse required sections from requirements file (expected headings like '### Section X: ...')"));
                 ("requirements", VStr (Path.to_str requirements_path))]%string]
    |}
  else
    let present_ids_list := Utils.find_present_section_ids K artifact_text in
    let present_ids := PySet.of_list present_ids_list in
    let missing :=
        map (fun '(section_id, title) => missing_section section_id title)
            (filter (fun '(section_id, _) => negb (mem section_id present_ids))
                    required_sections) in
    let dup_sids := duplicate_ids present_ids_list in
    let errors1 :=
        if nonempty dup_sids
        then [VDict [("type", VStr (py "structure"));
                     ("message", VStr (py "Duplicate section ids in artifact"));
                     ("ids", vstrs dup_sids)]%string]
        else [] in
    let required_order := Dict.keys required_sections in
    let present_required_in_order :=
        filter (fun sid => Dict.contains sid required_sections)
               present_ids_list in
    let errors2 :=
        if negb (list_eqb present_required_in_order required_order)
        then errors1 ++ [order_error required_order present_required_in_order]
        else errors1 in
    let placeholders := Utils.find_placeholders K artifact_text in
    let passed :=
        (List.length missing =? 0) && (List.length placeholders =? 0)
        && (List.length errors2 =? 0) in
    {| required_section_count := List.length required_sections;
       missing_sections := missing;
       placeholder_hits := placeholders;
       status_ := if passed then PASS else FAIL;
       errors := errors2 |}.

End WithConstants.

End Common.
(** ** [validation/artifacts/adr.py] *)

Definition cross_error (msg : pystr) : pyval :=
  VDict [("type", VStr (py "cross")); ("message", VStr msg)]%string.

(** [x or ""] for a text that may be [None]. *)
Definition or_empty (t : option pystr) : pystr :=
  match t with Some s => s | None => [] end.

(** Truth value of an error message that may be [None]. *)
Definition opt_truthy (t : option pystr) : bool :=
  match t with Some s => str_truthy s | None => false end.

(** [a or b] for a path that may be [None]. *)
Definition or_path (a : option Path.t) (b : Path.t) : Path.t :=
  match a with Some p => p | None => b end.

(** [s.split(sep, 1)[1]], for a text that contains [sep]. *)
Definition after_first (sep s : pystr) : pystr :=
  match Str.find sep s with
  | Some i => skipn (i + List.length sep) s
  | None => []
  end.

Module Adr.

Record result : Type :=
  { required_section_count : nat;
    missing_sections : list pyval;
    placeholder_hits : list pyval;
    status_ : status;
    errors : list pyval;
    adr_issues : list pyval;
    adr_count : nat }.

Section WithConstants.

Variable K : Constants.
Variable E : Env.

Definition adr_issue (adr msg : pystr) : pyval :=
  VDict [("adr", VStr adr); ("message", VStr msg)]%string.

Definition adr_issue_ids (adr msg : pystr) (ids : list pystr) : pyval :=
  VDict [("adr", VStr adr); ("message", VStr msg); ("ids", vstrs ids)]%string.

Definition required_sections : list pystr :=
  map py ["### Context and Problem Statement";
          "### Decision Drivers";
          "### Considered Options";
          "### Decision Outcome";
          "### Related Design Elements"]%string.

(** What the sibling documents supply to the checks of a block. *)
Record known : Type :=
  { business_actors : PySet.t;
    business_caps : PySet.t;
    design_req : PySet.t;
    design_principle : PySet.t }.

(** One of the four checks of the referenced IDs. *)
Definition unknown_ids (adr : pystr) (known_ids : PySet.t) (P : Pattern)
           (msg : string) (related_text : pystr) : list pyval :=
  if nonempty known_ids then
    let bad :=
        Str.sorted (filter (fun x => negb (mem x known_ids))
                           (p_findall P related_text)) in
    if nonempty bad then [adr_issue_ids adr (py msg) bad] else []
  else [].

(** The issues [flush] adds for the block of one ADR. *)
Definition block_issues (kn : known) (current_adr : pystr)
           (current_block : list pystr) : list pyval :=
  let block_text := Str.join Str.newline current_block in
  (match p_search (ADR_DATE_RE K) block_text with
   | None => [adr_issue current_adr (py "Missing **Date**: YYYY-MM-DD")]
   | Some _ => []
   end)
  ++ (match p_search (ADR_STATUS_RE K) block_text with
      | None => [adr_issue current_adr (py "Missing or invalid **Status**")]
      | Some _ => []
      end)
  ++ flat_map (fun sec =>
                 if negb (Str.contains sec block_text)
                 then [adr_issue current_adr (py "Missing section: " ++ sec)]
                 else [])
              required_sections
  ++ (if Str.contains (py "### Related Design Elements") block_text then
        let related_text :=
            after_first (py "### Related Design Elements") block_text in
        let referenced :=
            PySet.union
              (PySet.union
                 (PySet.union
                    (PySet.of_list (p_findall (ACTOR_ID_RE K) related_text))
                    (PySet.of_list
                       (p_findall (CAPABILITY_ID_RE K) related_text)))
                 (PySet.of_list (p_findall (REQ_ID_RE K) related_text)))
              (PySet.of_list (p_findall (PRINCIPLE_ID_RE K) related_text)) in
        (if negb (nonempty referenced)
         then [adr_issue current_adr
                 (py "Related Design Elements must contain at least one ID")]
         else [])
        ++ unknown_ids current_adr (business_actors kn) (ACTOR_ID_RE K)
             "Unknown actor IDs in Related Design Elements" related_text
        ++ unknown_ids current_adr (business_caps kn) (CAPABILITY_ID_RE K)
             "Unknown capability IDs in Related Design Elements" related_text
        ++ unknown_ids current_adr (design_req kn) (REQ_ID_RE K)
             "Unknown requirement IDs in Related Design Elements" related_text
        ++ unknown_ids current_adr (design_principle kn) (PRINCIPLE_ID_RE K)
             "Unknown principle IDs in Related Design Elements" related_text
      else []).






End WithConstants.

End Adr.
(** ** [validate_overall_design] *)

Module Design.

Record result : Type :=
  { required_section_count : nat;
    missing_sections : list pyval;
    placeholder_hits : list pyval;
    status_ : status;
    errors : list pyval;
    requirement_issues : list pyval;
    requirement_count : nat }.

(** A requirement block: its ID and what it refers to. *)
Record req_block : Type :=
  { rb_id : pystr;
    rb_caps : PySet.t;
    rb_actors : PySet.t;
    rb_usecases : PySet.t;
    rb_adr_ids : PySet.t }.

(** A dict with [int] keys. *)
Definition num_get (n : Z) (d : list (Z * pystr)) : option pystr :=
  match find (fun '(k, _) => (k =? n)%Z) d with
  | Some (_, v) => Some v
  | None => None
  end.

Fixpoint num_set (n : Z) (v : pystr) (d : list (Z * pystr))
  : list (Z * pystr) :=
  match d with
  | [] => [(n, v)]
  | (k, v1) :: d1 =>
    if (k =? n)%Z then (k, v) :: d1 else (k, v1) :: num_set n v d1
  end.

(** [r"^###\s+C\.(\d+)\s*[:.]"], used with [re.MULTILINE] *)
Definition c_sub_re : Re.regex :=
  Re.seq [Re.Bol; Re.lit "###"; Re.plus Re.ws; Re.lit "C.";
          Re.Group 1 (Re.plus Re.digit); Re.Star Re.ws;
          Re.Chr (Re.CUnion (Re.CChar 58) (Re.CChar 46))].

(** [lines[start:end]] *)
Definition slice {A : Type} (start end_ : nat) (xs : list A) : list A :=
  firstn (end_ - start) (skipn start xs).

(** The business model and the decision index, as the function holds
    them after loading the sibling documents. *)
Record sources : Type :=
  { business_actors : PySet.t;
    business_caps_to_actors : Dict.t PySet.t;
    business_usecases : PySet.t;
    adr_ids : PySet.t;
    adr_num_to_id : list (Z * pystr) }.

Definition no_sources : sources :=
  {| business_actors := []; business_caps_to_actors := [];
     business_usecases := []; adr_ids := []; adr_num_to_id := [] |}.

Definition req_issue (rid msg : pystr) : pyval :=
  VDict [("requirement", VStr rid); ("message", VStr msg)]%string.

Definition req_issue_ids (rid msg : pystr) (ids : list pystr) : pyval :=
  VDict [("requirement", VStr rid); ("message", VStr msg);
         ("ids", vstrs ids)]%string.

Definition actor_mismatch (rid : pystr) (actors allowed : PySet.t) : pyval :=
  VDict [("requirement", VStr rid);
         ("message",
          VStr (py "Actors must match actors of referenced capabilities"));
         ("actors", vstrs (Str.sorted actors));
         ("allowed", vstrs (Str.sorted allowed))]%string.

Definition traceability_error (msg : string) (ids : list pystr) : pyval :=
  VDict [("type", VStr (py "traceability")); ("message", VStr (py msg));
         ("ids", vstrs ids)]%string.

(** The actors that the capabilities of a block permit. *)
Fixpoint allowed_actors (c2a : Dict.t PySet.t) (caps : list pystr)
         (allowed : PySet.t) : PySet.t :=
  match caps with
  | [] => allowed
  | c :: rest =>
    allowed_actors c2a rest
      (PySet.union allowed
                   (match Dict.get c c2a with Some s => s | None => [] end))
  end.

(** The issues of one requirement block. *)
Definition block_issues (src : sources) (rb : req_block) : list pyval :=
  let rid := rb_id rb in
  let caps := rb_caps rb in
  let actors := rb_actors rb in
  (if negb (nonempty caps)
   then [req_issue rid (py "Missing capability references")] else [])
  ++ (if negb (nonempty actors)
      then [req_issue rid (py "Missing actor references")] else [])
  ++ (if nonempty (business_actors src) then
        let bad :=
            Str.sorted (filter (fun a => negb (mem a (business_actors src)))
                               actors) in
        if nonempty bad then [req_issue_ids rid (py "Unknown actor IDs") bad]
        else []
      else [])
  ++ (if nonempty (business_caps_to_actors src) then
        let bad :=
            Str.sorted
              (filter (fun c =>
                         negb (Dict.contains c (business_caps_to_actors src)))
                      caps) in
        (if nonempty bad
         then [req_issue_ids rid (py "Unknown capability IDs") bad] else [])
        ++ (let allowed :=
                allowed_actors (business_caps_to_actors src) caps [] in
            if nonempty allowed && nonempty actors
               && negb (PySet.issubset actors allowed)
            then [actor_mismatch rid actors allowed] else [])
      else [])
  ++ (if nonempty (business_usecases src) && nonempty (rb_usecases rb) then
        let bad :=
            Str.sorted
              (filter (fun u => negb (mem u (business_usecases src)))
                      (rb_usecases rb)) in
        if nonempty bad
        then [req_issue_ids rid (py "Unknown use case IDs") bad] else []
      else [])
  ++ (if nonempty (adr_ids src) && nonempty (rb_adr_ids rb) then
        let bad :=
            Str.sorted (filter (fun a => negb (mem a (adr_ids src)))
                               (rb_adr_ids rb)) in
        if nonempty bad
        then [req_issue_ids rid (py "Unknown ADR references") bad] else []
      else []).

(** The capabilities that the blocks cover. *)
Definition cap_covered (blocks : list req_block) : PySet.t :=
  fold_left (fun covered rb => PySet.union covered (rb_caps rb)) blocks [].

Definition uc_covered (blocks : list req_block) : PySet.t :=
  fold_left (fun covered rb => PySet.union covered (rb_usecases rb))
            blocks [].

Section WithConstants.

Variable K : Constants.
Variable E : Env.

(** The decision records that a text refers to, by ID or by number. *)
Definition adr_refs_of (num_to_id : list (Z * pystr)) (text : pystr)
  : outcome PySet.t :=
  for_each (fun refs n =>
              k <- PyInt.int n ;;
              Ok (match num_get k num_to_id with
                  | Some mapped =>
                    if str_truthy mapped then PySet.add mapped refs else refs
                  | None => refs
                  end))
           (p_findall (ADR_NUM_RE K) text)
           (PySet.of_list (p_findall (ADR_ID_RE K) text)).

(** The indices of the lines that declare a requirement. *)
Definition req_line_indices (lines : list pystr) : list nat :=
  map fst
      (filter (fun '(_, l) =>
                 Str.contains (py "**ID**:") l
                 && match p_search (REQ_ID_RE K) l with
                    | Some _ => true
                    | None => false
                    end)
              (enumerate_from 0 lines)).

(** The loop that builds the requirement blocks. *)
Fixpoint req_blocks_from (num_to_id : list (Z * pystr)) (lines : list pystr)
         (idxs : list nat) : outcome (list req_block) :=
  match idxs with
  | [] => Ok []
  | start :: rest =>
    let end_ := match rest with e :: _ => e | [] => List.length lines end in
    let block := slice start end_ lines in
    let id_line := nth start lines [] in
    match p_findall (REQ_ID_RE K) id_line with
    | req_id :: _ =>
      if str_truthy req_id then
        let block_text := Str.join Str.newline block in
        refs <- adr_refs_of num_to_id block_text ;;
        more <- req_blocks_from num_to_id lines rest ;;
        Ok ({| rb_id := req_id;
               rb_caps :=
                 PySet.of_list (p_findall (CAPABILITY_ID_RE K) block_text);
               rb_actors :=
                 PySet.of_list (p_findall (ACTOR_ID_RE K) block_text);
               rb_usecases :=
                 PySet.of_list (p_findall (USECASE_ID_RE K) block_text);
               rb_adr_ids := refs |} :: more)
      else req_blocks_from num_to_id lines rest
    | [] => req_blocks_from num_to_id lines rest
    end
  end.

(** The index of the decision records: the IDs and the map from number
    to ID. *)
Fixpoint index_adrs (entries : list Utils.adr_entry)
         (ids : PySet.t) (num_to_id : list (Z * pystr))
  : PySet.t * list (Z * pystr) :=
  match entries with
  | [] => (ids, num_to_id)
  | e :: rest =>
    match Utils.adr_id e with
    | Some i =>
      if str_truthy i
      then index_adrs rest (PySet.add i ids)
                      (num_set (Utils.adr_num e) i num_to_id)
      else index_adrs rest ids num_to_id
    | None => index_adrs rest ids num_to_id
    end
  end.

(** The sibling documents: the errors of loading them and what they
    declare. *)
Definition load_sources (artifact_path business_path adr_path
                         : option Path.t) (skip_fs_checks : bool)
  : outcome (list pyval * sources) :=
  match artifact_path with
  | Some ap =>
    if negb skip_fs_checks then
      let bp := or_path business_path
                        (Path.join (Path.parent ap) (py "BUSINESS.md")) in
      let adrp := or_path adr_path
                          (Path.join (Path.parent ap) (py "ADR.md")) in
      let '(bt, berr) := load_text E bp in
      '(errors1, actors, c2a, usecases) <-
        (if opt_truthy berr
         then Ok ([cross_error (or_empty berr)], [], [], [])
         else
           '(a, c, u) <- Utils.parse_business_model K (or_empty bt) ;;
           Ok ([], a, c, u)) ;;
      let '(at_, aerr) := load_text E adrp in
      '(errors2, ids, num_to_id) <-
        (if opt_truthy aerr
         then Ok (errors1 ++ [cross_error (or_empty aerr)], [], [])
         else
           '(adr_entries, adr_issues) <-
             Utils.parse_adr_index K (or_empty at_) ;;
           let '(ids, num_to_id) := index_adrs adr_entries [] [] in
           Ok (errors1 ++ adr_issues, ids, num_to_id)) ;;
      Ok (errors2,
          {| business_actors := actors; business_caps_to_actors := c2a;
             business_usecases := usecases; adr_ids := ids;
             adr_num_to_id := num_to_id |})
    else Ok ([], no_sources)
  | None => Ok ([], no_sources)
  end.

(** The structure checks at the head of the function. *)
Definition structure_errors (artifact_text : pystr)
  : list pyval * list pystr :=
  let present := Utils.find_present_section_ids K artifact_text in
  let needed := map py ["A"; "B"; "C"]%string in
  let missing :=
      filter (fun s => negb (mem s (PySet.of_list present))) needed in
  let errors1 :=
      if nonempty missing
      then [VDict [("type", VStr (py "structure"));
                   ("message",
                    VStr (py "Missing required top-level sections"));
                   ("missing", vstrs missing)]%string]
      else [] in
  let c_subs :=
      map (fun m => Re.group m 1)
          (Re.re_finditer Re.flag_M c_sub_re artifact_text) in
  let expected := map py ["1"; "2"; "3"; "4"; "5"]%string in
  let errors2 :=
      if nonempty c_subs && negb (Common.list_eqb c_subs expected)
      then errors1
           ++ [VDict [("type", VStr (py "structure"));
                      ("message",
                       VStr (py "Section C must have exactly C.1..C.5 in order"));
                      ("found", vstrs c_subs)]%string]
      else errors1 in
  (errors2, missing).

(** The traceability errors at the end of the function. *)
Definition orphan_errors (src : sources) (blocks : list req_block)
           (artifact_text : pystr) : outcome (list pyval) :=
  let caps :=
      if nonempty (business_caps_to_actors src) then
        let missing_caps :=
            Str.sorted
              (filter (fun c => negb (mem c (cap_covered blocks)))
                      (Dict.keys (business_caps_to_actors src))) in
        if nonempty missing_caps
        then [traceability_error
                "Orphaned capabilities (not referenced in DESIGN.md requirements)"
                missing_caps]
        else []
      else [] in
  let ucs :=
      if nonempty (business_usecases src) then
        let missing_uc :=
            Str.sorted
              (filter (fun u => negb (mem u (uc_covered blocks)))
                      (business_usecases src)) in
        if nonempty missing_uc
        then [traceability_error
                "Orphaned use cases (not referenced in DESIGN.md requirements)"
                missing_uc]
        else []
      else [] in
  adrs <-
    (if nonempty (adr_ids src) then
       covered <- adr_refs_of (adr_num_to_id src) artifact_text ;;
       let missing_adrs :=
           Str.sorted (filter (fun a => negb (mem a covered)) (adr_ids src)) in
       Ok (if nonempty missing_adrs
           then [traceability_error
                   "Orphaned ADRs (not referenced in DESIGN.md)" missing_adrs]
           else [])
     else Ok []) ;;
  Ok (caps ++ ucs ++ adrs).

Definition validate_overall_design (artifact_text : pystr)
           (artifact_path business_path adr_path : option Path.t)
           (skip_fs_checks : bool) : outcome result :=
  let placeholders := Utils.find_placeholders K artifact_text in
  let '(errors1, missing) := structure_errors artifact_text in
  '(errors2, src) <-
    load_sources artifact_path business_path adr_path skip_fs_checks ;;
  let lines := Str.splitlines artifact_text in
  req_blocks <-
    req_blocks_from (adr_num_to_id src) lines (req_line_indices lines) ;;
  let req_issues :=
      (if negb (nonempty req_blocks)
       then [VDict [("message",
                     VStr (py "No functional requirement IDs found"))]%string]
       else [])
      ++ flat_map (block_issues src) req_blocks in
  orphans <- orphan_errors src req_blocks artifact_text ;;
  let errors := errors1 ++ errors2 ++ orphans in
  let passed :=
      (List.length errors =? 0) && (List.length req_issues =? 0)
      && (List.length placeholders =? 0) in
  Ok {| required_section_count := 3;
        missing_sections :=
          map (fun s => VDict [("id", VStr s); ("title", VStr [])]%string)
              missing;
        placeholder_hits := placeholders;
        status_ := if passed then PASS else FAIL;
        errors := errors;
        requirement_issues := req_issues;
        requirement_count := List.length req_blocks |}.

End WithConstants.

End Design.
(** ** Constants for the examples

    The patterns below stand in for [constants.py] where an example needs
    to run the validators; the theorems that hold for every document are
    stated for arbitrary constants. *)

Module SpecConstants.

Import Re.

(** An identifier of one kind: [fdd-<project>-<kind>-<name>]. *)
Definition id_of (kind : string) : regex :=
  seq [lit "fdd-"; plus idchar; chr "-"; lit kind; chr "-"; plus idchar].

Definition upper_letter : regex := Chr (CRange 65 90).

(** Modelled from the spec: the scope declaration line
    [- [ ] **ID**: `fdd-...`], a checkbox-prefixed identifier declaration
    whose token begins with the project prefix (section 6, and the comment
    in [extract_fdl_instructions]). *)
Definition scope_line : regex :=
  seq [Bol; Star ws; Chr (CUnion (CChar 45) (CChar 42)); plus ws;
       chr "["; Chr (CUnion (CChar 32) (CUnion (CChar 120) (CChar 88)));
       chr "]"; plus ws; lit "**ID**:"; Star ws;
       chr "`"; lit "fdd-"; plus idchar; chr "`"].

(** Modelled from the spec: a scoped-instruction step line, a numbered
    list item with a checkbox ([[x]] or [[ ]]) that ends in a
    backtick-quoted instruction token (section 6). *)
Definition step_line : regex :=
  seq [Bol; Star ws; plus digit; chr "."; Star ws;
       chr "["; Chr (CUnion (CChar 32) (CUnion (CChar 120) (CChar 88)));
       chr "]"; Star dot;
       chr "`"; lit "inst-"; plus idchar; chr "`"; Star ws; Eol].

(** Modelled from the spec: the unresolved-work tokens TODO, TBD, FIXME,
    XXX and TBA (section 4.3). *)
Definition placeholder : regex :=
  seq [WordB;
       alt [lit "TODO"; lit "TBD"; lit "FIXME"; lit "XXX"; lit "TBA"];
       WordB].

(** Modelled from the spec: the top-level heading [## <Letter>. <Title>]
    (section 6). *)
Definition heading : regex :=
  seq [Bol; lit "##"; plus ws; Group 1 upper_letter; chr "."; plus ws;
       plus dot].

(** Modelled from the spec: the decision heading
    [## ADR-<4-digit-number>: <title>] (section 6). *)
Definition adr_heading : regex :=
  seq [Bol; lit "##"; plus ws;
       Group 1 (Seq (lit "ADR-")
                    (Group 2 (seq [digit; digit; digit; digit])));
       chr ":"; Star ws; Group 3 (plus dot)].

(** Modelled from the spec: the metadata line [**Date**: YYYY-MM-DD]
    (sections 4.4 and 6). *)
Definition adr_date : regex :=
  seq [lit "**Date**:"; Star ws;
       Group 1 (seq [digit; digit; digit; digit; chr "-"; digit; digit;
                     chr "-"; digit; digit])].

(** Modelled from the spec: the metadata line [**Status**: <label>]
    (sections 4.4 and 6). *)
Definition adr_status : regex :=
  seq [lit "**Status**:"; Star ws;
       Group 1 (alt [lit "Proposed"; lit "Accepted"; lit "Deprecated";
                     lit "Superseded"])].

(** Modelled from the spec: a bare sequence number of a decision record,
    [ADR-<4-digit-number>] (section 4.6). *)
Definition adr_num : regex :=
  seq [lit "ADR-"; Group 1 (seq [digit; digit; digit; digit])].

Definition K : Constants :=
  {| FDL_SCOPE_ID_RE := Compile.compile no_flags scope_line;
     FDL_STEP_LINE_RE := Compile.compile no_flags step_line;
     PLACEHOLDER_RE := Compile.compile no_flags placeholder;
     HEADING_ID_RE := Compile.compile no_flags heading;
     ACTOR_ID_RE := Compile.compile no_flags (id_of "actor");
     CAPABILITY_ID_RE := Compile.compile no_flags (id_of "capability");
     USECASE_ID_RE := Compile.compile no_flags (id_of "usecase");
     REQ_ID_RE := Compile.compile no_flags (id_of "req");
     PRINCIPLE_ID_RE := Compile.compile no_flags (id_of "principle");
     ADR_HEADING_RE := Compile.compile no_flags adr_heading;
     ADR_DATE_RE := Compile.compile no_flags adr_date;
     ADR_STATUS_RE := Compile.compile no_flags adr_status;
     ADR_ID_RE := Compile.compile no_flags (id_of "adr");
     ADR_NUM_RE := Compile.compile no_flags adr_num |}.

(** Lines joined into a text. *)
Definition text_of (lines : list string) : pystr :=
  Str.join Str.newline (map py lines).

End SpecConstants.
(** ** The extraction of section 4.8, in the spec's words

    "Track the current scope as the most recently seen scope-declaration
    line; every subsequent step line belonging to that scope, if marked
    complete via a checkbox notation, contributes its trailing instruction
    identifier to that scope's instruction list (order preserved;
    duplicates preserved)."  These definitions describe the result line
    by line; they are what the extractor is compared with. *)

Module FdlSpec.

Import Re.

Section WithConstants.

Variable K : Constants.

(** The scope that a line declares, when it is a scope-declaration line. *)
Definition declared_scope (line : pystr) : option pystr :=
  match p_match (FDL_SCOPE_ID_RE K) line with
  | Some _ =>
    match re_search no_flags Fdl.scope_token_re line with
    | Some m => Some (group m 1)
    | None => None
    end
  | None => None
  end.

(** The instruction of a line, when it is a step line whose checkbox is
    checked and that ends in a backtick-quoted instruction token. *)
Definition checked_instruction (line : pystr) : option pystr :=
  match p_match (FDL_STEP_LINE_RE K) line with
  | Some _ =>
    match re_match flag_I Fdl.checked_re line with
    | Some _ =>
      match re_search no_flags Fdl.inst_token_re (Str.strip line) with
      | Some m => Some (group m 1)
      | None => None
      end
    | None => None
    end
  | None => None
  end.

(** The scope in force after a line: the one it declares, or else the
    one in force before it. *)
Definition scope_after (cur : option pystr) (line : pystr) : option pystr :=
  match declared_scope line with
  | Some s => Some s
  | None => cur
  end.

(** Each line with the scope it belongs to: the scope of the latest
    declaration up to and including the line. *)
Fixpoint tag_scopes (current : option pystr) (lines : list pystr)
  : list (option pystr * pystr) :=
  match lines with
  | [] => []
  | line :: rest =>
    let current1 := scope_after current line in
    (current1, line) :: tag_scopes current1 rest
  end.

(** What one tagged line contributes to the scope [S]. *)
Definition contribution (S : pystr) (tagged : option pystr * pystr)
  : list pystr :=
  match fst tagged with
  | Some s =>
    if pystr_eqb s S then
      match checked_instruction (snd tagged) with
      | Some inst => [inst]
      | None => []
      end
    else []
  | None => []
  end.

(** The instructions that the lines list under [S], in document order,
    when the scope in force before the first line is [current]. *)
Definition steps_from (current : option pystr) (S : pystr)
           (lines : list pystr) : list pystr :=
  flat_map (contribution S) (tag_scopes current lines).

Definition steps_under (S : pystr) (lines : list pystr) : list pystr :=
  steps_from None S lines.

(** Whether some line declares the scope [S]. *)
Definition declares (S : pystr) (lines : list pystr) : bool :=
  existsb (fun line =>
             match declared_scope line with
             | Some s => pystr_eqb s S
             | None => false
             end) lines.

(** Whether no line of [lines] is a scope declaration. *)
Definition no_declaration (lines : list pystr) : bool :=
  forallb (fun line =>
             match declared_scope line with
             | Some _ => false
             | None => true
             end) lines.


End WithConstants.

(** The entry of a scope whose checked steps are [steps]. *)
Definition entry_of (steps : list pystr) : Fdl.scope_entry :=
  {| Fdl.instructions := steps; Fdl.completed := map VStr steps |}.

(** An entry with further checked steps appended. *)
Definition extend (e : Fdl.scope_entry) (steps : list pystr)
  : Fdl.scope_entry :=
  {| Fdl.instructions := Fdl.instructions e ++ steps;
     Fdl.completed := Fdl.completed e ++ map VStr steps |}.

(** The invariant of the loop: the current scope has an entry and its
    name is not empty. *)
Definition state_ok (st : Fdl.design_fdl * option pystr) : Prop :=
  match snd st with
  | Some s => Dict.contains s (fst st) = true /\ s <> []
  | None => True
  end.

(** What the entries satisfy throughout: the two lists agree and no
    instruction is the empty string. *)
Definition entry_ok (e : Fdl.scope_entry) : Prop :=
  Fdl.completed e = map VStr (Fdl.instructions e)
  /\ Forall (fun i => i <> []) (Fdl.instructions e).

End FdlSpec.
(** ** Documents for the examples *)

Module Documents.

Import SpecConstants.

Local Open Scope string_scope.

(** A feature document with a checked step before its first scope, a
    scope with a repeated instruction and an unchecked step, and a second
    scope. *)
Definition early_lines : list string :=
  ["1. [x] - `ph-1` - early - `inst-early`"].

Definition scoped_lines : list string :=
  ["- [ ] **ID**: `fdd-app-feature-x-flow-login`";
   "1. [x] - `ph-1` - do a - `inst-a`";
   "2. [ ] - `ph-1` - do b - `inst-b`";
   "3. [X] - `ph-1` - do a again - `inst-a`  ";
   "- [x] **ID**: `fdd-app-feature-x-algo-hash`";
   "1. [x] - `ph-1` - do c - `inst-c`"].

Definition feature_design : pystr := text_of (early_lines ++ scoped_lines).


(** The same with the line as the spec writes it. *)
Definition todo_text_trimmed : pystr :=
  text_of ["# Notes"; "- TODO: finish this"; "done"].

(** A change log that shows the status IMPLEMENTED, and the instructions
    of a feature with one checked step. *)
Definition implemented_changes : pystr := py "**Status**: ✨ IMPLEMENTED".

Definition login_fdl : Fdl.design_fdl :=
  [(py "fdd-app-feature-x-flow-login",
    {| Fdl.instructions := [py "inst-a"];
       Fdl.completed := [VStr (py "inst-a")] |})].

(** A decision log with one complete record. *)
Definition adr_text : pystr :=
  text_of ["# Decisions"; "";
           "## ADR-0001: Use plain text";
           "**Date**: 2024-01-15";
           "**Status**: Accepted";
           "**ADR ID**: `fdd-app-adr-plain-text`";
           "### Context and Problem Statement";
           "### Decision Drivers";
           "### Considered Options";
           "### Decision Outcome";
           "### Related Design Elements";
           "- `fdd-app-capability-report`"].

(** A business model: one actor, and two capabilities of which the
    first lists no actor. *)
Definition business_text : pystr :=
  text_of ["## B. Actors";
           "- `fdd-app-actor-user`";
           "## C. Capabilities";
           "- `fdd-app-capability-report`";
           "- `fdd-app-capability-audit`: `fdd-app-actor-user`"].

(** A design document with one requirement, which refers to the first
    capability and to the actor. *)
Definition design_text : pystr :=
  text_of ["## A. Overview";
           "## B. Requirements";
           "**ID**: `fdd-app-req-export`";
           "Capabilities: `fdd-app-capability-report`";
           "Actors: `fdd-app-actor-user`";
           "Decisions: `fdd-app-adr-plain-text`";
           "## C. Structure"].

Definition design_path : Path.t := [py "architecture"; py "DESIGN.md"].
Definition business_path : Path.t := [py "architecture"; py "BUSINESS.md"].
Definition adr_path : Path.t := [py "architecture"; py "ADR.md"].
Definition requirements_path : Path.t := [py "requirements"; py "design.md"].

Definition path_eqb (a b : Path.t) : bool :=
  if list_eq_dec (list_eq_dec N.eq_dec) a b then true else false.

(** Modelled from the spec: a sibling document is read whole, and one
    that cannot be read gives a message in place of its text (section 5);
    the required sections of a requirements file are its codes with their
    titles, in the order of the file (section 4.2). *)
Definition E : Env :=
  {| load_text := fun p =>
       if path_eqb p business_path then (Some business_text, None)
       else if path_eqb p adr_path then (Some adr_text, None)
       else if path_eqb p design_path then (Some design_text, None)
       else (None, Some (py "File not found: " ++ Path.to_str p)%list);
     parse_required_sections := fun p =>
       if path_eqb p requirements_path
       then [(py "A", py "Overview"); (py "B", py "Requirements");
             (py "C", py "Structure")]
       else [] |}.

(** What the check of the design document holds of the business model
    and of the decision log above, and the one requirement block of the
    design document. *)
Definition design_sources : Design.sources :=
  {| Design.business_actors := [py "fdd-app-actor-user"];
     Design.business_caps_to_actors :=
       [(py "fdd-app-capability-report", []);
        (py "fdd-app-capability-audit", [py "fdd-app-actor-user"])];
     Design.business_usecases := [];
     Design.adr_ids := [py "fdd-app-adr-plain-text"];
     Design.adr_num_to_id := [(1%Z, py "fdd-app-adr-plain-text")] |}.

Definition design_blocks : list Design.req_block :=
  [{| Design.rb_id := py "fdd-app-req-export";
      Design.rb_caps := [py "fdd-app-capability-report"];
      Design.rb_actors := [py "fdd-app-actor-user"];
      Design.rb_usecases := [];
      Design.rb_adr_ids := [py "fdd-app-adr-plain-text"] |}].

End Documents.
(** ** The markers of a tree, in the spec's words

    "complete holds iff both markers exist anywhere in the tree,
    regardless of order or file."  The definitions below say which lines
    the scan reads and which markers they carry, with no reference to the
    order of the lines. *)

Module ScanSpec.

Import Re Fdl.




Definition pattern_of (kind : marker_kind) : regex :=
  match kind with
  | Begin => begin_pattern
  | End_ => end_pattern
  end.

(** Whether a line carries a marker of the kind for the instruction. *)
Definition marker_on (kind : marker_kind) (inst_id line : pystr) : bool :=
  match re_search no_flags (pattern_of kind) line with
  | Some m => pystr_eqb (group m 2) inst_id
  | None => false
  end.

(** Whether some line carries such a marker. *)
Definition observed (kind : marker_kind) (inst_id : pystr)
           (lines : list pystr) : bool :=
  existsb (marker_on kind inst_id) lines.





End ScanSpec.
(** ** The placeholder hits of section 4.3, in the spec's words

    "each hit records its 1-based line number and trimmed line text" *)

Module PlaceholderSpec.

Section WithConstants.

Variable K : Constants.





End WithConstants.

End PlaceholderSpec.
(** ** The order of the sections, in the spec's words

    "the subsequence of present codes restricted to required ones must
    equal the canonical order exactly" *)

Module SectionSpec.

(** The observed codes that are required ones, in the order observed. *)
Definition restrict (required observed : list pystr) : list pystr :=
  filter (fun sid => mem sid required) observed.

(** The message of the order error. *)
Definition order_message : pyval :=
  VStr (py "Sections are not in required order").

End SectionSpec.
(** ** [validation/fdl.py]: the coverage and the code checks *)

Module FdlChecks.

Import Re Fdl.

(** [r"`(fdd-[a-z0-9-]+-(?:flow|algo|state|test)-[a-z0-9-]+)`"] *)
Definition scope_ref_re : regex :=
  seq [chr "`";
       Group 1 (seq [lit "fdd-"; plus idchar; chr "-";
                     alt [lit "flow"; lit "algo"; lit "state"; lit "test"];
                     chr "-"; plus idchar]);
       chr "`"].

(** [extract_scope_references_from_changes] *)
Definition extract_scope_references_from_changes (text : pystr) : PySet.t :=
  PySet.of_list (re_findall1 no_flags scope_ref_re text).

Definition coverage_error (scope_id : pystr) : pyval :=
  VDict [("type", VStr (py "fdl_coverage"));
         ("message",
          VStr (py "FDL scope '" ++ scope_id
                ++ py "' from DESIGN.md not referenced in CHANGES.md")%list);
         ("scope_id", VStr scope_id)]%string.

(** [validate_fdl_coverage] *)
Definition validate_fdl_coverage (changes_text : pystr) (d : design_fdl)
  : list pyval :=
  let referenced_scopes := extract_scope_references_from_changes changes_text in
  flat_map (fun scope_id =>
              if negb (mem scope_id referenced_scopes)
              then [coverage_error scope_id] else [])
           (Dict.keys d).







(** [s.replace(old, new)] for a non-empty [old]: the occurrences from
    left to right, none overlapping.  [skip] counts the characters of an
    occurrence still to pass over. *)
Fixpoint replace_aux (old new : pystr) (skip : nat) (s : pystr) : pystr :=
  match s with
  | [] => []
  | c :: s1 =>
    match skip with
    | S k => replace_aux old new k s1
    | O =>
      if Str.startswith old s
      then new ++ replace_aux old new (List.length old - 1) s1
      else c :: replace_aux old new 0 s1
    end
  end.

Definition replace (old new s : pystr) : pystr := replace_aux old new 0 s.






Section WithConstants.

Variable K : Constants.


End WithConstants.

End FdlChecks.
(** ** The markers of a line and the scopes of an instruction *)

Module MarkerSpec.

Import Re Fdl ScanSpec.

(** The scope and the instruction of the marker of a kind that a line
    carries: the two groups of the leftmost match. *)
Definition marker_of (kind : marker_kind) (line : pystr)
  : option (pystr * pystr) :=
  match re_search no_flags (pattern_of kind) line with
  | Some m => Some (group m 1, group m 2)
  | None => None
  end.



End MarkerSpec.
(** ** Counting and order *)

Module CountSpec.

(** How often an ID occurs in a list. *)
Definition occurrences (x : pystr) (l : list pystr) : nat :=
  List.length (filter (pystr_eqb x) l).

(** Ascending in the order of [sorted]. *)
Definition ascending (l : list pystr) : Prop :=
  Sorted (fun a b => Str.leb a b = true) l.

(** The message of the error for repeated section ids. *)
Definition duplicate_message : pyval :=
  VStr (py "Duplicate section ids in artifact").

End CountSpec.
(** ** What the loops of [utils/helpers.py] keep true *)

Module HelperSpec.

Section WithConstants.

Variable K : Constants.

(** The state of the loop of [parse_business_model], for lines taken
    from [L]: the current capability has its entry, no capability has
    two entries, every capability is the first capability ID of a line,
    and every actor of a capability is an actor ID of a line. *)
Definition bm_ok (L : list pystr) (st : Utils.bm_state) : Prop :=
  (forall cur,
      Utils.current_capability_id st = Some cur ->
      str_truthy cur = true ->
      Dict.contains cur (Utils.capability_to_actors st) = true)
  /\ NoDup (Dict.keys (Utils.capability_to_actors st))
  /\ (forall cap,
         In cap (Dict.keys (Utils.capability_to_actors st)) ->
         exists line rest,
           In line L /\ p_findall (CAPABILITY_ID_RE K) line = cap :: rest)
  /\ (forall cap actors a,
         Dict.get cap (Utils.capability_to_actors st) = Some actors ->
         In a actors ->
         exists line, In line L /\ In a (p_findall (ACTOR_ID_RE K) line)).

(** Whether a line opens the capability section. *)
Definition opens_capabilities (line : pystr) : bool :=
  Str.contains (py "## C. Capabilities") line
  || Str.contains (py "## Section C") line.

(** The matches of the decision headings of a text, in the order of the
    lines. *)
Definition heading_matches (lines : list pystr) : list Re.Match :=
  flat_map (fun line =>
              match p_match (ADR_HEADING_RE K) (Str.strip line) with
              | Some m => [m]
              | None => []
              end) lines.

End WithConstants.

End HelperSpec.
(** ** The records of a decision log *)

Module AdrSpec.

Section WithConstants.

Variable K : Constants.



End WithConstants.

End AdrSpec.
(** ** [validation/artifacts/adr.py]: the helpers for fields and
    paragraphs *)

Module AdrHelpers.

Import Re.



(** The result of [field_block]. *)
Record block : Type :=
  { index : nat; value : pystr; tail : list pystr }.






(** [any(x.strip() for x in buf)] *)
Definition any_text (buf : list pystr) : bool :=
  existsb (fun x => str_truthy (Str.strip x)) buf.

(** The loop of [_paragraph_count]. *)
Fixpoint paragraph_loop (lines : list pystr) (paras : nat)
         (buf : list pystr) : nat :=
  match lines with
  | [] => if any_text buf then paras + 1 else paras
  | l :: rest =>
    let s := Str.strip l in
    if negb (str_truthy s) then
      paragraph_loop rest (if any_text buf then paras + 1 else paras) []
    else if Str.startswith (py "#") s then paragraph_loop rest paras buf
    else paragraph_loop rest paras (buf ++ [s])
  end.

(** [_paragraph_count] *)
Definition _paragraph_count (lines : list pystr) : nat :=
  paragraph_loop lines 0 [].

(** A line of white space only, a heading line, a line of text. *)
Definition is_blank (l : pystr) : bool := negb (str_truthy (Str.strip l)).

Definition is_heading (l : pystr) : bool :=
  str_truthy (Str.strip l) && Str.startswith (py "#") (Str.strip l).

Definition is_text (l : pystr) : bool :=
  str_truthy (Str.strip l) && negb (Str.startswith (py "#") (Str.strip l)).

End AdrHelpers.
(** ** What the check of the design document reports *)

Module DesignSpec.

Import Design.


Definition no_requirements : pyval :=
  VDict [("message",
          VStr (py "No functional requirement IDs found"))]%string.


(** Some block refers to the id. *)
Definition referenced (refs : req_block -> PySet.t)
           (blocks : list req_block) (x : pystr) : Prop :=
  exists rb, In rb blocks /\ In x (refs rb).

Definition traceability : pyval := VStr (py "traceability").



(** The four kinds of ids to which a requirement block refers. *)
Inductive ref_kind : Type := RActor | RCapability | RUseCase | RDecision.

Definition unknown_message (k : ref_kind) : pystr :=
  match k with
  | RActor => py "Unknown actor IDs"
  | RCapability => py "Unknown capability IDs"
  | RUseCase => py "Unknown use case IDs"
  | RDecision => py "Unknown ADR references"
  end.

Definition refs_of (k : ref_kind) (rb : req_block) : PySet.t :=
  match k with
  | RActor => rb_actors rb
  | RCapability => rb_caps rb
  | RUseCase => rb_usecases rb
  | RDecision => rb_adr_ids rb
  end.

(** The ids of the kind that the sibling documents declare. *)
Definition declared_of (k : ref_kind) (src : sources) : list pystr :=
  match k with
  | RActor => business_actors src
  | RCapability => Dict.keys (business_caps_to_actors src)
  | RUseCase => business_usecases src
  | RDecision => adr_ids src
  end.

Definition unknown_ids (k : ref_kind) (src : sources) (rb : req_block)
  : list pystr :=
  Str.sorted (filter (fun x => negb (mem x (declared_of k src)))
                     (refs_of k rb)).

Definition missing_capabilities : pystr :=
  py "Missing capability references".

Definition missing_actors : pystr := py "Missing actor references".



Section WithConstants.

Variable K : Constants.



End WithConstants.

End DesignSpec.
(** ** [utils/text.py]: [slugify_anchor] *)

Module Text.

Import Re.

(** [re.sub(r, repl, s)] for a replacement that refers to no group: the
    text is scanned from left to right; where the pattern matches, the
    replacement takes the place of the match and the scan goes on after
    it, elsewhere the character is kept.  [skip] counts the characters
    of a match still to pass over.  An empty match is replaced too and
    the character after it kept. *)
Fixpoint sub_aux (fl : flags) (r : regex) (repl : pystr) (skip : nat)
         (prev : option N) (s : pystr) : pystr :=
  match s with
  | [] =>
    match skip with
    | O =>
      match match_here fl r 0 prev [] with
      | Some _ => repl
      | None => []
      end
    | S _ => []
    end
  | c :: s1 =>
    match skip with
    | S k => sub_aux fl r repl k (Some c) s1
    | O =>
      match match_here fl r 0 prev s with
      | Some m =>
        match m_text m with
        | [] => repl ++ c :: sub_aux fl r repl 0 (Some c) s1
        | _ :: w => repl ++ sub_aux fl r repl (List.length w) (Some c) s1
        end
      | None => c :: sub_aux fl r repl 0 (Some c) s1
      end
    end
  end.

Definition re_sub (fl : flags) (r : regex) (repl : pystr) (s : pystr)
  : pystr :=
  sub_aux fl r repl 0 None s.

(** [s.strip(chars)] *)
Fixpoint lstrip_chars (chars : pystr) (s : pystr) : pystr :=
  match s with
  | [] => []
  | c :: s1 =>
    if existsb (N.eqb c) chars then lstrip_chars chars s1 else s
  end.

Definition strip_chars (chars : pystr) (s : pystr) : pystr :=
  rev (lstrip_chars chars (rev (lstrip_chars chars s))).

(** The four patterns of [slugify_anchor]: a text between backticks, a
    character that is no small letter, digit, white space or hyphen, a
    run of white space, a run of hyphens. *)
Definition backticked_re : regex :=
  seq [chr "`"; Star (Chr (CNot (CChar 96))); chr "`"].

Definition unsafe_re : regex :=
  Chr (CNot (CUnion (CRange 97 122)
                    (CUnion (CRange 48 57) (CUnion CSpace (CChar 45))))).

Definition spaces_re : regex := plus ws.

Definition hyphens_re : regex := plus (Chr (CChar 45)).

Section WithLower.

(** [str.lower], whose tables of characters are no part of the
    sources. *)
Variable lower : pystr -> pystr.

(** [slugify_anchor] *)
Definition slugify_anchor (text : pystr) : pystr :=
  let t := re_sub no_flags backticked_re [] text in
  let t := lower (Str.strip t) in
  let t := re_sub no_flags unsafe_re [] t in
  let t := re_sub no_flags spaces_re (py "-") t in
  let t := re_sub no_flags hyphens_re (py "-") t in
  strip_chars (py "-") t.

End WithLower.

End Text.

(** *** What the steps of [slugify_anchor] do *)

Module TextSpec.

Import Re.

Fixpoint take_while (cs : cset) (s : pystr) : pystr :=
  match s with
  | [] => []
  | c :: s1 => if cset_mem cs c then c :: take_while cs s1 else []
  end.

Fixpoint drop_while (cs : cset) (s : pystr) : pystr :=
  match s with
  | [] => []
  | c :: s1 => if cset_mem cs c then drop_while cs s1 else s
  end.

(** Each run of characters of the set gives way to the replacement;
    [inrun] tells that the character before was of the set. *)
Fixpoint squeeze (cs : cset) (repl : pystr) (inrun : bool) (s : pystr)
  : pystr :=
  match s with
  | [] => []
  | c :: s1 =>
    if cset_mem cs c
    then (if inrun then [] else repl) ++ squeeze cs repl true s1
    else c :: squeeze cs repl false s1
  end.

(** A small letter, a digit or the hyphen. *)
Definition is_slug_char (c : N) : bool :=
  ((97 <=? c) && (c <=? 122) || (48 <=? c) && (c <=? 57) || (c =? 45))%N.

(** The character twice in a row. *)
Fixpoint has_double (x : N) (s : pystr) : bool :=
  match s with
  | [] => false
  | c :: s1 =>
    match s1 with
    | [] => false
    | d :: _ => ((c =? x) && (d =? x))%N || has_double x s1
    end
  end.

Definition hyphen_first (s : pystr) : bool :=
  match s with
  | c :: _ => (c =? 45)%N
  | [] => false
  end.

(** The texts that are anchors: small letters, digits and hyphens, no
    two hyphens in a row and no hyphen at either end. *)
Definition is_slug (s : pystr) : bool :=
  forallb is_slug_char s && negb (has_double 45 s)
  && negb (hyphen_first s) && negb (hyphen_first (rev s)).

End TextSpec.
(** * Properties

    ** Strings *)

Lemma pystr_eqb_eq a b : pystr_eqb a b = true <-> a = b.
Proof.
  unfold pystr_eqb. destruct (list_eq_dec N.eq_dec a b); split; congruence.
Qed.

Lemma pystr_eqb_refl a : pystr_eqb a a = true.
Proof. now apply pystr_eqb_eq. Qed.

Lemma pystr_eqb_neq a b : pystr_eqb a b = false <-> a <> b.
Proof.
  unfold pystr_eqb. destruct (list_eq_dec N.eq_dec a b); split; congruence.
Qed.

Lemma mem_In x xs : mem x xs = true <-> In x xs.
Proof.
  unfold mem. rewrite existsb_exists. split.
  - intros [y [Hy He]]. apply pystr_eqb_eq in He. now subst.
  - intros H. exists x. split; [assumption | apply pystr_eqb_refl].
Qed.

Lemma mem_not_In x xs : mem x xs = false <-> ~ In x xs.
Proof.
  rewrite <- mem_In. destruct (mem x xs); split; congruence.
Qed.

Lemma pystr_eqb_sym a b : pystr_eqb a b = pystr_eqb b a.
Proof.
  destruct (pystr_eqb a b) eqn:E1, (pystr_eqb b a) eqn:E2; try reflexivity.
  - apply pystr_eqb_eq in E1. subst. now rewrite pystr_eqb_refl in E2.
  - apply pystr_eqb_eq in E2. subst. now rewrite pystr_eqb_refl in E1.
Qed.
(** ** Soundness of the matcher *)

Module ReFacts.

Import Re ReSpec.

Lemma firstn_consumed (w s1 : pystr) :
  firstn (List.length (w ++ s1) - List.length s1) (w ++ s1) = w.
Proof.
  rewrite length_app, Nat.add_sub.
  rewrite firstn_app, Nat.sub_diag, firstn_all. simpl.
  apply app_nil_r.
Qed.

Lemma star_loop_sound fl A r m1 :
  sound_for fl (A := A) r m1 ->
  forall fuel, sound_for fl (Star r) (fun p s c k => star_loop m1 k fuel p s c).
Proof.
  intros Hm fuel. induction fuel as [|f IH]; intros p s c k a H; simpl in H.
  - exists [], s, p, c. repeat split; [constructor | assumption].
  - destruct (m1 p s c _) as [a0|] eqn:E.
    + inversion H; subst a0; clear H.
      apply Hm in E. destruct E as (w & s1 & p1 & c1 & Hs & Hw & Hk).
      destruct (List.length s1 <? List.length s) eqn:Hlt; [|discriminate].
      apply Nat.ltb_lt in Hlt.
      apply IH in Hk. destruct Hk as (w2 & s2 & p2 & c2 & Hs1 & Hw2 & Hk2).
      exists (w ++ w2), s2, p2, c2. subst s1 s. split.
      * now rewrite app_assoc.
      * split; [|assumption].
        eapply M_StarCons; eauto.
        intros ->. simpl in Hlt. lia.
    + exists [], s, p, c. repeat split; [constructor | assumption].
Qed.

(** Soundness of the matcher. *)
Lemma rmatch_sound fl A r : sound_for fl (A := A) r (rmatch fl (A := A) r).
Proof.
  induction r; intros p s c k a H; simpl in H.
  - exists [], s, p, c. repeat split; [constructor | assumption].
  - destruct s as [|x s1]; [discriminate|].
    destruct (cmatch fl cs x) eqn:E; [|discriminate].
    exists [x], s1, (Some x), c. repeat split; [now constructor | assumption].
  - apply IHr1 in H. destruct H as (w1 & s1 & p1 & c1 & Hs & Hw1 & H).
    apply IHr2 in H. destruct H as (w2 & s2 & p2 & c2 & Hs1 & Hw2 & H).
    exists (w1 ++ w2), s2, p2, c2. subst. split; [now rewrite app_assoc|].
    split; [econstructor; eauto | assumption].
  - destruct (rmatch fl r1 p s c k) as [a0|] eqn:E.
    + inversion H; subst a0. apply IHr1 in E.
      destruct E as (w & s1 & p1 & c1 & Hs & Hw & Hk).
      exists w, s1, p1, c1. repeat split; [assumption | now apply M_AltL | assumption].
    + apply IHr2 in H. destruct H as (w & s1 & p1 & c1 & Hs & Hw & Hk).
      exists w, s1, p1, c1. repeat split; [assumption | now apply M_AltR | assumption].
  - exact (star_loop_sound IHr (List.length s) p s c k H).
  - apply IHr in H. destruct H as (w & s1 & p1 & c1 & Hs & Hw & Hk).
    exists w, s1, p1, ((i, w) :: c1). subst s.
    rewrite firstn_consumed in Hk.
    repeat split; [now constructor | assumption].
  - destruct (at_bol fl p) eqn:E; [|discriminate].
    exists [], s, p, c. repeat split; [now constructor | assumption].
  - destruct (at_eol fl s) eqn:E; [|discriminate].
    exists [], s, p, c. repeat split; [now constructor | assumption].
  - destruct (at_wordb p s) eqn:E; [|discriminate].
    exists [], s, p, c. repeat split; [now constructor | assumption].
Qed.

(** A match found at a position is a match of the pattern there. *)
Lemma match_here_sound fl r start p s m :
  match_here fl r start p s = Some m ->
  exists p1, s = m_text m ++ m_rest m
             /\ matches fl r p (m_text m) (m_rest m) [] p1 (m_caps m).
Proof.
  unfold match_here. intros H. apply rmatch_sound in H.
  destruct H as (w & s1 & p1 & c1 & Hs & Hw & Hk).
  inversion Hk; subst m; clear Hk. simpl. subst s.
  rewrite firstn_consumed. exists p1. split; [reflexivity | assumption].
Qed.

(** [re.search] returns a match of the pattern at some position. *)
Lemma search_from_sound fl r : forall s start p m,
  search_from fl r start p s = Some m ->
  exists pre p0 p1,
    s = pre ++ m_text m ++ m_rest m
    /\ matches fl r p0 (m_text m) (m_rest m) [] p1 (m_caps m).
Proof.
  induction s as [|x s1 IH]; intros start p m H; simpl in H.
  - destruct (match_here fl r start p []) as [m0|] eqn:E; [|discriminate].
    inversion H; subst m0. apply match_here_sound in E.
    destruct E as (p1 & Hs & Hm). exists [], p, p1. now split.
  - destruct (match_here fl r start p (x :: s1)) as [m0|] eqn:E.
    + inversion H; subst m0. apply match_here_sound in E.
      destruct E as (p1 & Hs & Hm). exists [], p, p1. now split.
    + apply IH in H. destruct H as (pre & p0 & p1 & Hs & Hm).
      exists (x :: pre), p0, p1. split; [simpl; now f_equal | assumption].
Qed.

End ReFacts.

(** ** Dicts, sets and sorting *)

Module DictFacts.

Lemma get_set_same {V : Type} (k : pystr) (v : V) (d : Dict.t V) :
  Dict.get k (Dict.set k v d) = Some v.
Proof.
  induction d as [|[k1 v1] d IH]; simpl.
  - now rewrite pystr_eqb_refl.
  - destruct (pystr_eqb k k1) eqn:E; simpl; rewrite E; [reflexivity | exact IH].
Qed.

Lemma get_set_other {V : Type} (k k' : pystr) (v : V) (d : Dict.t V) :
  k' <> k -> Dict.get k' (Dict.set k v d) = Dict.get k' d.
Proof.
  intros Hne. induction d as [|[k1 v1] d IH]; simpl.
  - apply pystr_eqb_neq in Hne. now rewrite Hne.
  - destruct (pystr_eqb k k1) eqn:E; simpl.
    + apply pystr_eqb_eq in E. subst k1.
      apply pystr_eqb_neq in Hne. now rewrite Hne.
    + destruct (pystr_eqb k' k1); [reflexivity | exact IH].
Qed.

Lemma get_set {V : Type} (k k' : pystr) (v : V) (d : Dict.t V) :
  Dict.get k' (Dict.set k v d)
  = if pystr_eqb k' k then Some v else Dict.get k' d.
Proof.
  destruct (pystr_eqb k' k) eqn:E.
  - apply pystr_eqb_eq in E. subst. apply get_set_same.
  - apply pystr_eqb_neq in E. now apply get_set_other.
Qed.

Lemma contains_keys {V : Type} (k : pystr) (d : Dict.t V) :
  Dict.contains k d = mem k (Dict.keys d).
Proof.
  unfold Dict.contains. induction d as [|[k1 v1] d IH]; simpl.
  - reflexivity.
  - destruct (pystr_eqb k k1); simpl; [reflexivity | exact IH].
Qed.

Lemma get_In {V : Type} (k : pystr) (v : V) (d : Dict.t V) :
  Dict.get k d = Some v -> In (k, v) d.
Proof.
  induction d as [|[k1 v1] d IH]; simpl; [discriminate|].
  destruct (pystr_eqb k k1) eqn:E.
  - apply pystr_eqb_eq in E. intros H. inversion H. subst. now left.
  - intros H. right. now apply IH.
Qed.

Lemma In_set {V : Type} (k k' : pystr) (v v' : V) (d : Dict.t V) :
  In (k', v') (Dict.set k v d) -> (k' = k /\ v' = v) \/ In (k', v') d.
Proof.
  induction d as [|[k1 v1] d IH]; simpl.
  - intros [H|[]]. inversion H. now left.
  - destruct (pystr_eqb k k1) eqn:E; simpl.
    + apply pystr_eqb_eq in E. subst k1.
      intros [H|H]; [inversion H; now left | right; now right].
    + intros [H|H]; [right; now left|].
      destruct (IH H) as [?|?]; [now left | right; now right].
Qed.

Lemma contains_set {V : Type} (k k' : pystr) (v : V) (d : Dict.t V) :
  Dict.contains k' (Dict.set k v d) = pystr_eqb k' k || Dict.contains k' d.
Proof.
  unfold Dict.contains. rewrite get_set.
  destruct (pystr_eqb k' k); reflexivity.
Qed.

Lemma keys_set_In {V : Type} (k k' : pystr) (v : V) (d : Dict.t V) :
  In k' (Dict.keys (Dict.set k v d)) <-> k' = k \/ In k' (Dict.keys d).
Proof.
  rewrite <- !mem_In, <- !contains_keys, contains_set.
  rewrite orb_true_iff, pystr_eqb_eq. reflexivity.
Qed.

End DictFacts.

Module SetFacts.

Lemma of_list_In (x : pystr) (xs : list pystr) :
  In x (PySet.of_list xs) <-> In x xs.
Proof.
  induction xs as [|y ys IH]; simpl; [reflexivity|].
  destruct (mem y (PySet.of_list ys)) eqn:E.
  - apply mem_In in E. split.
    + intros H. right. now apply IH.
    + intros [->|H]; [assumption | now apply IH].
  - simpl. rewrite IH. reflexivity.
Qed.


Lemma add_In (x y : pystr) (s : PySet.t) :
  In x (PySet.add y s) <-> x = y \/ In x s.
Proof.
  unfold PySet.add. destruct (mem y s) eqn:E.
  - apply mem_In in E. split; [now right | intros [->|H]; assumption].
  - rewrite in_app_iff. simpl. split.
    + intros [H|[H|[]]]; [now right | now left].
    + intros [->|H]; [right; now left | now left].
Qed.

Lemma issubset_spec (a b : PySet.t) :
  PySet.issubset a b = true <-> (forall x, In x a -> In x b).
Proof.
  unfold PySet.issubset. rewrite forallb_forall.
  split; intros H x Hx; [apply mem_In | apply mem_In]; now apply H.
Qed.

Lemma nonempty_false {A : Type} (xs : list A) :
  nonempty xs = false <-> xs = [].
Proof. destruct xs; simpl; split; congruence. Qed.

Lemma nonempty_true {A : Type} (xs : list A) :
  nonempty xs = true <-> xs <> [].
Proof. destruct xs; simpl; split; congruence. Qed.

Lemma length_zero {A : Type} (xs : list A) :
  (List.length xs =? 0) = true <-> xs = [].
Proof.
  destruct xs; simpl; split; try congruence; reflexivity.
Qed.

End SetFacts.

Module SortFacts.

Lemma insert_perm (x : pystr) (xs : list pystr) :
  Permutation (x :: xs) (Str.insert_sorted x xs).
Proof.
  induction xs as [|y ys IH]; simpl; [apply Permutation_refl|].
  destruct (Str.leb x y); [apply Permutation_refl|].
  eapply perm_trans; [apply perm_swap|]. now apply perm_skip.
Qed.

(** [sorted] rearranges its argument. *)
Lemma sorted_perm (xs : list pystr) : Permutation xs (Str.sorted xs).
Proof.
  induction xs as [|x xs IH]; simpl; [constructor|].
  eapply perm_trans; [apply perm_skip, IH | apply insert_perm].
Qed.

Lemma sorted_In (x : pystr) (xs : list pystr) :
  In x (Str.sorted xs) <-> In x xs.
Proof.
  split; apply Permutation_in;
    [apply Permutation_sym|]; apply sorted_perm.
Qed.

Lemma sorted_nil (xs : list pystr) : Str.sorted xs = [] <-> xs = [].
Proof.
  split; intros H.
  - apply Permutation_nil. rewrite <- H. apply Permutation_sym, sorted_perm.
  - subst. reflexivity.
Qed.

End SortFacts.
(** ** The tokens that the extractor reads *)

Module TokenFacts.

Import Re ReSpec.

(** A pattern without groups leaves the groups as they are. *)
Lemma matches_caps_nogroup fl r p w s c p1 c1 :
  matches fl r p w s c p1 c1 -> Compile.has_group r = false -> c1 = c.
Proof.
  induction 1; simpl; intros Hg; try reflexivity.
  - apply orb_false_iff in Hg. destruct Hg as [H1 H2].
    rewrite (IHmatches2 H2). now apply IHmatches1.
  - apply orb_false_iff in Hg. now apply IHmatches.
  - apply orb_false_iff in Hg. now apply IHmatches.
  - simpl in IHmatches2. rewrite (IHmatches2 Hg). now apply IHmatches1.
  - discriminate.
Qed.

(** A pattern that starts with a character consumes something. *)
Lemma matches_chr_first fl cs r p w s c p1 c1 :
  matches fl (Seq (Chr cs) r) p w s c p1 c1 -> w <> [].
Proof.
  intros H. inversion H; subst.
  match goal with
  | Hc : matches _ (Chr _) _ _ _ _ _ _ |- _ => inversion Hc; subst
  end.
  discriminate.
Qed.

(** Where [re.search] finds [a(g)c], with no other group, group 1 is a
    text that [g] matches. *)
Lemma search_group1 fl a g c s m :
  Compile.has_group a = false ->
  Compile.has_group g = false ->
  Compile.has_group c = false ->
  re_search fl (Seq a (Seq (Group 1 g) c)) s = Some m ->
  exists p rest p1 c1, matches fl g p (group m 1) rest [] p1 c1.
Proof.
  intros Ha Hg Hc H. unfold re_search in H.
  apply ReFacts.search_from_sound in H.
  destruct H as (pre & p0 & p1 & _ & Hm).
  unfold group. remember (m_caps m) as cm eqn:Hcm. clear Hcm.
  remember (m_text m) as tm eqn:Htm. clear Htm.
  remember (m_rest m) as rm eqn:Hrm. clear Hrm.
  inversion Hm as [| |? ? ? w1 w23 ? ? pa ca ? ? H1 H2| | | | | | | |];
    subst; clear Hm.
  apply matches_caps_nogroup in H1; [subst ca | assumption].
  inversion H2 as [| |? ? ? w2 w3 ? ? pb cb ? ? H3 H4| | | | | | | |];
    subst; clear H2.
  pose proof (matches_caps_nogroup H4 Hc) as Hcb. subst cm.
  inversion H3 as [| | | | | | |? ? ? ? ? ? ? cg H5| | |]; subst; clear H3.
  simpl. eauto.
Qed.

(** A text matched by a literal prefix followed by anything is not empty. *)
Lemma matches_lit_prefix fl x l r p w s c p1 c1 :
  matches fl (Seq (Seq (Chr x) l) r) p w s c p1 c1 -> w <> [].
Proof.
  intros H.
  inversion H as [| |? ? ? w1 w2 ? ? ? ? ? ? H1 H2| | | | | | | |]; subst.
  apply matches_chr_first in H1. destruct w1; [congruence | discriminate].
Qed.

(** The instruction token of a line is not empty. *)
Lemma inst_token_nonempty (s : pystr) (m : Match) :
  re_search no_flags Fdl.inst_token_re s = Some m -> group m 1 <> [].
Proof.
  intros H.
  change Fdl.inst_token_re
    with (Seq (chr "`")
              (Seq (Group 1 (Seq (lit "inst-") (plus idchar)))
                   (seq [chr "`"; Star ws; Eol]))) in H.
  apply search_group1 in H; try reflexivity.
  destruct H as (p & rest & p1 & c1 & Hm).
  change (lit "inst-") with
    (Seq (Chr (CChar 105%N)) (lit_chars (py "nst-"))) in Hm.
  now apply matches_lit_prefix in Hm.
Qed.

(** The scope token of a line is not empty. *)
Lemma scope_token_nonempty (s : pystr) (m : Match) :
  re_search no_flags Fdl.scope_token_re s = Some m -> group m 1 <> [].
Proof.
  intros H.
  change Fdl.scope_token_re
    with (Seq (chr "`")
              (Seq (Group 1 (Seq (lit "fdd-") (plus idchar))) (chr "`")))
    in H.
  apply search_group1 in H; try reflexivity.
  destruct H as (p & rest & p1 & c1 & Hm).
  change (lit "fdd-") with
    (Seq (Chr (CChar 102%N)) (lit_chars (py "dd-"))) in Hm.
  now apply matches_lit_prefix in Hm.
Qed.

End TokenFacts.
(** ** The scoped-instruction extractor *)

Module ExtractFacts.

Import Re Fdl FdlSpec.

Section WithConstants.

Variable K : Constants.

Lemma extend_nil (e : scope_entry) : extend e [] = e.
Proof.
  destruct e as [i c]. unfold extend. simpl. now rewrite !app_nil_r.
Qed.

Lemma extend_extend (e : scope_entry) (xs ys : list pystr) :
  extend (extend e xs) ys = extend e (xs ++ ys).
Proof.
  unfold extend. simpl. now rewrite map_app, !app_assoc.
Qed.

Lemma extend_empty (xs : list pystr) :
  extend {| instructions := []; completed := [] |} xs = entry_of xs.
Proof. reflexivity. Qed.

Lemma set_set {V : Type} (k : pystr) (v1 v2 : V) (d : Dict.t V) :
  Dict.set k v2 (Dict.set k v1 d) = Dict.set k v2 d.
Proof.
  induction d as [|[k1 w] d IH]; simpl.
  - now rewrite pystr_eqb_refl.
  - destruct (pystr_eqb k k1) eqn:E; simpl; rewrite E; [reflexivity|].
    now rewrite IH.
Qed.

(** The first [if] of the loop body, by the declaration of the line. *)
Lemma enter_scope_eq (result : design_fdl) (cur : option pystr)
      (line : pystr) :
  enter_scope K (result, cur) line
  = (match declared_scope K line with
     | Some s =>
       if Dict.contains s result then result
       else Dict.set s {| instructions := []; completed := [] |} result
     | None => result
     end,
     scope_after K cur line).
Proof.
  unfold enter_scope, scope_after, declared_scope.
  destruct (p_match (FDL_SCOPE_ID_RE K) line); [|reflexivity].
  destruct (re_search no_flags scope_token_re line); [|reflexivity].
  now destruct (Dict.contains (group m0 1) result).
Qed.

Lemma declared_scope_nonempty (line s : pystr) :
  declared_scope K line = Some s -> s <> [].
Proof.
  unfold declared_scope.
  destruct (p_match (FDL_SCOPE_ID_RE K) line); [|discriminate].
  destruct (re_search no_flags scope_token_re line) eqn:E; [|discriminate].
  intros H. injection H as <-. now apply TokenFacts.scope_token_nonempty in E.
Qed.

Lemma checked_instruction_nonempty (line i : pystr) :
  checked_instruction K line = Some i -> i <> [].
Proof.
  unfold checked_instruction.
  destruct (p_match (FDL_STEP_LINE_RE K) line); [|discriminate].
  destruct (re_match flag_I checked_re line); [|discriminate].
  destruct (re_search no_flags inst_token_re (Str.strip line)) eqn:E;
    [|discriminate].
  intros H. injection H as <-. now apply TokenFacts.inst_token_nonempty in E.
Qed.

Lemma enter_scope_ok (st : extract_state) (line : pystr) :
  state_ok st -> state_ok (enter_scope K st line).
Proof.
  destruct st as [result cur]. rewrite enter_scope_eq.
  unfold state_ok, scope_after. simpl.
  destruct (declared_scope K line) as [s|] eqn:E.
  - intros _. split; [|now apply declared_scope_nonempty in E].
    destruct (Dict.contains s result) eqn:Ec; [assumption|].
    now rewrite DictFacts.contains_set, pystr_eqb_refl.
  - auto.
Qed.

(** The entry of [S] after the first [if]. *)
Lemma enter_scope_get (result : design_fdl) (cur : option pystr)
      (line S : pystr) :
  Dict.get S (fst (enter_scope K (result, cur) line))
  = match Dict.get S result with
    | Some e => Some e
    | None =>
      match declared_scope K line with
      | Some s =>
        if pystr_eqb s S then Some {| instructions := []; completed := [] |}
        else None
      | None => None
      end
    end.
Proof.
  rewrite enter_scope_eq. simpl.
  destruct (declared_scope K line) as [s|]; [|now destruct (Dict.get S result)].
  unfold Dict.contains.
  destruct (Dict.get s result) as [e|] eqn:Es.
  - destruct (Dict.get S result) eqn:ES; [reflexivity|].
    destruct (pystr_eqb s S) eqn:E; [|reflexivity].
    apply pystr_eqb_eq in E. congruence.
  - rewrite DictFacts.get_set.
    destruct (pystr_eqb S s) eqn:E.
    + apply pystr_eqb_eq in E. subst S. now rewrite Es, pystr_eqb_refl.
    + destruct (Dict.get S result); [reflexivity|].
      destruct (pystr_eqb s S) eqn:E'; [|reflexivity].
      apply pystr_eqb_eq in E'. subst. now rewrite pystr_eqb_refl in E.
Qed.

(** The two [append] statements never raise where the scope has an entry. *)
Lemma record_instruction_eq (sid inst : pystr) (result : design_fdl)
      (e : scope_entry) :
  Dict.get sid result = Some e ->
  record_instruction sid inst result
  = Ok (Dict.set sid (extend e [inst]) result).
Proof.
  intros H. unfold record_instruction, Dict.getitem. rewrite H. simpl.
  rewrite DictFacts.get_set_same. simpl. now rewrite set_set.
Qed.

(** The second [if] of the loop body, by the instruction of the line. *)
Lemma record_step_eq (result : design_fdl) (cur : option pystr)
      (line : pystr) :
  state_ok (result, cur) ->
  record_step K (result, cur) line
  = Ok (match cur, checked_instruction K line with
        | Some s, Some inst =>
          match Dict.get s result with
          | Some e => Dict.set s (extend e [inst]) result
          | None => result
          end
        | _, _ => result
        end, cur).
Proof.
  unfold state_ok, record_step, checked_instruction. simpl.
  destruct cur as [s|]; [|reflexivity].
  intros [Hc Hs].
  destruct s as [|x s]; [congruence|]. simpl.
  destruct (p_match (FDL_STEP_LINE_RE K) line); [|reflexivity].
  destruct (re_match flag_I checked_re line); [|reflexivity].
  destruct (re_search no_flags inst_token_re (Str.strip line)); [|reflexivity].
  unfold Dict.contains in Hc.
  destruct (Dict.get (x :: s) result) as [e|] eqn:E; [|discriminate].
  now erewrite record_instruction_eq by eassumption.
Qed.

(** The entry of [S] after the second [if]. *)
Lemma record_step_get (result : design_fdl) (cur : option pystr)
      (line : pystr) :
  state_ok (result, cur) ->
  exists result1,
    record_step K (result, cur) line = Ok (result1, cur)
    /\ state_ok (result1, cur)
    /\ (forall S,
          Dict.get S result1
          = option_map (fun e => extend e (contribution K S (cur, line)))
                       (Dict.get S result))
    /\ (forall sid e,
          In (sid, e) result1 ->
          In (sid, e) result
          \/ exists e0 inst,
              In (sid, e0) result /\ checked_instruction K line = Some inst
              /\ e = extend e0 [inst]).
Proof.
  intros Hok. rewrite (record_step_eq _ _ line Hok).
  eexists; split; [reflexivity|].
  assert (Hid : forall S : pystr,
             Dict.get S result
             = option_map (fun e => extend e []) (Dict.get S result)).
  { intros S. destruct (Dict.get S result); simpl; [|reflexivity].
    now rewrite extend_nil. }
  unfold contribution. simpl.
  destruct cur as [s|]; [|now auto].
  destruct (checked_instruction K line) as [inst|] eqn:Ei.
  2:{ split; [assumption|]. split; [|now left].
      intros S. destruct (pystr_eqb s S); apply Hid. }
  destruct Hok as [Hc Hs]. simpl in Hc, Hs. unfold Dict.contains in Hc.
  destruct (Dict.get s result) as [e|] eqn:Es; [|discriminate].
  split; [|split].
  - split; [|assumption]. simpl.
    now rewrite DictFacts.contains_set, pystr_eqb_refl.
  - intros S. rewrite DictFacts.get_set, (pystr_eqb_sym s S).
    destruct (pystr_eqb S s) eqn:E; [|apply Hid].
    apply pystr_eqb_eq in E. subst S. now rewrite Es.
  - intros sid e1 Hin. apply DictFacts.In_set in Hin.
    destruct Hin as [[-> ->]|Hin]; [|now left].
    right. exists e, inst. repeat split. now apply DictFacts.get_In.
Qed.

(** One turn of the loop. *)
Lemma extract_step_get (result : design_fdl) (cur : option pystr)
      (line : pystr) :
  state_ok (result, cur) ->
  exists result1,
    extract_step K (result, cur) line
    = Ok (result1, scope_after K cur line)
    /\ state_ok (result1, scope_after K cur line)
    /\ (forall S,
          Dict.get S result1
          = match Dict.get S result with
            | Some e =>
              Some (extend e (contribution K S (scope_after K cur line, line)))
            | None =>
              if declares K S [line]
              then Some (entry_of
                           (contribution K S (scope_after K cur line, line)))
              else None
            end)
    /\ (Forall entry_ok (map snd result) ->
        Forall entry_ok (map snd result1)).
Proof.
  intros Hok. unfold extract_step.
  pose proof (enter_scope_ok _ line Hok) as Hok1.
  pose proof (enter_scope_get result cur line) as Hget.
  rewrite enter_scope_eq in Hok1, Hget. rewrite enter_scope_eq.
  simpl in Hget.
  destruct (record_step_get _ _ line Hok1) as (r2 & Hr & Hok2 & Hg2 & Hin2).
  exists r2. split; [assumption|]. split; [assumption|]. split.
  - intros S. rewrite Hg2, Hget. simpl.
    destruct (Dict.get S result) as [e|]; [reflexivity|].
    destruct (declared_scope K line) as [s|]; [|reflexivity].
    rewrite orb_false_r.
    destruct (pystr_eqb s S); reflexivity.
  - rewrite !Forall_forall. intros Hall e He.
    apply in_map_iff in He. destruct He as ([sid e'] & <- & He). simpl.
    assert (Hall1 : forall sid0 e0,
               In (sid0, e0)
                  (match declared_scope K line with
                   | Some s =>
                     if Dict.contains s result then result
                     else Dict.set s {| instructions := []; completed := [] |}
                                   result
                   | None => result
                   end) -> entry_ok e0).
    { intros sid0 e0 H0.
      assert (Hold : In (sid0, e0) result -> entry_ok e0).
      { intros H1. apply Hall. apply in_map_iff. now exists (sid0, e0). }
      destruct (declared_scope K line) as [s|]; [|now apply Hold].
      destruct (Dict.contains s result); [now apply Hold|].
      apply DictFacts.In_set in H0. destruct H0 as [[_ ->]|H0].
      - split; [reflexivity | constructor].
      - now apply Hold. }
    apply Hin2 in He. destruct He as [He|(e0 & inst & He0 & Hi & ->)].
    + now apply (Hall1 sid).
    + apply Hall1 in He0. destruct He0 as [Hc Hf].
      unfold entry_ok, extend. simpl. split.
      * now rewrite Hc, map_app.
      * apply Forall_app. split; [assumption|].
        constructor; [|constructor].
        now apply checked_instruction_nonempty in Hi.
Qed.

Lemma steps_from_cons (cur : option pystr) (S line : pystr)
      (rest : list pystr) :
  steps_from K cur S (line :: rest)
  = contribution K S (scope_after K cur line, line)
    ++ steps_from K (scope_after K cur line) S rest.
Proof. reflexivity. Qed.

(** The whole loop: it returns, and the entry of each scope is the one
    it had, extended by the checked steps of the lines under that scope. *)
Lemma extract_lines_get (lines : list pystr) :
  forall (result : design_fdl) (cur : option pystr),
    state_ok (result, cur) ->
    exists result1 cur1,
      extract_lines K lines (result, cur) = Ok (result1, cur1)
      /\ (forall S,
            Dict.get S result1
            = match Dict.get S result with
              | Some e => Some (extend e (steps_from K cur S lines))
              | None =>
                if declares K S lines
                then Some (entry_of (steps_from K cur S lines))
                else None
              end)
      /\ (Forall entry_ok (map snd result) ->
          Forall entry_ok (map snd result1)).
Proof.
  induction lines as [|line rest IH]; intros result cur Hok.
  - exists result, cur. split; [reflexivity|]. split; [|auto].
    intros S. simpl. destruct (Dict.get S result); [|reflexivity].
    unfold steps_from. simpl. now rewrite extend_nil.
  - destruct (extract_step_get _ _ line Hok) as (r1 & Hstep & Hok1 & Hg1 & Hall1).
    destruct (IH r1 (scope_after K cur line) Hok1)
      as (r2 & c2 & Hrest & Hg2 & Hall2).
    exists r2, c2. split; [|split].
    + unfold extract_lines in *. simpl.
      unfold extract_step in Hstep. unfold extract_step at 1.
      rewrite Hstep. simpl. exact Hrest.
    + intros S. rewrite Hg2, Hg1, steps_from_cons.
      destruct (Dict.get S result) as [e|] eqn:ES.
      * now rewrite extend_extend.
      * change (declares K S (line :: rest))
          with (match declared_scope K line with
                | Some s => pystr_eqb s S
                | None => false
                end || declares K S rest).
        unfold declares at 1. simpl. rewrite orb_false_r.
        destruct (match declared_scope K line with
                  | Some s => pystr_eqb s S
                  | None => false
                  end) eqn:Ed; simpl.
        -- unfold entry_of, extend. simpl. now rewrite map_app.
        -- assert (Hc : contribution K S (scope_after K cur line, line) = []).
           { unfold contribution. simpl.
             destruct (scope_after K cur line) as [s|] eqn:Ec; [|reflexivity].
             destruct (pystr_eqb s S) eqn:E; [|reflexivity].
             apply pystr_eqb_eq in E. subst s.
             destruct Hok1 as [Hcont _]. simpl in Hcont.
             unfold Dict.contains in Hcont.
             rewrite Hg1, ES in Hcont. unfold declares in Hcont.
             simpl in Hcont. rewrite orb_false_r, Ed in Hcont.
             discriminate. }
           now rewrite Hc.
    + auto.
Qed.


(** Lines that declare no scope, read with no scope in force, leave the
    state as it is. *)
Lemma extract_lines_no_declaration (pre : list pystr) :
  no_declaration K pre = true ->
  forall result, extract_lines K pre (result, None) = Ok (result, None).
Proof.
  induction pre as [|line pre IH]; intros H result; [reflexivity|].
  simpl in H. apply andb_true_iff in H. destruct H as [Hl Hp].
  unfold extract_lines in *. simpl. unfold extract_step at 1.
  rewrite enter_scope_eq. unfold scope_after.
  destruct (declared_scope K line); [discriminate|].
  simpl. now apply IH.
Qed.

Lemma extract_lines_app (xs ys : list pystr) :
  forall st,
    extract_lines K (xs ++ ys) st
    = (st1 <- extract_lines K xs st ;; extract_lines K ys st1).
Proof.
  unfold extract_lines.
  induction xs as [|x xs IH]; intros st; [reflexivity|].
  simpl. destruct (extract_step K st x); simpl; [apply IH | reflexivity].
Qed.

(** The result of the function is the dict that the loop ends with. *)
Lemma extract_fdl_instructions_run (text : pystr) (d : design_fdl)
      (c : option pystr) :
  extract_lines K (Str.splitlines text) ([], None) = Ok (d, c) ->
  extract_fdl_instructions K text = Ok d.
Proof.
  intros H. unfold extract_fdl_instructions.
  match goal with
  | |- context [extract_lines K ?l ?st] =>
    assert (H1 : extract_lines K l st = Ok (d, c)) by exact H; rewrite H1
  end.
  reflexivity.
Qed.

(** The extractor on a text, scope by scope. *)
Lemma extract_fdl_instructions_get (text : pystr) :
  exists d,
    extract_fdl_instructions K text = Ok d
    /\ (forall S,
          Dict.get S d
          = if declares K S (Str.splitlines text)
            then Some (entry_of (steps_under K S (Str.splitlines text)))
            else None)
    /\ Forall entry_ok (map snd d).
Proof.
  destruct (extract_lines_get (Str.splitlines text) [] None I)
    as (d & c & Hrun & Hget & Hall).
  exists d. split; [now apply (extract_fdl_instructions_run _ Hrun)|].
  split; [|apply Hall; constructor].
  intros S. now rewrite Hget.
Qed.


(** C9. For every input text the extractor returns a result in which,
    in every scope entry, the completed list is the instructions list
    element for element, and no element of a completed list is falsy. *)
Theorem extract_fdl_instructions_completed (text : pystr) :
  exists d,
    extract_fdl_instructions K text = Ok d
    /\ forall sid e,
        In (sid, e) d ->
        completed e = map VStr (instructions e)
        /\ Forall (fun v => truthy v = true) (completed e).
Proof.
  destruct (extract_fdl_instructions_get text) as (d & Hrun & _ & Hall).
  exists d. split; [assumption|].
  intros sid e Hin. rewrite Forall_forall in Hall.
  destruct (Hall e) as [Hc Hne].
  { apply in_map_iff. now exists (sid, e). }
  split; [assumption|]. rewrite Hc.
  apply Forall_map. eapply Forall_impl; [|exact Hne].
  intros [|x i] Hi; [congruence | reflexivity].
Qed.

(** C10. Where the lines of the text before its first scope declaration
    are [pre], the extractor returns what it returns for the remaining
    lines alone: the entry of each scope holds the checked steps of the
    remaining lines only, no entry exists for a scope that they do not
    declare, and a text without any declaration gives the empty result. *)
Theorem extract_fdl_instructions_before_first_scope
        (text : pystr) (pre rest : list pystr) :
  Str.splitlines text = pre ++ rest ->
  no_declaration K pre = true ->
  exists d,
    extract_fdl_instructions K text = Ok d
    /\ extract_lines K rest ([], None) = extract_lines K (pre ++ rest) ([], None)
    /\ (forall S,
          Dict.get S d
          = if declares K S rest
            then Some (entry_of (steps_under K S rest))
            else None)
    /\ (rest = [] -> d = []).
Proof.
  intros Hsplit Hpre.
  assert (Heq : extract_lines K (pre ++ rest) ([], None)
                = extract_lines K rest ([], None)).
  { rewrite extract_lines_app.
    now rewrite (extract_lines_no_declaration pre Hpre). }
  destruct (extract_lines_get rest [] None I) as (d & c & Hrun & Hget & _).
  exists d. split.
  { apply extract_fdl_instructions_run with (c := c).
    rewrite Hsplit. etransitivity; [exact Heq | exact Hrun]. }
  split; [now rewrite Heq|]. split.
  - intros S. now rewrite Hget.
  - intros ->. simpl in Hrun. unfold extract_lines in Hrun. simpl in Hrun.
    congruence.
Qed.

End WithConstants.

(** The theorem above at a document whose first line is a checked step. *)
Lemma extract_fdl_instructions_before_first_scope_witness :
  exists d,
    extract_fdl_instructions SpecConstants.K Documents.feature_design = Ok d
    /\ extract_lines SpecConstants.K (map py Documents.scoped_lines) ([], None)
       = extract_lines SpecConstants.K
                       (map py Documents.early_lines
                            ++ map py Documents.scoped_lines) ([], None)
    /\ (forall S,
          Dict.get S d
          = if declares SpecConstants.K S (map py Documents.scoped_lines)
            then Some (entry_of (steps_under SpecConstants.K S
                                             (map py Documents.scoped_lines)))
            else None)
    /\ (map py Documents.scoped_lines = [] -> d = []).
Proof.
  apply (extract_fdl_instructions_before_first_scope
           SpecConstants.K Documents.feature_design
           (map py Documents.early_lines) (map py Documents.scoped_lines)).
  - vm_compute. reflexivity.
  - vm_compute. reflexivity.
Defined.

End ExtractFacts.
(** ** The scan of the code markers *)

Module ScanFacts.

Import Re Fdl ScanSpec.














End ScanFacts.
(** ** The completion check *)

Module CompletionFacts.

Import Re ReSpec Fdl FdlSpec.

(** Where [re.search] finds [ab(g)], with no other group, group 1 is a
    text that [g] matches. *)
Lemma search_final_group1 fl a b g s m :
  Compile.has_group a = false ->
  Compile.has_group b = false ->
  re_search fl (Seq a (Seq b (Group 1 g))) s = Some m ->
  exists p rest c0 p1 c1, matches fl g p (group m 1) rest c0 p1 c1.
Proof.
  intros Ha Hb H. unfold re_search in H.
  apply ReFacts.search_from_sound in H.
  destruct H as (pre & p0 & p1 & _ & Hm).
  unfold group. remember (m_caps m) as cm eqn:Hcm. clear Hcm.
  remember (m_text m) as tm eqn:Htm. clear Htm.
  remember (m_rest m) as rm eqn:Hrm. clear Hrm.
  inversion Hm as [| |? ? ? w1 w23 ? ? pa ca ? ? H1 H2| | | | | | | |];
    subst; clear Hm.
  inversion H2 as [| |? ? ? w2 w3 ? ? pb cb ? ? H3 H4| | | | | | | |];
    subst; clear H2.
  inversion H4 as [| | | | | | |? ? ? ? ? ? ? cg H5| | |]; subst; clear H4.
  simpl. eauto 10.
Qed.

(** A pattern that starts with one given character matches a text that
    starts with it. *)
Lemma matches_char_head x r p w s c p1 c1 :
  matches no_flags (Seq (Chr (CChar x)) r) p w s c p1 c1 ->
  exists w1, w = x :: w1.
Proof.
  intros H.
  inversion H as [| |? ? ? wa wb ? ? ? ? ? ? H1 H2| | | | | | | |]; subst.
  inversion H1 as [|? y ? ? ? Hy| | | | | | | | |]; subst.
  unfold cmatch in Hy. simpl in Hy. rewrite orb_false_r in Hy.
  apply N.eqb_eq in Hy. subst. simpl. eauto.
Qed.

Lemma lstrip_last (x : N) (l : pystr) :
  Unicode.isspace x = false -> exists l1, Str.lstrip (l ++ [x]) = l1 ++ [x].
Proof.
  intros Hx. induction l as [|c l IH]; simpl.
  - rewrite Hx. now exists [].
  - destruct (Unicode.isspace c); [assumption|]. now exists (c :: l).
Qed.

(** Stripping keeps a first character that is no white space. *)
Lemma strip_head (x : N) (w : pystr) :
  Unicode.isspace x = false -> exists w1, Str.strip (x :: w) = x :: w1.
Proof.
  intros Hx. unfold Str.strip, Str.rstrip. simpl Str.lstrip. rewrite Hx.
  simpl rev. destruct (@lstrip_last x (rev w) Hx) as [l1 ->].
  rewrite rev_app_distr. simpl. eauto.
Qed.

(** The status that the function reads starts with the symbol of the
    label; it is never the bare word [IMPLEMENTED]. *)
Lemma status_not_implemented (changes_text : pystr) (m : Match) :
  re_search no_flags status_re changes_text = Some m ->
  pystr_eqb (Str.strip (group m 1)) (py "IMPLEMENTED") = false
  /\ str_truthy (Str.strip (group m 1)) = true.
Proof.
  intros H.
  change status_re
    with (Seq (lit "**Status**:")
              (Seq (Star ws)
                   (Group 1
                      (Alt (Seq (Chr (CChar 9989))
                                (seq [Star ws; lit "COMPLETED"]))
                      (Alt (Seq (Chr (CChar 128260))
                                (seq [Star ws; lit "IN_PROGRESS"]))
                      (Alt (Seq (Chr (CChar 9203))
                                (seq [Star ws; lit "NOT_STARTED"]))
                           (Seq (Chr (CChar 10024))
                                (seq [Star ws; lit "IMPLEMENTED"])))))))) in H.
  apply search_final_group1 in H; try reflexivity.
  destruct H as (p & rest & c0 & p1 & c1 & Hm).
  assert (Hhead : exists x w1,
             group m 1 = x :: w1
             /\ Unicode.isspace x = false /\ x <> 73%N).
  { inversion Hm as [| | |? ? ? ? ? ? ? ? H1|? ? ? ? ? ? ? ? H1| | | | | |];
      subst; clear Hm.
    { apply matches_char_head in H1. destruct H1 as [w1 ->].
      eexists _, _. split; [reflexivity|]. split; [reflexivity | discriminate]. }
    inversion H1 as [| | |? ? ? ? ? ? ? ? H2|? ? ? ? ? ? ? ? H2| | | | | |];
      subst; clear H1.
    { apply matches_char_head in H2. destruct H2 as [w1 ->].
      eexists _, _. split; [reflexivity|]. split; [reflexivity | discriminate]. }
    inversion H2 as [| | |? ? ? ? ? ? ? ? H3|? ? ? ? ? ? ? ? H3| | | | | |];
      subst; clear H2.
    { apply matches_char_head in H3. destruct H3 as [w1 ->].
      eexists _, _. split; [reflexivity|]. split; [reflexivity | discriminate]. }
    apply matches_char_head in H3. destruct H3 as [w1 ->].
    eexists _, _. split; [reflexivity|]. split; [reflexivity | discriminate]. }
  destruct Hhead as (x & w1 & -> & Hsp & Hx).
  destruct (@strip_head x w1 Hsp) as [w2 ->]. split; [|reflexivity].
  apply pystr_eqb_neq.
  change (py "IMPLEMENTED") with (73%N :: py "MPLEMENTED").
  congruence.
Qed.

(** The function never reaches the unbound name: whatever the status,
    it runs the check of the [completed] lists. *)
Lemma validate_fdl_completion_eq (changes_text : pystr) (d : design_fdl) :
  validate_fdl_completion changes_text d
  = match re_search no_flags status_re changes_text with
    | None => Ok []
    | Some _ =>
      uncompleted <- uncompleted_instructions d ;;
      Ok (if nonempty uncompleted
          then [premature_completion uncompleted] else [])
    end.
Proof.
  unfold validate_fdl_completion.
  destruct (re_search no_flags status_re changes_text) as [m|] eqn:E;
    [|reflexivity].
  destruct (@status_not_implemented changes_text m E) as [H1 H2].
  now rewrite H1, H2.
Qed.

Lemma enumerate_from_In {A : Type} (xs : list A) :
  forall start i x,
    In (i, x) (enumerate_from start xs) ->
    start <= i /\ nth_error xs (i - start) = Some x.
Proof.
  induction xs as [|y xs IH]; intros start i x Hin; [contradiction|].
  simpl in Hin. destruct Hin as [Heq|Hin].
  - injection Heq as <- <-. split; [lia|]. now rewrite Nat.sub_diag.
  - apply IH in Hin. destruct Hin as [Hle Hn]. split; [lia|].
    replace (i - start) with (S (i - S start)) by lia. exact Hn.
Qed.

(** An entry whose lists agree has no instruction that is not done. *)
Lemma uncompleted_of_ok (scope_id : pystr) (data : scope_entry)
      (items : list (nat * pystr)) :
  (forall i inst, In (i, inst) items ->
                  exists c, nth_error (completed data) i = Some c
                            /\ truthy c = true) ->
  uncompleted_of scope_id data items = Ok [].
Proof.
  induction items as [|[i inst] rest IH]; intros H; [reflexivity|].
  simpl. destruct (H i inst (or_introl eq_refl)) as (c & -> & Hc).
  rewrite IH by (intros j x Hj; apply (H j x); now right).
  simpl. now rewrite Hc.
Qed.

Lemma uncompleted_instructions_ok (d : design_fdl) :
  Forall entry_ok (map snd d) -> uncompleted_instructions d = Ok [].
Proof.
  induction d as [|[sid e] d IH]; intros H; [reflexivity|].
  simpl in H. inversion H as [|? ? [Hc Hne] Hrest]; subst.
  simpl. rewrite uncompleted_of_ok, (IH Hrest); [reflexivity|].
  intros i inst Hin. apply enumerate_from_In in Hin.
  destruct Hin as [_ Hn]. rewrite Nat.sub_0_r in Hn.
  exists (VStr inst). split.
  - rewrite Hc. now apply map_nth_error.
  - rewrite Forall_forall in Hne. apply nth_error_In in Hn.
    apply Hne in Hn. now destruct inst.
Qed.

(** C2. The completion check does not look at the code and does not
    tell the statuses apart: whatever status the change log shows,
    IMPLEMENTED included, it runs the check of the completed lists; and
    for the instructions read from any feature document that check finds
    nothing, so the function returns no error, IMPLEMENTED or not, with or
    without markers in the code. *)
Theorem validate_fdl_completion_status_blind (K : Constants)
        (design_text changes_text : pystr) :
  (forall d,
      validate_fdl_completion changes_text d
      = match re_search no_flags status_re changes_text with
        | None => Ok []
        | Some _ =>
          uncompleted <- uncompleted_instructions d ;;
          Ok (if nonempty uncompleted
              then [premature_completion uncompleted] else [])
        end)
  /\ (d <- extract_fdl_instructions K design_text ;;
      validate_fdl_completion changes_text d) = Ok [].
Proof.
  split; [apply validate_fdl_completion_eq|].
  destruct (ExtractFacts.extract_fdl_instructions_get K design_text)
    as (d & -> & _ & Hall).
  simpl. rewrite validate_fdl_completion_eq.
  destruct (re_search no_flags status_re changes_text); [|reflexivity].
  now rewrite (@uncompleted_instructions_ok d Hall).
Qed.

(** The check at a change log that shows IMPLEMENTED, for a feature whose
    checked instruction has no marker in the code: the tree has no file,
    the scan finds nothing, and the check reports nothing. *)
Lemma validate_fdl_completion_implemented_example :
  validate_fdl_completion Documents.implemented_changes Documents.login_fdl
  = Ok []
  /\ extract_inst_tags_from_code (Dir true []) (Some []) = [].
Proof. split; vm_compute; reflexivity. Qed.

End CompletionFacts.
(** ** The placeholder scan *)

Module PlaceholderFacts.

Import Utils PlaceholderSpec.

Section WithConstants.

Variable K : Constants.




End WithConstants.


(** The line of the spec, with no space around it, gives one hit at its
    line number. *)
Lemma find_placeholders_todo :
  find_placeholders SpecConstants.K Documents.todo_text_trimmed
  = [placeholder_hit 2 (py "- TODO: finish this")].
Proof. vm_compute. reflexivity. Qed.

End PlaceholderFacts.
(** ** The generic section check *)

Module SectionFacts.

Import Common SectionSpec.

Lemma list_eqb_eq (a b : list pystr) : list_eqb a b = true <-> a = b.
Proof.
  unfold list_eqb.
  destruct (list_eq_dec (list_eq_dec N.eq_dec) a b); split; congruence.
Qed.

Lemma list_eqb_neq (a b : list pystr) : list_eqb a b = false <-> a <> b.
Proof.
  unfold list_eqb.
  destruct (list_eq_dec (list_eq_dec N.eq_dec) a b); split; congruence.
Qed.

Lemma filter_contains_restrict {V : Type} (d : Dict.t V)
      (observed : list pystr) :
  filter (fun sid => Dict.contains sid d) observed
  = restrict (Dict.keys d) observed.
Proof.
  unfold restrict. apply filter_ext. intros sid.
  apply DictFacts.contains_keys.
Qed.

Section WithConstants.

Variable K : Constants.
Variable E : Env.

(** The errors of the function, by the two checks that make them. *)
Lemma validate_generic_sections_errors (artifact_text : pystr)
      (requirements_path : Path.t) :
  let required_sections := parse_required_sections E requirements_path in
  let required := Dict.keys required_sections in
  let found :=
      restrict required (Utils.find_present_section_ids K artifact_text) in
  nonempty required_sections = true ->
  exists dups,
    errors (validate_generic_sections K E artifact_text requirements_path)
    = dups ++ (if list_eqb found required then []
               else [order_error required found])
    /\ forall e, In e dups -> vfield "message" e <> Some order_message.
Proof.
  intros required_sections required found Hne.
  unfold validate_generic_sections. fold required_sections.
  rewrite Hne. simpl negb. cbv iota.
  rewrite filter_contains_restrict. fold required. fold found.
  set (dup_sids := duplicate_ids
                     (Utils.find_present_section_ids K artifact_text)).
  destruct (nonempty dup_sids).
  - eexists. split.
    + destruct (list_eqb found required); simpl;
        [rewrite app_nil_r|]; reflexivity.
    + intros e [<-|[]]. unfold order_message. simpl.
      intros H. injection H as H. vm_compute in H. discriminate H.
  - exists []. split.
    + destruct (list_eqb found required); reflexivity.
    + intros e [].
Qed.

(** C4. For every document and every required ordering, the errors of
    the section check hold the order-mismatch error exactly when the
    observed section codes restricted to the required ones differ from
    the required order; its found_order field is that restricted
    sequence; and a permutation of the required order other than the
    order itself is reported. *)
Theorem validate_generic_sections_order (artifact_text : pystr)
        (requirements_path : Path.t) :
  let r := validate_generic_sections K E artifact_text requirements_path in
  let required :=
      Dict.keys (parse_required_sections E requirements_path) in
  let found :=
      restrict required (Utils.find_present_section_ids K artifact_text) in
  ((exists e, In e (errors r) /\ vfield "message" e = Some order_message)
   <-> found <> required)
  /\ (forall e,
         In e (errors r) -> vfield "message" e = Some order_message ->
         e = order_error required found
         /\ vfield "found_order" e = Some (vstrs found)
         /\ vfield "required_order" e = Some (vstrs required))
  /\ (Permutation found required -> found <> required ->
      In (order_error required found) (errors r)).
Proof.
  intros r required found.
  destruct (nonempty (parse_required_sections E requirements_path)) eqn:Hne.
  - destruct (validate_generic_sections_errors artifact_text
                requirements_path Hne) as (dups & Herr & Hdups).
    fold required in Herr. fold found in Herr. fold r in Herr.
    assert (Hall : forall e,
               In e (errors r) -> vfield "message" e = Some order_message ->
               list_eqb found required = false
               /\ e = order_error required found).
    { intros e Hin Hmsg. rewrite Herr in Hin. apply in_app_or in Hin.
      destruct Hin as [Hin|Hin]; [now apply Hdups in Hin|].
      destruct (list_eqb found required); [contradiction|].
      destruct Hin as [<-|[]]. auto. }
    assert (Hin : found <> required ->
                  In (order_error required found) (errors r)).
    { intros Hd. apply list_eqb_neq in Hd. rewrite Herr, Hd.
      apply in_or_app. right. now left. }
    split; [|split].
    + split.
      * intros (e & He & Hmsg). apply list_eqb_neq. now apply (Hall e).
      * intros Hd. exists (order_error required found).
        split; [now apply Hin | reflexivity].
    + intros e He Hmsg. destruct (Hall e He Hmsg) as [_ ->].
      repeat split.
    + intros _. exact Hin.
  - assert (Hreq : parse_required_sections E requirements_path = []).
    { now destruct (parse_required_sections E requirements_path). }
    assert (Hfound : found = required).
    { unfold found, required. rewrite Hreq. unfold restrict. simpl.
      induction (Utils.find_present_section_ids K artifact_text);
        [reflexivity | assumption]. }
    assert (Herr : forall e, In e (errors r) ->
                             vfield "message" e <> Some order_message).
    { unfold r, validate_generic_sections. rewrite Hne. simpl.
      intros e [<-|[]]. unfold order_message. simpl.
      intros H. injection H as H. vm_compute in H. discriminate H. }
    split; [|split].
    + split; [|congruence].
      intros (e & He & Hmsg). now apply Herr in He.
    + intros e He Hmsg. now apply Herr in He.
    + congruence.
Qed.

End WithConstants.

End SectionFacts.
(** ** All matches of a pattern, and the texts between backticks *)

Module FinditerFacts.

Import Re ReSpec.

(** Every match that [re.finditer] returns is a match of the pattern at
    some position of the text. *)
Lemma finditer_from_sound fl r : forall fuel start p s m,
  In m (finditer_from fl r fuel start p s) ->
  exists pre p0 p1,
    s = pre ++ m_text m ++ m_rest m
    /\ matches fl r p0 (m_text m) (m_rest m) [] p1 (m_caps m).
Proof.
  induction fuel as [|f IH]; intros start p s m Hin; [contradiction|].
  simpl in Hin.
  destruct (search_from fl r start p s) as [m0|] eqn:E; [|contradiction].
  pose proof (@ReFacts.search_from_sound fl r s start p m0 E) as Hs.
  destruct Hs as (pre & p0 & p1 & Hs & Hm).
  destruct (m_text m0) as [|x w] eqn:Et.
  - destruct (m_rest m0) as [|c s1] eqn:Er.
    + destruct Hin as [<-|[]]. rewrite Et, Er. eauto.
    + destruct Hin as [<-|Hin]; [rewrite Et, Er; eauto|].
      apply IH in Hin. destruct Hin as (pre' & q0 & q1 & Hs' & Hm').
      exists (pre ++ c :: pre'), q0, q1. split; [|assumption].
      rewrite Hs. simpl. rewrite Hs'. now rewrite <- app_assoc.
  - destruct Hin as [<-|Hin]; [rewrite Et; eauto|].
    apply IH in Hin. destruct Hin as (pre' & q0 & q1 & Hs' & Hm').
    exists (pre ++ (x :: w) ++ pre'), q0, q1. split; [|assumption].
    rewrite Hs, Hs'. now rewrite <- !app_assoc.
Qed.

Lemma finditer_sound fl r s m :
  In m (re_finditer fl r s) ->
  exists pre p0 p1,
    s = pre ++ m_text m ++ m_rest m
    /\ matches fl r p0 (m_text m) (m_rest m) [] p1 (m_caps m).
Proof. apply finditer_from_sound. Qed.

(** A match of [a(g)c], with no other group: the text is that of [a],
    of [g] and of [c] in a row, and group 1 is the text of [g]. *)
Lemma matches_group1 fl a g c p w s p1 c1 :
  Compile.has_group a = false ->
  Compile.has_group g = false ->
  Compile.has_group c = false ->
  matches fl (Seq a (Seq (Group 1 g) c)) p w s [] p1 c1 ->
  exists wa wg wc pa pg,
    w = wa ++ wg ++ wc
    /\ cap_get 1 c1 = Some wg
    /\ matches fl a p wa (wg ++ wc ++ s) [] pa []
    /\ matches fl g pa wg (wc ++ s) [] pg []
    /\ matches fl c pg wc s [(1, wg)] p1 [(1, wg)].
Proof.
  intros Ha Hg Hc Hm.
  inversion Hm as [| |? ? ? wa w23 ? ? pa ca ? ? H1 H2| | | | | | | |];
    subst; clear Hm.
  pose proof (TokenFacts.matches_caps_nogroup H1 Ha) as ->.
  inversion H2 as [| |? ? ? wg wc ? ? pg cg ? ? H3 H4| | | | | | | |];
    subst; clear H2.
  pose proof (TokenFacts.matches_caps_nogroup H4 Hc) as ->.
  inversion H3 as [| | | | | | |? ? ? ? ? ? ? c0 H5| | |]; subst; clear H3.
  pose proof (TokenFacts.matches_caps_nogroup H5 Hg) as ->.
  exists wa, wg, wc, pa, pg. rewrite <- app_assoc in H1.
  repeat split; assumption || reflexivity.
Qed.

Lemma matches_one_char fl x p w s c p1 c1 :
  matches fl (Chr (CChar x)) p w s c p1 c1 ->
  ignorecase fl = false -> w = [x].
Proof.
  intros H Hfl. inversion H as [|? y ? ? ? Hy| | | | | | | | |]; subst.
  unfold cmatch in Hy. rewrite Hfl in Hy. simpl in Hy.
  rewrite orb_false_r in Hy. apply N.eqb_eq in Hy. now subst.
Qed.

End FinditerFacts.

Module StrFacts.

Lemma startswith_app (p s : pystr) : Str.startswith p (p ++ s) = true.
Proof.
  induction p as [|a p IH]; simpl; [now destruct s|].
  now rewrite N.eqb_refl, IH.
Qed.

Lemma startswith_spec (p s : pystr) :
  Str.startswith p s = true <-> exists t, s = p ++ t.
Proof.
  split.
  - revert s. induction p as [|a p IH]; intros s H.
    + now exists s.
    + destruct s as [|b s]; [discriminate|]. simpl in H.
      apply andb_true_iff in H. destruct H as [Hab H].
      apply N.eqb_eq in Hab. subst b.
      destruct (IH s H) as [t ->]. now exists t.
  - intros [t ->]. apply startswith_app.
Qed.

(** [p in s] holds exactly when [s] has [p] somewhere inside. *)
Lemma contains_spec (p s : pystr) :
  Str.contains p s = true <-> exists pre post, s = pre ++ p ++ post.
Proof.
  unfold Str.contains. split.
  - induction s as [|c s IH]; simpl.
    + destruct (Str.startswith p []) eqn:E; [|discriminate].
      intros _. apply startswith_spec in E. destruct E as [t E].
      exists [], t. exact E.
    + destruct (Str.startswith p (c :: s)) eqn:E.
      * intros _. apply startswith_spec in E. destruct E as [t E].
        exists [], t. exact E.
      * destruct (Str.find p s) as [i|]; [|discriminate].
        intros _. destruct (IH eq_refl) as (pre & post & ->).
        now exists (c :: pre), post.
  - intros (pre & post & ->). induction pre as [|c pre IH]; simpl.
    + destruct (p ++ post) as [|x t] eqn:E; simpl.
      * destruct p; [reflexivity | discriminate].
      * rewrite <- E, startswith_app. reflexivity.
    + destruct (Str.startswith p (c :: pre ++ p ++ post)); [reflexivity|].
      destruct (Str.find p (pre ++ p ++ post)); [reflexivity | discriminate].
Qed.

End StrFacts.
(** ** What the scan records for an instruction *)

Module MarkerFacts.

Import Re Fdl ScanSpec MarkerSpec.

Lemma keys_set {V : Type} (k : pystr) (v : V) (d : Dict.t V) :
  Dict.keys (Dict.set k v d)
  = if Dict.contains k d then Dict.keys d else Dict.keys d ++ [k].
Proof.
  unfold Dict.contains. induction d as [|[k1 v1] d IH]; [reflexivity|].
  simpl. destruct (pystr_eqb k k1) eqn:E; simpl.
  - apply pystr_eqb_eq in E. now subst.
  - rewrite IH. now destruct (Dict.get k d).
Qed.

Lemma keys_set_NoDup {V : Type} (k : pystr) (v : V) (d : Dict.t V) :
  NoDup (Dict.keys d) -> NoDup (Dict.keys (Dict.set k v d)).
Proof.
  intros H. rewrite keys_set. destruct (Dict.contains k d) eqn:E; [assumption|].
  rewrite DictFacts.contains_keys in E. apply mem_not_In in E.
  apply NoDup_app; [assumption | repeat constructor; intros [] |].
  intros x Hx [<-|[]]. contradiction.
Qed.

(** With no key twice, the pairs of a dict are what [get] returns. *)
Lemma In_get {V : Type} (k : pystr) (v : V) (d : Dict.t V) :
  NoDup (Dict.keys d) -> In (k, v) d -> Dict.get k d = Some v.
Proof.
  induction d as [|[k1 v1] d IH]; intros Hnd Hin; [contradiction|].
  simpl in Hnd. inversion Hnd as [|? ? Hk1 Hd]; subst.
  simpl. destruct Hin as [Heq|Hin].
  - injection Heq as -> ->. now rewrite pystr_eqb_refl.
  - destruct (pystr_eqb k k1) eqn:E; [|now apply IH].
    apply pystr_eqb_eq in E. subst k1. exfalso. apply Hk1.
    apply in_map_iff. now exists (k, v).
Qed.













Lemma marker_on_of (kind : marker_kind) (inst_id line : pystr) :
  marker_on kind inst_id line = true
  <-> exists s, marker_of kind line = Some (s, inst_id).
Proof.
  unfold marker_on, marker_of.
  destruct (re_search no_flags (pattern_of kind) line) as [m|].
  - rewrite pystr_eqb_eq. split.
    + intros <-. eauto.
    + intros [s H]. now injection H.
  - split; [discriminate | intros [s H]; discriminate].
Qed.





End MarkerFacts.
(** ** The coverage check and the code checks *)

Module FdlCheckFacts.

Import Re ReSpec Fdl ScanSpec FdlChecks.

(** A literal matches its own text and nothing else. *)
Lemma matches_lit_chars (l : pystr) :
  forall p w s c p1 c1,
    l <> [] ->
    matches no_flags (lit_chars l) p w s c p1 c1 -> w = l.
Proof.
  induction l as [|x l IH]; intros p w s c p1 c1 Hne H; [congruence|].
  destruct l as [|y l].
  - simpl in H. now apply FinditerFacts.matches_one_char in H.
  - change (lit_chars (x :: y :: l))
      with (Seq (Chr (CChar x)) (lit_chars (y :: l))) in H.
    inversion H as [| |? ? ? w1 w2 ? ? ? ? ? ? H1 H2| | | | | | | |]; subst.
    apply FinditerFacts.matches_one_char in H1; [|reflexivity].
    apply IH in H2; [|discriminate]. now subst.
Qed.

(** A scope counted as referenced stands in the change log between
    backticks, and it begins with [fdd-]. *)
Lemma scope_reference_in_text (text sid : pystr) :
  In sid (extract_scope_references_from_changes text) ->
  Str.contains (py "`" ++ sid ++ py "`") text = true
  /\ Str.startswith (py "fdd-") sid = true.
Proof.
  unfold extract_scope_references_from_changes, re_findall1.
  rewrite SetFacts.of_list_In, in_map_iff.
  intros (m & <- & Hm). apply FinditerFacts.finditer_sound in Hm.
  destruct Hm as (pre & p0 & p1 & Hs & Hm).
  change scope_ref_re
    with (Seq (Chr (CChar 96))
              (Seq (Group 1
                      (Seq (lit "fdd-")
                           (seq [plus idchar; chr "-";
                                 alt [lit "flow"; lit "algo"; lit "state";
                                      lit "test"];
                                 chr "-"; plus idchar])))
                   (Chr (CChar 96)))) in Hm.
  apply FinditerFacts.matches_group1 in Hm; try reflexivity.
  destruct Hm as (wa & wg & wc & pa & pg & Hw & Hcap & Ha & Hg & Hc).
  apply FinditerFacts.matches_one_char in Ha; [|reflexivity].
  apply FinditerFacts.matches_one_char in Hc; [|reflexivity].
  subst wa wc. unfold group. rewrite Hcap. split.
  - apply StrFacts.contains_spec. exists pre, (m_rest m).
    rewrite Hs, Hw. reflexivity.
  - inversion Hg as [| |? ? ? w1 w2 ? ? ? ? ? ? H1 H2| | | | | | | |]; subst.
    apply matches_lit_chars in H1; [|discriminate]. subst w1.
    apply StrFacts.startswith_app.
Qed.

Lemma coverage_error_inj (a b : pystr) :
  coverage_error a = coverage_error b -> a = b.
Proof. unfold coverage_error. intros H. now injection H. Qed.

(** X1.  The coverage check reports one error for each scope of the design
    that the change log does not refer to, in the order of the scopes,
    and nothing else; a scope counts as referred to only if it stands in
    the change log between backticks. *)
Theorem validate_fdl_coverage_unreferenced (changes_text : pystr)
        (d : design_fdl) :
  let refs := extract_scope_references_from_changes changes_text in
  validate_fdl_coverage changes_text d
  = map coverage_error
        (filter (fun sid => negb (mem sid refs)) (Dict.keys d))
  /\ (forall sid,
         In (coverage_error sid) (validate_fdl_coverage changes_text d)
         <-> In sid (Dict.keys d) /\ ~ In sid refs)
  /\ (validate_fdl_coverage changes_text d = []
      <-> forall sid, In sid (Dict.keys d) -> In sid refs)
  /\ (forall sid,
         In sid (Dict.keys d) ->
         Str.contains (py "`" ++ sid ++ py "`") changes_text = false ->
         In (coverage_error sid) (validate_fdl_coverage changes_text d)).
Proof.
  intros refs.
  assert (Heq : validate_fdl_coverage changes_text d
                = map coverage_error
                      (filter (fun sid => negb (mem sid refs))
                              (Dict.keys d))).
  { unfold validate_fdl_coverage. fold refs.
    induction (Dict.keys d) as [|k ks IH]; [reflexivity|].
    simpl. destruct (negb (mem k refs)); simpl; now rewrite IH. }
  assert (Hin : forall sid,
             In (coverage_error sid) (validate_fdl_coverage changes_text d)
             <-> In sid (Dict.keys d) /\ ~ In sid refs).
  { intros sid. rewrite Heq, in_map_iff. split.
    - intros (x & Hx & Hf). apply coverage_error_inj in Hx. subst x.
      apply filter_In in Hf. destruct Hf as [Hk Hm]. split; [assumption|].
      apply negb_true_iff in Hm. now apply mem_not_In.
    - intros [Hk Hn]. exists sid. split; [reflexivity|].
      apply filter_In. split; [assumption|].
      apply negb_true_iff. now apply mem_not_In. }
  split; [assumption|]. split; [assumption|]. split.
  - split.
    + intros Hnil sid Hk. destruct (mem sid refs) eqn:E; [now apply mem_In|].
      apply mem_not_In in E.
      assert (H : In (coverage_error sid)
                     (validate_fdl_coverage changes_text d)).
      { apply Hin. now split. }
      rewrite Hnil in H. contradiction.
    + intros Hall. rewrite Heq.
      replace (filter (fun sid => negb (mem sid refs)) (Dict.keys d))
        with (@nil pystr); [reflexivity|].
      symmetry. revert Hall. generalize (Dict.keys d). intros ks.
      induction ks as [|k ks IH]; intros Hall; [reflexivity|].
      simpl. assert (Hk : mem k refs = true).
      { apply mem_In, Hall. now left. }
      rewrite Hk. simpl. apply IH. intros sid Hs. apply Hall. now right.
  - intros sid Hk Hc. apply Hin. split; [assumption|].
    intros Hr. apply scope_reference_in_text in Hr.
    destruct Hr as [Hr _]. congruence.
Qed.



End FdlCheckFacts.
(** ** The check of the code against the design *)

Module CodeCheckFacts.

Import Re Fdl ScanSpec MarkerSpec FdlChecks.





End CodeCheckFacts.
(** ** The check of the design against the code *)

Module CodeToDesignFacts.

Import Re Fdl FdlSpec ScanSpec MarkerSpec FdlChecks.

Section WithConstants.

Variable K : Constants.





End WithConstants.







End CodeToDesignFacts.
(** ** The completion check on any table of instructions *)

Module CompletionBounds.

Import Re Fdl.

Lemma In_enumerate_from {A : Type} (xs : list A) :
  forall start i x,
    In (i, x) (enumerate_from start xs)
    <-> start <= i /\ nth_error xs (i - start) = Some x.
Proof.
  induction xs as [|y xs IH]; intros start i x; simpl.
  - split; [contradiction|]. intros [_ H]. now destruct (i - start).
  - rewrite IH. split.
    + intros [Heq|[Hle Hn]].
      * injection Heq as <- <-. split; [lia|]. now rewrite Nat.sub_diag.
      * split; [lia|]. replace (i - start) with (S (i - S start)) by lia.
        exact Hn.
    + intros [Hle Hn]. destruct (Nat.eq_dec i start) as [->|Hne].
      * rewrite Nat.sub_diag in Hn. simpl in Hn. injection Hn as <-.
        now left.
      * right. split; [lia|].
        replace (i - start) with (S (i - S start)) in Hn by lia.
        exact Hn.
Qed.

(** The loop over the instructions of one scope raises [IndexError] when
    an instruction has no entry in the [completed] list, and otherwise
    returns the instructions whose entry is falsy. *)
Lemma uncompleted_of_cases (sid : pystr) (data : scope_entry)
      (items : list (nat * pystr)) :
  (uncompleted_of sid data items = Raise IndexError
   /\ exists i inst, In (i, inst) items
                     /\ nth_error (completed data) i = None)
  \/ (exists l,
         uncompleted_of sid data items = Ok l
         /\ (forall i inst, In (i, inst) items ->
                            nth_error (completed data) i <> None)
         /\ forall s inst,
             In (s, inst) l
             <-> s = sid
                 /\ exists i c, In (i, inst) items
                                /\ nth_error (completed data) i = Some c
                                /\ truthy c = false).
Proof.
  induction items as [|[i inst] rest IH]; simpl.
  - right. exists []. split; [reflexivity|]. split; [contradiction|].
    intros s x. split; [contradiction|]. intros (_ & j & c & [] & _).
  - destruct (nth_error (completed data) i) as [c|] eqn:E.
    + destruct IH as [[Hr (j & x & Hin & Hn)]|(l & Hl & Hall & Hmem)].
      * left. rewrite Hr. split; [reflexivity|]. eauto.
      * right. rewrite Hl. simpl. eexists. split; [reflexivity|]. split.
        -- intros j x [Heq|Hin]; [injection Heq as <- <-; congruence|].
           now apply (Hall j x).
        -- intros s x. destruct (truthy c) eqn:Ec; simpl.
           ++ rewrite Hmem. split.
              ** intros (Hs & j & c0 & Hin & Hn & Hc). eauto 8.
              ** intros (Hs & j & c0 & [Heq|Hin] & Hn & Hc); [|eauto 8].
                 injection Heq as <- <-. congruence.
           ++ rewrite Hmem. split.
              ** intros [Heq|(Hs & j & c0 & Hin & Hn & Hc)].
                 --- injection Heq as <- <-. eauto 8.
                 --- eauto 8.
              ** intros (Hs & j & c0 & [Heq|Hin] & Hn & Hc).
                 --- injection Heq as <- <-. left. now subst.
                 --- right. eauto 8.
    + left. split; [reflexivity|]. eauto.
Qed.

Lemma short_completed (data : scope_entry) :
  (exists i inst,
      In (i, inst) (enumerate_from 0 (instructions data))
      /\ nth_error (completed data) i = None)
  <-> List.length (completed data) < List.length (instructions data).
Proof.
  split.
  - intros (i & inst & Hin & Hn). apply In_enumerate_from in Hin.
    destruct Hin as [_ Hi]. rewrite Nat.sub_0_r in Hi.
    apply nth_error_None in Hn.
    assert (i < List.length (instructions data)).
    { apply nth_error_Some. congruence. }
    lia.
  - intros Hlt.
    destruct (nth_error (instructions data) (List.length (completed data)))
      as [inst|] eqn:E.
    + exists (List.length (completed data)), inst. split.
      * apply In_enumerate_from. split; [lia|]. now rewrite Nat.sub_0_r.
      * apply nth_error_None. lia.
    + apply nth_error_None in E. lia.
Qed.

(** The loop over the scopes. *)
Lemma uncompleted_instructions_cases (d : design_fdl) :
  (uncompleted_instructions d = Raise IndexError
   /\ exists sid data,
       In (sid, data) d
       /\ List.length (completed data) < List.length (instructions data))
  \/ (exists l,
         uncompleted_instructions d = Ok l
         /\ (forall sid data,
                In (sid, data) d ->
                List.length (instructions data)
                <= List.length (completed data))
         /\ forall s inst,
             In (s, inst) l
             <-> exists data i c,
                 In (s, data) d
                 /\ nth_error (instructions data) i = Some inst
                 /\ nth_error (completed data) i = Some c
                 /\ truthy c = false).
Proof.
  induction d as [|[sid data] rest IH]; simpl.
  - right. exists []. split; [reflexivity|]. split; [contradiction|].
    intros s x. split; [contradiction|]. intros (y & i & c & [] & _).
  - destruct (uncompleted_of_cases
                sid data (enumerate_from 0 (instructions data)))
      as [[Hr Hex]|(l & Hl & Hall & Hmem)].
    + left. rewrite Hr. split; [reflexivity|].
      apply short_completed in Hex. eauto.
    + rewrite Hl. simpl.
      assert (Hlen : List.length (instructions data)
                     <= List.length (completed data)).
      { destruct (Nat.le_gt_cases (List.length (instructions data))
                                  (List.length (completed data)))
          as [H|H]; [assumption|].
        apply short_completed in H. destruct H as (i & x & Hin & Hn).
        now apply Hall in Hin. }
      destruct IH as [[Hr (s0 & d0 & Hin & Hlt)]|(l2 & Hl2 & Hall2 & Hmem2)].
      * left. rewrite Hr. split; [reflexivity|]. eauto.
      * right. rewrite Hl2. simpl. eexists. split; [reflexivity|]. split.
        -- intros s0 d0 [Heq|Hin]; [injection Heq as <- <-; assumption|].
           now apply (Hall2 s0 d0).
        -- intros s x. rewrite in_app_iff, Hmem, Hmem2. split.
           ++ intros [(-> & i & c & Hin & Hn & Hc)|(y & i & c & Hin & Hr)].
              ** apply In_enumerate_from in Hin. destruct Hin as [_ Hi].
                 rewrite Nat.sub_0_r in Hi. exists data, i, c. auto.
              ** exists y, i, c. destruct Hr as (H1 & H2 & H3). auto.
           ++ intros (y & i & c & [Heq|Hin] & Hi & Hn & Hc).
              ** injection Heq as <- <-. left. split; [reflexivity|].
                 exists i, c. split; [|auto].
                 apply In_enumerate_from. split; [lia|].
                 now rewrite Nat.sub_0_r.
              ** right. exists y, i, c. auto.
Qed.

(** X5.  Where the change log shows a status, the completion check raises
    [IndexError] exactly when some scope of the table has fewer
    [completed] entries than instructions; otherwise it returns, with
    one error when some instruction has a falsy entry and none when
    there is no such instruction.  Without a status it returns
    nothing. *)
Theorem validate_fdl_completion_bounds (changes_text : pystr)
        (d : design_fdl) :
  match re_search no_flags status_re changes_text with
  | None => validate_fdl_completion changes_text d = Ok []
  | Some _ =>
    (validate_fdl_completion changes_text d = Raise IndexError
     <-> exists sid data,
         In (sid, data) d
         /\ List.length (completed data) < List.length (instructions data))
    /\ ((forall sid data,
            In (sid, data) d ->
            List.length (instructions data) <= List.length (completed data))
        -> exists errs,
          validate_fdl_completion changes_text d = Ok errs
          /\ List.length errs <= 1
          /\ (errs = []
              <-> forall sid data i inst c,
                  In (sid, data) d ->
                  nth_error (instructions data) i = Some inst ->
                  nth_error (completed data) i = Some c ->
                  truthy c = true))
  end.
Proof.
  rewrite CompletionFacts.validate_fdl_completion_eq.
  destruct (re_search no_flags status_re changes_text); [|reflexivity].
  destruct (uncompleted_instructions_cases d)
    as [[Hr (sid & data & Hin & Hlt)]|(l & Hl & Hall & Hmem)].
  - rewrite Hr. simpl. split.
    + split; [eauto | reflexivity].
    + intros Hle. apply Hle in Hin. lia.
  - rewrite Hl. simpl. split.
    + split; [discriminate|].
      intros (sid & data & Hin & Hlt). apply Hall in Hin. lia.
    + intros _. eexists. split; [reflexivity|]. split.
      * destruct l; simpl; lia.
      * destruct l as [|[s x] rest]; simpl.
        -- split; [|reflexivity]. intros _ sid data i inst c Hin Hi Hc.
           destruct (truthy c) eqn:Et; [reflexivity|]. exfalso.
           apply (Hmem sid inst). eauto 8.
        -- split; [discriminate|]. intros Hok. exfalso.
           destruct (Hmem s x) as [H _].
           destruct (H (or_introl eq_refl))
             as (data & i & c & Hin & Hi & Hc & Ht).
           rewrite (Hok s data i x c Hin Hi Hc) in Ht. discriminate.
Qed.

End CompletionBounds.
(** ** Missing and repeated sections *)

Module DuplicateFacts.

Import Common CountSpec.

Lemma leb_total (a : pystr) :
  forall b, Str.leb a b = false -> Str.leb b a = true.
Proof.
  induction a as [|x a IH]; intros [|y b]; simpl; try discriminate.
  - reflexivity.
  - destruct (x <? y)%N eqn:E1; [discriminate|].
    destruct (y <? x)%N eqn:E2; [reflexivity|]. apply IH.
Qed.

Lemma insert_sorted_ascending (x : pystr) (l : list pystr) :
  ascending l -> ascending (Str.insert_sorted x l).
Proof.
  unfold ascending. induction l as [|y l IH]; intros H; simpl.
  - repeat constructor.
  - destruct (Str.leb x y) eqn:E.
    + constructor; [assumption | now constructor].
    + inversion H as [|? ? Hl Hhd]; subst.
      constructor; [now apply IH|].
      destruct l as [|z l]; simpl.
      * constructor. now apply leb_total.
      * destruct (Str.leb x z) eqn:E2; constructor.
        -- now apply leb_total.
        -- now inversion Hhd.
Qed.

(** [sorted] returns its argument in ascending order. *)
Lemma sorted_ascending (l : list pystr) : ascending (Str.sorted l).
Proof.
  induction l as [|x l IH]; simpl; [constructor|].
  now apply insert_sorted_ascending.
Qed.

(** The count of an id after the counting loop. *)
Lemma count_ids_get (ids : list pystr) :
  forall (counts : Dict.t nat) (x : pystr),
    Dict.get x (count_ids ids counts)
    = match Dict.get x counts, occurrences x ids with
      | None, O => None
      | c, n => Some (match c with Some c0 => c0 | None => 0 end + n)
      end.
Proof.
  unfold occurrences.
  induction ids as [|sid rest IH]; intros counts x; simpl.
  - destruct (Dict.get x counts); [f_equal; lia | reflexivity].
  - rewrite IH, DictFacts.get_set. destruct (pystr_eqb x sid) eqn:E.
    + apply pystr_eqb_eq in E. subst sid. simpl.
      destruct (Dict.get x counts) as [c|];
        destruct (List.length (filter (pystr_eqb x) rest));
        f_equal; lia.
    + destruct (Dict.get x counts) as [c|]; reflexivity.
Qed.

Lemma count_ids_keys (ids : list pystr) :
  forall counts : Dict.t nat,
    NoDup (Dict.keys counts) -> NoDup (Dict.keys (count_ids ids counts)).
Proof.
  induction ids as [|sid rest IH]; intros counts H; simpl; [assumption|].
  apply IH. now apply MarkerFacts.keys_set_NoDup.
Qed.

Lemma NoDup_keys_filter {V : Type} (f : pystr * V -> bool) (d : Dict.t V) :
  NoDup (Dict.keys d) -> NoDup (map fst (filter f d)).
Proof.
  unfold Dict.keys. induction d as [|[k v] d IH]; intros H; simpl.
  - constructor.
  - inversion H as [|? ? Hk Hd]; subst.
    destruct (f (k, v)); simpl; [|now apply IH].
    constructor; [|now apply IH].
    intros Hin. apply Hk. apply in_map_iff in Hin.
    destruct Hin as ([k1 v1] & Heq & Hin). simpl in Heq. subst k1.
    apply filter_In in Hin. apply in_map_iff. now exists (k, v1).
Qed.

(** The ids that the check reports as repeated: those that occur at
    least twice, each once, in ascending order. *)
Lemma duplicate_ids_spec (present : list pystr) :
  NoDup (duplicate_ids present)
  /\ ascending (duplicate_ids present)
  /\ forall x, In x (duplicate_ids present) <-> 2 <= occurrences x present.
Proof.
  unfold duplicate_ids.
  assert (Hk : NoDup (Dict.keys (count_ids present []))).
  { apply count_ids_keys. constructor. }
  split; [|split].
  - eapply Permutation_NoDup; [apply SortFacts.sorted_perm|].
    now apply NoDup_keys_filter.
  - apply sorted_ascending.
  - intros x. rewrite SortFacts.sorted_In, in_map_iff. split.
    + intros ([k c] & Heq & Hin). simpl in Heq. subst k.
      apply filter_In in Hin. destruct Hin as [Hin Hc].
      apply Nat.ltb_lt in Hc.
      apply (MarkerFacts.In_get _ _ _ Hk) in Hin.
      rewrite count_ids_get in Hin. simpl in Hin.
      destruct (occurrences x present); [discriminate|].
      injection Hin as <-. lia.
    + intros Hocc. exists (x, occurrences x present). split; [reflexivity|].
      apply filter_In. split; [|apply Nat.ltb_lt; lia].
      apply DictFacts.get_In. rewrite count_ids_get. simpl.
      destruct (occurrences x present); [lia | reflexivity].
Qed.

Lemma missing_section_inj (a b t u : pystr) :
  missing_section a t = missing_section b u -> a = b /\ t = u.
Proof. unfold missing_section. intros H. now injection H. Qed.

Section WithConstants.

Variable K : Constants.
Variable E : Env.

(** X6.  The section check, where the requirements give no section, stops
    with the one error that says so, whatever the document holds.
    Otherwise the missing sections are the required ones of which the
    document has no heading, with their titles and in the required
    order; and the error for repeated section ids is there exactly when
    some id occurs twice, with the ids that occur at least twice, each
    once and in ascending order. *)
Theorem validate_generic_sections_findings (artifact_text : pystr)
        (requirements_path : Path.t) :
  let r := validate_generic_sections K E artifact_text requirements_path in
  let required := parse_required_sections E requirements_path in
  let present := Utils.find_present_section_ids K artifact_text in
  if nonempty required then
    required_section_count r = List.length required
    /\ missing_sections r
       = map (fun st => missing_section (fst st) (snd st))
             (filter (fun st => negb (mem (fst st) present)) required)
    /\ (forall sid title,
           In (missing_section sid title) (missing_sections r)
           <-> In (sid, title) required /\ ~ In sid present)
    /\ ((exists e, In e (errors r)
                   /\ vfield "message" e = Some duplicate_message)
        <-> exists x, 2 <= occurrences x present)
    /\ (forall e,
           In e (errors r) ->
           vfield "message" e = Some duplicate_message ->
           exists ids,
             vfield "ids" e = Some (vstrs ids)
             /\ NoDup ids /\ ascending ids
             /\ forall x, In x ids <-> 2 <= occurrences x present)
  else
    status_ r = FAIL /\ required_section_count r = 0
    /\ missing_sections r = [] /\ List.length (errors r) = 1.
Proof.
  intros r required present.
  destruct (nonempty required) eqn:Hne.
  2:{ unfold r, validate_generic_sections. fold required. rewrite Hne.
      simpl. auto. }
  destruct (duplicate_ids_spec present) as (Hnd & Hasc & Hocc).
  assert (Hmiss : missing_sections r
                  = map (fun st => missing_section (fst st) (snd st))
                        (filter (fun st => negb (mem (fst st) present))
                                required)).
  { unfold r, validate_generic_sections. fold required. rewrite Hne.
    simpl negb. cbv iota. cbn [missing_sections]. fold present.
    clear Hne. clearbody required.
    induction required as [|[sid title] rest IH]; [reflexivity|].
    simpl.
    assert (Hm : mem sid (PySet.of_list present) = mem sid present).
    { destruct (mem sid present) eqn:E1.
      - apply mem_In. apply SetFacts.of_list_In. now apply mem_In.
      - apply mem_not_In. rewrite SetFacts.of_list_In.
        now apply mem_not_In. }
    rewrite Hm. destruct (mem sid present); simpl; now rewrite IH. }
  assert (Herr : errors r
                 = (if nonempty (duplicate_ids present)
                    then [VDict [("type", VStr (py "structure"));
                                 ("message", duplicate_message);
                                 ("ids", vstrs (duplicate_ids present))]%string]
                    else [])
                   ++ (if negb (list_eqb
                                  (filter (fun sid =>
                                             Dict.contains sid required)
                                          present)
                                  (Dict.keys required))
                       then [order_error
                               (Dict.keys required)
                               (filter (fun sid => Dict.contains sid required)
                                       present)]
                       else [])).
  { unfold r, validate_generic_sections. fold required. rewrite Hne.
    simpl negb. cbv iota. cbn [errors]. fold present.
    destruct (negb (list_eqb _ _)); [reflexivity|].
    now rewrite app_nil_r. }
  assert (Hdup : forall e,
             In e (errors r) ->
             vfield "message" e = Some duplicate_message ->
             nonempty (duplicate_ids present) = true
             /\ vfield "ids" e = Some (vstrs (duplicate_ids present))).
  { intros e Hin Hmsg. rewrite Herr in Hin. apply in_app_or in Hin.
    destruct Hin as [Hin|Hin].
    - destruct (nonempty (duplicate_ids present)); [|contradiction].
      destruct Hin as [<-|[]]. now split.
    - destruct (negb (list_eqb _ _)); [|contradiction].
      destruct Hin as [<-|[]]. unfold duplicate_message in Hmsg.
      simpl in Hmsg. injection Hmsg as Hmsg. vm_compute in Hmsg.
      discriminate Hmsg. }
  split; [|split; [|split; [|split]]].
  - unfold r, validate_generic_sections. fold required. now rewrite Hne.
  - exact Hmiss.
  - intros sid title. rewrite Hmiss, in_map_iff. split.
    + intros ([s t] & Heq & Hin). apply missing_section_inj in Heq.
      simpl in Heq. destruct Heq as [-> ->].
      apply filter_In in Hin. destruct Hin as [Hin Hm]. simpl in Hm.
      split; [assumption|]. apply mem_not_In. now apply negb_true_iff.
    + intros [Hin Hn]. exists (sid, title). split; [reflexivity|].
      apply filter_In. split; [assumption|]. simpl.
      apply negb_true_iff. now apply mem_not_In.
  - split.
    + intros (e & Hin & Hmsg). destruct (Hdup e Hin Hmsg) as [Hn _].
      destruct (duplicate_ids present) as [|x rest] eqn:Ed; [discriminate|].
      exists x. apply Hocc. now left.
    + intros (x & Hx). apply Hocc in Hx.
      destruct (duplicate_ids present) as [|y rest] eqn:Ed; [contradiction|].
      eexists. split; [rewrite Herr; simpl; left; reflexivity|].
      reflexivity.
  - intros e Hin Hmsg. destruct (Hdup e Hin Hmsg) as [_ Hids].
    exists (duplicate_ids present). auto.
Qed.

End WithConstants.

End DuplicateFacts.
(** ** The parsers of [utils/helpers.py] *)

Module HelperFacts.

Import Utils HelperSpec.

Section WithConstants.

Variable K : Constants.

(** The loop that adds the actors of a line to the current capability
    never fails where the capability has its entry. *)
Lemma add_actors_ok (cur : pystr) (actors : list pystr) :
  forall c2a : Dict.t PySet.t,
    Dict.contains cur c2a = true ->
    exists c2a1 s0 s1,
      for_each (fun d actor_id => add_actor cur actor_id d) actors c2a
      = Ok c2a1
      /\ Dict.keys c2a1 = Dict.keys c2a
      /\ (forall cap, cap <> cur -> Dict.get cap c2a1 = Dict.get cap c2a)
      /\ Dict.get cur c2a = Some s0
      /\ Dict.get cur c2a1 = Some s1
      /\ forall a, In a s1 <-> In a s0 \/ In a actors.
Proof.
  induction actors as [|x rest IH]; intros c2a Hc.
  - unfold Dict.contains in Hc.
    destruct (Dict.get cur c2a) as [s0|] eqn:E; [|discriminate].
    exists c2a, s0, s0. simpl. repeat split; auto.
    intros [H|[]]. assumption.
  - unfold Dict.contains in Hc.
    destruct (Dict.get cur c2a) as [s0|] eqn:E; [|discriminate].
    simpl. unfold add_actor at 1. unfold Dict.getitem. rewrite E. simpl.
    destruct (IH (Dict.set cur (PySet.add x s0) c2a))
      as (c2a1 & t0 & t1 & Hrun & Hk & Hother & Ht0 & Ht1 & Hin).
    { now rewrite DictFacts.contains_set, pystr_eqb_refl. }
    exists c2a1, s0, t1. rewrite Hrun.
    rewrite DictFacts.get_set_same in Ht0. injection Ht0 as <-.
    repeat split; try assumption.
    + rewrite Hk, MarkerFacts.keys_set. unfold Dict.contains. now rewrite E.
    + intros cap Hne. rewrite (Hother cap Hne).
      now apply DictFacts.get_set_other.
    + intros H. apply Hin in H. rewrite SetFacts.add_In in H.
      simpl. intuition.
    + intros H. apply Hin. rewrite SetFacts.add_In. simpl in H. intuition.
Qed.

(** One line of the business model. *)
Lemma bm_step_ok (L : list pystr) (st : bm_state) (line : pystr) :
  bm_ok K L st -> In line L ->
  exists st1, bm_step K st line = Ok st1 /\ bm_ok K L st1.
Proof.
  intros (Hcur & Hnd & Hcaps & Hacts) HL. unfold bm_step.
  destruct (Str.contains (py "## C. Capabilities") line
            || Str.contains (py "## Section C") line).
  { eexists. split; [reflexivity|]. repeat split; assumption. }
  set (in_section := if in_capability_section st
                        && Str.startswith (py "## ") (Str.strip line)
                     then false else in_capability_section st).
  destruct in_section.
  2:{ eexists. split; [reflexivity|]. repeat split; assumption. }
  destruct (p_findall (CAPABILITY_ID_RE K) line) as [|cap more] eqn:Ecap.
  - (* no capability on the line *)
    destruct (current_capability_id st) as [cur|] eqn:Ec.
    2:{ eexists. split; [reflexivity|]. repeat split; try assumption;
          simpl; intros c H; discriminate. }
    destruct (str_truthy cur) eqn:Et.
    2:{ eexists. split; [reflexivity|]. repeat split; try assumption;
          simpl; intros c H Hc; injection H as <-; congruence. }
    destruct (add_actors_ok cur (p_findall (ACTOR_ID_RE K) line)
                            (capability_to_actors st) (Hcur cur eq_refl Et))
      as (c1 & s0 & s1 & Hrun & Hk & Hother & Hs0 & Hs1 & Hin).
    rewrite Hrun. simpl. eexists. split; [reflexivity|].
    split; [|split; [|split]]; simpl.
    + intros c H _. injection H as <-. unfold Dict.contains. now rewrite Hs1.
    + now rewrite Hk.
    + rewrite Hk. exact Hcaps.
    + intros c actors a Hg Ha.
      destruct (pystr_eqb c cur) eqn:E.
      * apply pystr_eqb_eq in E. subst c. rewrite Hs1 in Hg.
        injection Hg as <-. apply Hin in Ha. destruct Ha as [Ha|Ha].
        -- now apply (Hacts cur s0 a).
        -- eauto.
      * apply pystr_eqb_neq in E. rewrite (Hother c E) in Hg.
        now apply (Hacts c actors a).
  - (* the line names a capability: its entry starts empty *)
    set (c2a := Dict.set cap [] (capability_to_actors st)).
    assert (Hnd1 : NoDup (Dict.keys c2a))
      by now apply MarkerFacts.keys_set_NoDup.
    assert (Hcaps1 : forall c, In c (Dict.keys c2a) ->
                               exists l rest, In l L
                                 /\ p_findall (CAPABILITY_ID_RE K) l
                                    = c :: rest).
    { intros c Hc. apply DictFacts.keys_set_In in Hc.
      destruct Hc as [->|Hc]; [eauto | now apply Hcaps]. }
    assert (Hacts1 : forall c actors a,
               Dict.get c c2a = Some actors -> In a actors ->
               exists l, In l L /\ In a (p_findall (ACTOR_ID_RE K) l)).
    { intros c actors a Hg Ha. unfold c2a in Hg.
      rewrite DictFacts.get_set in Hg.
      destruct (pystr_eqb c cap).
      - injection Hg as <-. contradiction.
      - now apply (Hacts c actors a). }
    destruct (str_truthy cap) eqn:Et.
    2:{ eexists. split; [reflexivity|]. repeat split; try assumption;
          simpl; intros c H Hc; injection H as <-; congruence. }
    destruct (add_actors_ok cap (p_findall (ACTOR_ID_RE K) line) c2a)
      as (c1 & s0 & s1 & Hrun & Hk & Hother & Hs0 & Hs1 & Hin).
    { unfold c2a. now rewrite DictFacts.contains_set, pystr_eqb_refl. }
    fold c2a. rewrite Hrun. simpl. eexists. split; [reflexivity|].
    split; [|split; [|split]]; simpl.
    + intros c H _. injection H as <-. unfold Dict.contains. now rewrite Hs1.
    + now rewrite Hk.
    + rewrite Hk. exact Hcaps1.
    + intros c actors a Hg Ha.
      destruct (pystr_eqb c cap) eqn:E.
      * apply pystr_eqb_eq in E. subst c. rewrite Hs1 in Hg.
        injection Hg as <-. apply Hin in Ha. destruct Ha as [Ha|Ha].
        -- now apply (Hacts1 cap s0 a).
        -- eauto.
      * apply pystr_eqb_neq in E. rewrite (Hother c E) in Hg.
        now apply (Hacts1 c actors a).
Qed.

Lemma bm_lines_ok (L ls : list pystr) :
  forall st,
    bm_ok K L st -> (forall l, In l ls -> In l L) ->
    exists st1, for_each (bm_step K) ls st = Ok st1 /\ bm_ok K L st1.
Proof.
  induction ls as [|line rest IH]; intros st Hok Hsub.
  - exists st. now split.
  - destruct (bm_step_ok line Hok (Hsub line (or_introl eq_refl)))
      as (st1 & Hstep & Hok1).
    destruct (IH st1 Hok1 (fun l Hl => Hsub l (or_intror Hl)))
      as (st2 & Hrun & Hok2).
    exists st2. simpl. rewrite Hstep. simpl. now split.
Qed.

(** Without a line that opens the capability section, no capability is
    recorded. *)
Lemma bm_lines_closed (ls : list pystr) :
  forall st,
    in_capability_section st = false ->
    (forall l, In l ls -> opens_capabilities l = false) ->
    exists st1,
      for_each (bm_step K) ls st = Ok st1
      /\ capability_to_actors st1 = capability_to_actors st.
Proof.
  induction ls as [|line rest IH]; intros st Hs Hno.
  - exists st. now split.
  - simpl. unfold bm_step at 1.
    pose proof (Hno line (or_introl eq_refl)) as Hl.
    unfold opens_capabilities in Hl. rewrite Hl, Hs. simpl.
    destruct (IH {| in_capability_section := false;
                    current_capability_id := current_capability_id st;
                    capability_to_actors := capability_to_actors st |})
      as (st1 & Hrun & Hc); [reflexivity | |].
    { intros l H. apply Hno. now right. }
    exists st1. now split.
Qed.

(** X7.  [parse_business_model] returns for every text: the key error of
    its inner loop cannot occur.  The actors and the use cases are those
    of the whole text; the capabilities are first capability IDs of
    lines, none twice, and the actors of a capability are actor IDs of
    lines; a text without a line that opens the capability section gives
    no capability. *)
Theorem parse_business_model_returns (text : pystr) :
  let lines := Str.splitlines text in
  exists c2a,
    parse_business_model K text
    = Ok (PySet.of_list (p_findall (ACTOR_ID_RE K) text), c2a,
          PySet.of_list (p_findall (USECASE_ID_RE K) text))
    /\ NoDup (Dict.keys c2a)
    /\ (forall cap,
           In cap (Dict.keys c2a) ->
           exists line rest,
             In line lines
             /\ p_findall (CAPABILITY_ID_RE K) line = cap :: rest)
    /\ (forall cap actors a,
           Dict.get cap c2a = Some actors -> In a actors ->
           exists line,
             In line lines /\ In a (p_findall (ACTOR_ID_RE K) line))
    /\ ((forall line, In line lines -> opens_capabilities line = false) ->
        c2a = []).
Proof.
  intros lines.
  set (st0 := {| in_capability_section := false;
                 current_capability_id := None;
                 capability_to_actors := [] |}).
  assert (H0 : bm_ok K lines st0).
  { unfold bm_ok, st0. simpl. repeat split.
    - discriminate.
    - constructor.
    - contradiction.
    - discriminate. }
  destruct (bm_lines_ok lines H0 (fun l H => H))
    as (st1 & Hrun & (_ & Hnd & Hcaps & Hacts)).
  exists (capability_to_actors st1).
  unfold parse_business_model. fold lines. fold st0. rewrite Hrun. simpl.
  repeat split; try assumption.
  intros Hno. destruct (bm_lines_closed lines st0 eq_refl Hno)
    as (st2 & Hrun2 & Hc).
  rewrite Hrun in Hrun2. injection Hrun2 as <-. exact Hc.
Qed.

Lemma int_raises (s : pystr) (e : exn) :
  PyInt.int s = Raise e -> e = ValueError.
Proof.
  unfold PyInt.int.
  destruct (match Str.strip s with
            | 45%N :: r => (true, r)
            | 43%N :: r => (false, r)
            | _ => (false, Str.strip s)
            end) as [neg rest].
  destruct (PyInt.digits 0 false false rest); [discriminate|].
  intros H. now injection H.
Qed.

Lemma parse_adr_lines_cons (line : pystr) (rest : list pystr) :
  parse_adr_lines K (line :: rest)
  = match p_match (ADR_HEADING_RE K) (Str.strip line) with
    | Some m =>
      num <- PyInt.int (Re.group m 2) ;;
      let '(date_val, status_val, id_val) :=
          adr_metadata K (take 9 rest) (None, None, None) in
      more <- parse_adr_lines K rest ;;
      Ok ({| adr_ref := Re.group m 1; adr_num := num;
             adr_title := Re.group m 3; adr_date := date_val;
             adr_status := status_val; adr_id := id_val |} :: more)
    | None => parse_adr_lines K rest
    end.
Proof. reflexivity. Qed.

Lemma heading_matches_cons (line : pystr) (rest : list pystr) :
  heading_matches K (line :: rest)
  = match p_match (ADR_HEADING_RE K) (Str.strip line) with
    | Some m => m :: heading_matches K rest
    | None => heading_matches K rest
    end.
Proof.
  unfold heading_matches. cbn [flat_map].
  now destruct (p_match (ADR_HEADING_RE K) (Str.strip line)).
Qed.

(** The loop over the lines of the decision log. *)
Lemma parse_adr_lines_cases (lines : list pystr) :
  match parse_adr_lines K lines with
  | Ok adrs =>
    map adr_ref adrs = map (fun m => Re.group m 1) (heading_matches K lines)
    /\ map adr_title adrs
       = map (fun m => Re.group m 3) (heading_matches K lines)
    /\ map (fun e => Ok (adr_num e)) adrs
       = map (fun m => PyInt.int (Re.group m 2)) (heading_matches K lines)
  | Raise e =>
    e = ValueError
    /\ exists m, In m (heading_matches K lines)
                 /\ PyInt.int (Re.group m 2) = Raise ValueError
  end.
Proof.
  induction lines as [|line rest IH]; [simpl; auto|].
  rewrite parse_adr_lines_cons, heading_matches_cons.
  destruct (p_match (ADR_HEADING_RE K) (Str.strip line)) as [m|];
    [|exact IH].
  destruct (PyInt.int (Re.group m 2)) as [num|e] eqn:En; unfold bind.
  - destruct (adr_metadata K (take 9 rest) (None, None, None))
      as [[date_val status_val] id_val].
    destruct (parse_adr_lines K rest) as [more|e].
    + destruct IH as (H1 & H2 & H3). cbn [map adr_ref adr_title adr_num].
      rewrite H1, H2, H3, En. auto.
    + destruct IH as (He & m1 & Hin & Hm). split; [assumption|].
      exists m1. split; [now right | assumption].
  - pose proof (int_raises _ En) as ->. split; [reflexivity|].
    exists m. split; [now left | assumption].
Qed.

(** The entries and the issues of the index of decisions. *)
Lemma adr_index_entries (text : pystr) :
  let headings := heading_matches K (Str.splitlines text) in
  match parse_adr_index K text with
  | Ok (adrs, issues) =>
    issues = []
    /\ List.length adrs = List.length headings
    /\ map adr_ref adrs = map (fun m => Re.group m 1) headings
    /\ map adr_title adrs = map (fun m => Re.group m 3) headings
    /\ map (fun e => Ok (adr_num e)) adrs
       = map (fun m => PyInt.int (Re.group m 2)) headings
  | Raise e =>
    e = ValueError
    /\ exists m, In m headings /\ PyInt.int (Re.group m 2) = Raise ValueError
  end.
Proof.
  intros headings. unfold parse_adr_index.
  pose proof (parse_adr_lines_cases (Str.splitlines text)) as H.
  fold headings in H.
  destruct (parse_adr_lines K (Str.splitlines text)) as [adrs|e]; simpl.
  - destruct H as (H1 & H2 & H3). repeat split; try assumption.
    rewrite <- (length_map adr_ref), H1. apply length_map.
  - exact H.
Qed.

(** X8.  [parse_adr_index] has one entry for each decision heading of the
    text, in the order of the headings, with the reference, the number
    and the title that the heading gives, and it never reports an issue;
    it raises, and then [ValueError], only when the number of some
    heading is no integer literal. *)
Theorem parse_adr_index_entries (text : pystr) :
  let headings := heading_matches K (Str.splitlines text) in
  match parse_adr_index K text with
  | Ok (adrs, issues) =>
    issues = []
    /\ List.length adrs = List.length headings
    /\ map adr_ref adrs = map (fun m => Re.group m 1) headings
    /\ map adr_title adrs = map (fun m => Re.group m 3) headings
    /\ map (fun e => Ok (adr_num e)) adrs
       = map (fun m => PyInt.int (Re.group m 2)) headings
  | Raise e =>
    e = ValueError
    /\ exists m, In m headings /\ PyInt.int (Re.group m 2) = Raise ValueError
  end.
Proof.
  intros headings. pose proof (adr_index_entries text) as H.
  fold headings in H.
  destruct (parse_adr_index K text) as [[adrs issues]|e]; exact H.
Qed.

End WithConstants.

End HelperFacts.
(** ** The header line of a field *)

Module HeaderFacts.

Import Re ReSpec AdrHelpers.












End HeaderFacts.
(** ** The decision log *)

Module AdrFacts.

Import Adr AdrSpec HelperSpec.

Section WithConstants.

Variable K : Constants.
Variable E : Env.





End WithConstants.

End AdrFacts.
(** ** Fields and paragraphs *)

Module AdrHelperFacts.

Import Re AdrHelpers.




Lemma lstrip_head (l : pystr) :
  Str.lstrip l = []
  \/ exists y w, Str.lstrip l = y :: w /\ Unicode.isspace y = false.
Proof.
  induction l as [|c l IH]; simpl; [now left|].
  destruct (Unicode.isspace c) eqn:E; [assumption|]. right. eauto.
Qed.

(** What [strip] returns is empty or begins with a character that is no
    white space. *)
Lemma strip_head_shape (l : pystr) :
  Str.strip l = []
  \/ exists y w, Str.strip l = y :: w /\ Unicode.isspace y = false.
Proof.
  unfold Str.strip, Str.rstrip.
  destruct (lstrip_head l) as [->|(y & w & -> & Hy)]; [now left|].
  right. simpl rev.
  destruct (@CompletionFacts.lstrip_last y (rev w) Hy) as [l1 ->].
  rewrite rev_app_distr. simpl. eauto.
Qed.

Lemma strip_strip_truthy (l : pystr) :
  str_truthy (Str.strip (Str.strip l)) = str_truthy (Str.strip l).
Proof.
  destruct (strip_head_shape l) as [->|(y & w & -> & Hy)]; [reflexivity|].
  destruct (@CompletionFacts.strip_head y w Hy) as [w1 ->]. reflexivity.
Qed.

Lemma paragraph_loop_shift (lines : list pystr) :
  forall paras buf,
    paragraph_loop lines paras buf = paras + paragraph_loop lines 0 buf.
Proof.
  induction lines as [|l rest IH]; intros paras buf; cbn [paragraph_loop].
  - destruct (any_text buf); lia.
  - destruct (negb (str_truthy (Str.strip l))).
    + rewrite IH. rewrite (IH (if any_text buf then 0 + 1 else 0)).
      destruct (any_text buf); lia.
    + destruct (Str.startswith (py "#") (Str.strip l)); apply IH.
Qed.

Lemma paragraph_loop_blank (a : list pystr) (blank : pystr)
      (b : list pystr) :
  is_blank blank = true ->
  forall buf,
    paragraph_loop (a ++ blank :: b) 0 buf
    = paragraph_loop a 0 buf + paragraph_loop b 0 [].
Proof.
  intros Hb. unfold is_blank in Hb.
  induction a as [|l rest IH]; intros buf; cbn [paragraph_loop app].
  - rewrite Hb. cbn [negb]. rewrite paragraph_loop_shift. destruct (any_text buf); lia.
  - destruct (negb (str_truthy (Str.strip l))).
    + rewrite paragraph_loop_shift, IH.
      rewrite (paragraph_loop_shift rest (if any_text buf then 0 + 1 else 0)).
      lia.
    + destruct (Str.startswith (py "#") (Str.strip l)); apply IH.
Qed.

Lemma paragraph_loop_headings (lines : list pystr) :
  forall paras buf,
    paragraph_loop (filter (fun l => negb (is_heading l)) lines) paras buf
    = paragraph_loop lines paras buf.
Proof.
  induction lines as [|l rest IH]; intros paras buf; [reflexivity|].
  cbn [paragraph_loop filter]. unfold is_heading.
  destruct (str_truthy (Str.strip l)) eqn:Et; cbn [negb andb].
  - destruct (Str.startswith (py "#") (Str.strip l)) eqn:Eh; cbn [negb].
    + apply IH.
    + cbn [paragraph_loop]. rewrite Et, Eh. cbn [negb]. apply IH.
  - cbn [paragraph_loop]. rewrite Et. cbn [negb]. apply IH.
Qed.

Lemma any_text_stripped (buf : list pystr) :
  Forall (fun x => str_truthy (Str.strip x) = true) buf ->
  any_text buf = nonempty buf.
Proof.
  intros H. destruct H as [|x l Hx _]; [reflexivity|].
  simpl. now rewrite Hx.
Qed.

Lemma paragraph_loop_zero (lines : list pystr) :
  forall buf,
    Forall (fun x => str_truthy (Str.strip x) = true) buf ->
    (paragraph_loop lines 0 buf = 0
     <-> buf = [] /\ forall l, In l lines -> is_text l = false).
Proof.
  induction lines as [|l rest IH]; intros buf Hbuf; cbn [paragraph_loop].
  - rewrite (any_text_stripped Hbuf). destruct buf; simpl.
    + split; [now split | reflexivity].
    + split; [lia | intros [H _]; discriminate].
  - unfold is_text in *.
    destruct (str_truthy (Str.strip l)) eqn:Et; cbn [negb].
    + destruct (Str.startswith (py "#") (Str.strip l)) eqn:Eh.
      * rewrite (IH buf Hbuf). split.
        -- intros [-> H]. split; [reflexivity|].
           intros x [<-|Hx]; [now rewrite Et, Eh | now apply H].
        -- intros [-> H]. split; [reflexivity|]. intros x Hx. apply H.
           now right.
      * rewrite IH.
        -- split.
           ++ intros [H _]. now destruct buf.
           ++ intros [_ H]. specialize (H l (or_introl eq_refl)).
              rewrite Et, Eh in H. discriminate.
        -- apply Forall_app. split; [assumption|].
           constructor; [|constructor].
           now rewrite strip_strip_truthy.
    + rewrite paragraph_loop_shift, (any_text_stripped Hbuf).
      destruct buf as [|x buf]; simpl.
      * rewrite (IH [] (Forall_nil _)). split.
        -- intros [_ H]. split; [reflexivity|].
           intros y [<-|Hy]; [now rewrite Et | now apply H].
        -- intros [_ H]. split; [reflexivity|]. intros y Hy. apply H.
           now right.
      * split; [lia | intros [H _]; discriminate].
Qed.

(** X11.  [_paragraph_count]: a blank line separates, so the count of two
    parts with a blank line between them is the sum of their counts; the
    heading lines do not count and do not separate, so they can be left
    out; and the count is zero exactly when no line is a line of text. *)
Theorem paragraph_count_blank_separated :
  (forall a blank b,
      is_blank blank = true ->
      _paragraph_count (a ++ blank :: b)
      = _paragraph_count a + _paragraph_count b)
  /\ (forall lines,
         _paragraph_count (filter (fun l => negb (is_heading l)) lines)
         = _paragraph_count lines)
  /\ (forall lines,
         _paragraph_count lines = 0
         <-> forall l, In l lines -> is_text l = false)
  /\ (forall lines,
         (forall l, In l lines -> is_blank l = false) ->
         _paragraph_count lines <= 1).
Proof.
  unfold _paragraph_count. split; [|split; [|split]].
  - intros a blank b Hb. now apply paragraph_loop_blank.
  - intros lines. apply paragraph_loop_headings.
  - intros lines. rewrite (paragraph_loop_zero lines (Forall_nil _)).
    split; [now intros [_ H] | now split].
  - intros lines Hno.
    assert (H : forall ls paras buf,
               (forall l, In l ls -> is_blank l = false) ->
               paragraph_loop ls paras buf <= paras + 1).
    { induction ls as [|l rest IH]; intros paras buf Hl;
        cbn [paragraph_loop].
      - destruct (any_text buf); lia.
      - pose proof (Hl l (or_introl eq_refl)) as Hb. unfold is_blank in Hb.
        rewrite Hb.
        destruct (Str.startswith (py "#") (Str.strip l));
          apply IH; intros x Hx; apply Hl; now right. }
    now apply (H lines 0 []).
Qed.

End AdrHelperFacts.
(** ** The design document *)

Module DesignFacts.

Import Design DesignSpec CountSpec.


Section WithConstants.

Variable K : Constants.









(** The ids that an error of orphans lists. *)
Lemma orphans_spec (declared covered : list pystr) :
  let ids := Str.sorted (filter (fun x => negb (mem x covered)) declared) in
  ascending ids
  /\ (forall x, In x ids <-> In x declared /\ ~ In x covered)
  /\ (nonempty ids = true <-> exists x, In x declared /\ ~ In x covered).
Proof.
  intros ids.
  assert (Hin : forall x, In x ids <-> In x declared /\ ~ In x covered).
  { intros x. unfold ids. rewrite SortFacts.sorted_In, filter_In.
    rewrite negb_true_iff, mem_not_In. reflexivity. }
  split; [apply DuplicateFacts.sorted_ascending|]. split; [exact Hin|].
  rewrite SetFacts.nonempty_true. split.
  - intros Hne. destruct ids as [|x rest] eqn:E; [congruence|].
    exists x. apply Hin. now left.
  - intros (x & Hx) Hnil. apply Hin in Hx. rewrite Hnil in Hx.
    contradiction.
Qed.


Lemma vstrs_inj (a b : list pystr) : vstrs a = vstrs b -> a = b.
Proof.
  unfold vstrs. intros H. injection H as H. revert b H.
  induction a as [|x a IH]; intros [|y b] H; try discriminate;
    [reflexivity|].
  simpl in H. injection H as -> H. f_equal. now apply IH.
Qed.

Lemma req_issue_ids_inj (rid rid' m m' : pystr) (ids ids' : list pystr) :
  req_issue_ids rid m ids = req_issue_ids rid' m' ids' ->
  rid = rid' /\ m = m' /\ ids = ids'.
Proof.
  unfold req_issue_ids. intros H. injection H as -> -> H.
  assert (H1 : vstrs ids = vstrs ids') by (unfold vstrs; now f_equal).
  apply vstrs_inj in H1. auto.
Qed.

Lemma In_when (b : bool) (x : pyval) (l : list pyval) :
  In x (if b then l else []) <-> b = true /\ In x l.
Proof. destruct b; simpl; intuition discriminate. Qed.

Lemma In_one (x y : pyval) : In x [y] <-> y = x.
Proof. simpl. tauto. Qed.

Lemma unknown_message_inj (k k' : ref_kind) :
  unknown_message k = unknown_message k' -> k = k'.
Proof.
  destruct k, k'; intros H; try reflexivity; vm_compute in H;
    discriminate H.
Qed.

Lemma kind_of_message (k : ref_kind) :
  (py "Unknown actor IDs" = unknown_message k -> k = RActor)
  /\ (py "Unknown capability IDs" = unknown_message k -> k = RCapability)
  /\ (py "Unknown use case IDs" = unknown_message k -> k = RUseCase)
  /\ (py "Unknown ADR references" = unknown_message k -> k = RDecision).
Proof.
  destruct k; repeat split; intros H; try reflexivity;
    vm_compute in H; discriminate H.
Qed.

(** The issue of unknown ids of one kind among the issues of a block. *)
Lemma block_issues_unknown (src : sources) (rb : req_block) (k : ref_kind)
      (rid : pystr) (ids : list pystr) :
  In (req_issue_ids rid (unknown_message k) ids) (block_issues src rb)
  <-> rb_id rb = rid /\ declared_of k src <> []
      /\ ids = unknown_ids k src rb /\ ids <> [].
Proof.
  assert (Hsame : forall m bad,
             req_issue_ids (rb_id rb) m bad
             = req_issue_ids rid (unknown_message k) ids
             <-> m = unknown_message k /\ rb_id rb = rid /\ bad = ids).
  { intros m bad. split.
    - intros H. apply req_issue_ids_inj in H. tauto.
    - intros (-> & -> & ->). reflexivity. }
  assert (Hfil : filter (fun c =>
                           negb (Dict.contains
                                   c (business_caps_to_actors src)))
                        (rb_caps rb)
                 = filter (fun c =>
                             negb (mem c (Dict.keys
                                            (business_caps_to_actors src))))
                          (rb_caps rb)).
  { apply filter_ext. intros c. now rewrite DictFacts.contains_keys. }
  assert (Hkeys : nonempty (business_caps_to_actors src)
                  = nonempty (Dict.keys (business_caps_to_actors src))).
  { unfold Dict.keys. now destruct (business_caps_to_actors src). }
  assert (Hrefs : forall k', unknown_ids k' src rb <> [] ->
                             refs_of k' rb <> []).
  { intros k' H. unfold unknown_ids in H.
    destruct (refs_of k' rb); [now elim H | discriminate]. }
  unfold block_issues. cbv zeta. rewrite Hfil, Hkeys.
  rewrite !in_app_iff, !In_when, !in_app_iff, !In_when, !In_one.
  rewrite !Hsame, !andb_true_iff, !SetFacts.nonempty_true.
  unfold req_issue, actor_mismatch, req_issue_ids.
  split.
  - intros [[_ H]|[[_ H]|[H|[H|[H|H]]]]].
    + discriminate H.
    + discriminate H.
    + destruct H as (Hd & Hn & Hk & <- & <-).
      apply (proj1 (kind_of_message k)) in Hk. subst k.
      split; [reflexivity|]. split; [exact Hd|].
      split; [reflexivity | exact Hn].
    + destruct H as (Hd & [H|H]).
      * destruct H as (Hn & Hk & <- & <-).
        apply (proj1 (proj2 (kind_of_message k))) in Hk. subst k.
        split; [reflexivity|]. split; [exact Hd|].
        split; [reflexivity | exact Hn].
      * destruct H as (_ & H). discriminate H.
    + destruct H as ((Hd & _) & Hn & Hk & <- & <-).
      apply (proj1 (proj2 (proj2 (kind_of_message k)))) in Hk. subst k.
      split; [reflexivity|]. split; [exact Hd|].
      split; [reflexivity | exact Hn].
    + destruct H as ((Hd & _) & Hn & Hk & <- & <-).
      apply (proj2 (proj2 (proj2 (kind_of_message k)))) in Hk. subst k.
      split; [reflexivity|]. split; [exact Hd|].
      split; [reflexivity | exact Hn].
  - intros (Hrid & Hd & -> & Hn). pose proof (Hrefs k Hn) as Hr.
    destruct k; cbn [unknown_message].
    + right. right. left.
      split; [exact Hd|]. split; [exact Hn|]. split; [reflexivity|].
      split; [exact Hrid | reflexivity].
    + right. right. right. left. split; [exact Hd|]. left.
      split; [exact Hn|]. split; [reflexivity|].
      split; [exact Hrid | reflexivity].
    + right. right. right. right. left.
      split; [split; [exact Hd | exact Hr]|].
      split; [exact Hn|]. split; [reflexivity|].
      split; [exact Hrid | reflexivity].
    + right. right. right. right. right.
      split; [split; [exact Hd | exact Hr]|].
      split; [exact Hn|]. split; [reflexivity|].
      split; [exact Hrid | reflexivity].
Qed.

(** Every issue of a block names the requirement. *)
Lemma block_issues_requirement (src : sources) (rb : req_block)
      (i : pyval) :
  In i (block_issues src rb) ->
  vfield "requirement" i = Some (VStr (rb_id rb)).
Proof.
  unfold block_issues. cbv zeta.
  rewrite !in_app_iff, !In_when, !in_app_iff, !In_when, !In_one.
  intros [[_ H]|[[_ H]|[H|[H|[H|H]]]]].
  - now subst i.
  - now subst i.
  - destruct H as (_ & _ & <-). reflexivity.
  - destruct H as (_ & [(_ & <-)|(_ & <-)]); reflexivity.
  - destruct H as (_ & _ & <-). reflexivity.
  - destruct H as (_ & _ & <-). reflexivity.
Qed.

(** The issues of missing references among the issues of a block. *)
Lemma block_issues_missing (src : sources) (rb : req_block)
      (rid msg : pystr) :
  In (req_issue rid msg) (block_issues src rb)
  <-> rb_id rb = rid
      /\ (msg = missing_capabilities /\ rb_caps rb = []
          \/ msg = missing_actors /\ rb_actors rb = []).
Proof.
  unfold block_issues. cbv zeta.
  rewrite !in_app_iff, !In_when, !in_app_iff, !In_when, !In_one.
  rewrite !negb_true_iff, !SetFacts.nonempty_false.
  unfold req_issue, actor_mismatch, req_issue_ids.
  unfold missing_capabilities, missing_actors.
  split.
  - intros [[Hn H]|[[Hn H]|[H|[H|[H|H]]]]].
    + injection H as <- <-. split; [reflexivity|]. left.
      split; [reflexivity | exact Hn].
    + injection H as <- <-. split; [reflexivity|]. right.
      split; [reflexivity | exact Hn].
    + destruct H as (_ & _ & H). discriminate H.
    + destruct H as (_ & [(_ & H)|(_ & H)]); discriminate H.
    + destruct H as (_ & _ & H). discriminate H.
    + destruct H as (_ & _ & H). discriminate H.
  - intros (<- & [(-> & Hn)|(-> & Hn)]).
    + left. split; [exact Hn | reflexivity].
    + right. left. split; [exact Hn | reflexivity].
Qed.

(** X16.  The issues of the requirement blocks, when the check of the
    design document returns.  A block has an issue of unknown actors,
    capabilities, use cases or decision records exactly when the
    sibling documents declare some id of that kind and the block refers
    to one that they do not declare; the issue lists those ids in
    ascending order.  A block has an issue of missing capability or
    actor references exactly when it refers to none.  The issue that
    no requirement was found is there exactly when there is no block. *)
Theorem validate_overall_design_block_issues (E : Env)
        (artifact_text : pystr)
        (artifact_path business_path adr_path : option Path.t)
        (skip_fs_checks : bool) (errs : list pyval) (src : sources)
        (blocks : list req_block) (r : result) :
  load_sources K E artifact_path business_path adr_path skip_fs_checks
  = Ok (errs, src) ->
  req_blocks_from K (adr_num_to_id src) (Str.splitlines artifact_text)
                  (req_line_indices K (Str.splitlines artifact_text))
  = Ok blocks ->
  validate_overall_design K E artifact_text artifact_path business_path
                          adr_path skip_fs_checks = Ok r ->
  requirement_count r = List.length blocks
  /\ (forall k rid ids,
         In (req_issue_ids rid (unknown_message k) ids)
            (requirement_issues r)
         <-> exists rb,
             In rb blocks /\ rb_id rb = rid /\ declared_of k src <> []
             /\ ids = unknown_ids k src rb /\ ids <> [])
  /\ (forall k rb,
         ascending (unknown_ids k src rb)
         /\ forall x, In x (unknown_ids k src rb)
                      <-> In x (refs_of k rb) /\ ~ In x (declared_of k src))
  /\ (forall rid,
         In (req_issue rid missing_capabilities) (requirement_issues r)
         <-> exists rb, In rb blocks /\ rb_id rb = rid /\ rb_caps rb = [])
  /\ (forall rid,
         In (req_issue rid missing_actors) (requirement_issues r)
         <-> exists rb, In rb blocks /\ rb_id rb = rid /\ rb_actors rb = [])
  /\ (In no_requirements (requirement_issues r) <-> blocks = []).
Proof.
  intros Hload Hblocks Hval. unfold validate_overall_design in Hval.
  destruct (structure_errors K artifact_text) as [errors1 missing].
  rewrite Hload in Hval. unfold bind in Hval. rewrite Hblocks in Hval.
  destruct (orphan_errors K src blocks artifact_text) as [orphans|];
    [|discriminate].
  injection Hval as <-. cbn [requirement_issues requirement_count].
  change (VDict [("message",
                  VStr (py "No functional requirement IDs found"))]%string)
    with no_requirements.
  assert (Hin : forall i,
             In i ((if negb (nonempty blocks) then [no_requirements]
                    else [])
                   ++ flat_map (block_issues src) blocks)
             <-> (blocks = [] /\ i = no_requirements)
                 \/ exists rb, In rb blocks /\ In i (block_issues src rb)).
  { intros i. rewrite in_app_iff, in_flat_map, In_when, In_one.
    rewrite negb_true_iff, SetFacts.nonempty_false.
    split; (intros [[H1 H2]|H]; [left; split; congruence | now right]). }
  split; [reflexivity|]. split; [|split; [|split; [|split]]].
  - intros k rid ids. rewrite Hin. split.
    + intros [[_ H]|(rb & Hrb & H)]; [discriminate H|].
      apply block_issues_unknown in H. exists rb. tauto.
    + intros (rb & Hrb & H). right. exists rb. split; [assumption|].
      now apply block_issues_unknown.
  - intros k rb.
    destruct (orphans_spec (refs_of k rb) (declared_of k src))
      as (Hasc & Hmem & _).
    split; [exact Hasc | exact Hmem].
  - intros rid. rewrite Hin. split.
    + intros [[_ H]|(rb & Hrb & H)]; [discriminate H|].
      apply block_issues_missing in H. exists rb.
      destruct H as (H1 & [(_ & H2)|(H2 & _)]).
      * split; [exact Hrb|]. split; [exact H1 | exact H2].
      * vm_compute in H2. discriminate H2.
    + intros (rb & Hrb & H1 & H2). right. exists rb.
      split; [assumption|]. apply block_issues_missing.
      split; [exact H1|]. left. split; [reflexivity | exact H2].
  - intros rid. rewrite Hin. split.
    + intros [[_ H]|(rb & Hrb & H)]; [discriminate H|].
      apply block_issues_missing in H. exists rb.
      destruct H as (H1 & [(H2 & _)|(_ & H2)]).
      * vm_compute in H2. discriminate H2.
      * split; [exact Hrb|]. split; [exact H1 | exact H2].
    + intros (rb & Hrb & H1 & H2). right. exists rb.
      split; [assumption|]. apply block_issues_missing.
      split; [exact H1|]. right. split; [reflexivity | exact H2].
  - rewrite Hin. split.
    + intros [[H _]|(rb & Hrb & H)]; [assumption|].
      apply block_issues_requirement in H. discriminate H.
    + intros ->. left. now split.
Qed.


End WithConstants.


(** The theorem on the issues of the blocks at the same documents. *)
Lemma validate_overall_design_block_issues_witness :
  exists r,
    validate_overall_design SpecConstants.K Documents.E
                            Documents.design_text
                            (Some Documents.design_path) None None false
    = Ok r
    /\ requirement_count r = List.length Documents.design_blocks
    /\ (forall k rid ids,
           In (req_issue_ids rid (unknown_message k) ids)
              (requirement_issues r)
           <-> exists rb,
               In rb Documents.design_blocks /\ rb_id rb = rid
               /\ declared_of k Documents.design_sources <> []
               /\ ids = unknown_ids k Documents.design_sources rb
               /\ ids <> [])
    /\ (forall k rb,
           ascending (unknown_ids k Documents.design_sources rb)
           /\ forall x,
               In x (unknown_ids k Documents.design_sources rb)
               <-> In x (refs_of k rb)
                   /\ ~ In x (declared_of k Documents.design_sources))
    /\ (forall rid,
           In (req_issue rid missing_capabilities) (requirement_issues r)
           <-> exists rb, In rb Documents.design_blocks /\ rb_id rb = rid
                          /\ rb_caps rb = [])
    /\ (forall rid,
           In (req_issue rid missing_actors) (requirement_issues r)
           <-> exists rb, In rb Documents.design_blocks /\ rb_id rb = rid
                          /\ rb_actors rb = [])
    /\ (In no_requirements (requirement_issues r)
        <-> Documents.design_blocks = []).
Proof.
  eexists. split.
  - vm_compute; reflexivity.
  - apply (@validate_overall_design_block_issues
             SpecConstants.K Documents.E Documents.design_text
             (Some Documents.design_path) None None false
             [] Documents.design_sources Documents.design_blocks).
    + vm_compute; reflexivity.
    + vm_compute; reflexivity.
    + vm_compute; reflexivity.
Defined.

End DesignFacts.
(** ** Anchors *)

Module TextFacts.

Import Re Text TextSpec.

Lemma cmatch_no_flags (cs : cset) (c : N) :
  cmatch no_flags cs c = cset_mem cs c.
Proof. unfold cmatch. simpl. apply orb_false_r. Qed.

Lemma drop_while_length (cs : cset) (s : pystr) :
  List.length (drop_while cs s) <= List.length s.
Proof.
  induction s as [|c s IH]; simpl; [lia|].
  destruct (cset_mem cs c); simpl; lia.
Qed.

Lemma take_drop_while (cs : cset) (s : pystr) :
  s = take_while cs s ++ drop_while cs s.
Proof.
  induction s as [|c s IH]; simpl; [reflexivity|].
  destruct (cset_mem cs c); simpl; [now f_equal | reflexivity].
Qed.

Lemma firstn_take_while (cs : cset) (s : pystr) :
  firstn (List.length s - List.length (drop_while cs s)) s
  = take_while cs s.
Proof.
  induction s as [|c s IH]; [reflexivity|].
  cbn [drop_while take_while]. destruct (cset_mem cs c).
  - pose proof (drop_while_length cs s) as Hle.
    assert (Hl : List.length (c :: s) - List.length (drop_while cs s)
                 = S (List.length s - List.length (drop_while cs s)))
      by (cbn [List.length]; lia).
    rewrite Hl. cbn [firstn]. now f_equal.
  - now rewrite Nat.sub_diag.
Qed.

(** A greedy run of a character set, followed by something that always
    succeeds, takes the characters of the set that are there. *)
Lemma star_loop_chr (A : Type) (cs : cset) (k : cont A) :
  (forall p s c, k p s c <> None) ->
  forall fuel prev s c,
    List.length s <= fuel ->
    exists p1,
      star_loop (rmatch no_flags (A := A) (Chr cs)) k fuel prev s c
      = k p1 (drop_while cs s) c.
Proof.
  intros Hk. induction fuel as [|f IH]; intros prev s c Hlen.
  - destruct s; [|simpl in Hlen; lia]. exists prev. reflexivity.
  - destruct s as [|x s1].
    + exists prev. reflexivity.
    + cbn [star_loop rmatch drop_while]. rewrite cmatch_no_flags.
      destruct (cset_mem cs x).
      * assert (Hlt : (List.length s1 <? List.length (x :: s1)) = true)
          by (apply Nat.ltb_lt; simpl; lia).
        rewrite Hlt. simpl in Hlen.
        destruct (IH (Some x) s1 c ltac:(lia)) as (p1 & Hp).
        cbn [rmatch] in Hp. rewrite Hp. exists p1.
        destruct (k p1 (drop_while cs s1) c) eqn:E; [reflexivity|].
        now apply Hk in E.
      * exists prev. reflexivity.
Qed.

(** Where one character of a set matches. *)
Lemma match_here_chr (cs : cset) (start : nat) (prev : option N)
      (s : pystr) :
  match s with
  | c :: s1 =>
    if cset_mem cs c
    then exists m, match_here no_flags (Chr cs) start prev s = Some m
                   /\ m_text m = [c]
    else match_here no_flags (Chr cs) start prev s = None
  | [] => match_here no_flags (Chr cs) start prev s = None
  end.
Proof.
  destruct s as [|c s1]; [reflexivity|].
  unfold match_here. cbn [rmatch]. rewrite cmatch_no_flags.
  destruct (cset_mem cs c); [|reflexivity].
  eexists. split; [reflexivity|]. cbn [m_text].
  assert (Hl : List.length (c :: s1) - List.length s1 = 1)
    by (cbn [List.length]; lia).
  rewrite Hl. reflexivity.
Qed.

(** Where a run of characters of a set matches, and what it takes. *)
Lemma match_here_plus (cs : cset) (start : nat) (prev : option N)
      (s : pystr) :
  match s with
  | c :: s1 =>
    if cset_mem cs c
    then exists m, match_here no_flags (plus (Chr cs)) start prev s = Some m
                   /\ m_text m = c :: take_while cs s1
    else match_here no_flags (plus (Chr cs)) start prev s = None
  | [] => match_here no_flags (plus (Chr cs)) start prev s = None
  end.
Proof.
  destruct s as [|c s1]; [reflexivity|].
  unfold match_here, plus. cbn [rmatch]. rewrite cmatch_no_flags.
  destruct (cset_mem cs c); [|reflexivity].
  match goal with
  | |- exists m, star_loop _ ?k _ _ _ _ = _ /\ _ =>
    destruct (@star_loop_chr Match cs k ltac:(discriminate)
                             (List.length s1) (Some c) s1 []
                             (Nat.le_refl _)) as (p1 & Hp)
  end.
  cbn [rmatch] in Hp. rewrite Hp. eexists. split; [reflexivity|].
  cbn [m_text].
  pose proof (drop_while_length cs s1) as Hle.
  assert (Hl : List.length (c :: s1) - List.length (drop_while cs s1)
               = S (List.length s1 - List.length (drop_while cs s1)))
    by (cbn [List.length]; lia).
  rewrite Hl. cbn [firstn]. f_equal. apply firstn_take_while.
Qed.

(** Replacing the characters of a set by nothing leaves none. *)
Lemma sub_chr_removes (cs : cset) (s : pystr) :
  forall prev,
    sub_aux no_flags (Chr cs) [] 0 prev s
    = filter (fun c => negb (cset_mem cs c)) s.
Proof.
  induction s as [|c s1 IH]; intros prev; [reflexivity|].
  cbn [sub_aux filter].
  pose proof (match_here_chr cs 0 prev (c :: s1)) as H. cbv beta iota in H.
  destruct (cset_mem cs c).
  - destruct H as (m & -> & ->). simpl. apply IH.
  - rewrite H. simpl. f_equal. apply IH.
Qed.

(** Replacing the runs of a set. *)
Lemma sub_plus_squeeze (cs : cset) (repl : pystr) (s : pystr) :
  forall prev,
    sub_aux no_flags (plus (Chr cs)) repl 0 prev s
    = squeeze cs repl false s
    /\ sub_aux no_flags (plus (Chr cs)) repl
               (List.length (take_while cs s)) prev s
       = squeeze cs repl true s.
Proof.
  induction s as [|c s1 IH]; intros prev; [split; reflexivity|].
  assert (HA : sub_aux no_flags (plus (Chr cs)) repl 0 prev (c :: s1)
               = squeeze cs repl false (c :: s1)).
  { cbn [sub_aux squeeze].
    pose proof (match_here_plus cs 0 prev (c :: s1)) as H.
    cbv beta iota in H. destruct (cset_mem cs c).
    - destruct H as (m & -> & ->). f_equal. apply IH.
    - rewrite H. f_equal. apply IH. }
  split; [exact HA|].
  cbn [take_while]. destruct (cset_mem cs c) eqn:E.
  - cbn [List.length sub_aux squeeze]. rewrite E. simpl. apply IH.
  - cbn [List.length]. rewrite HA. cbn [squeeze]. rewrite E. reflexivity.
Qed.

Lemma squeeze_Forall (P : N -> Prop) (cs : cset) (repl : pystr)
      (s : pystr) :
  Forall P repl -> Forall P s ->
  forall inrun, Forall P (squeeze cs repl inrun s).
Proof.
  intros Hr Hs. induction Hs as [|c s1 Hc Hs IH]; intros inrun; simpl;
    [constructor|].
  destruct (cset_mem cs c).
  - apply Forall_app. split; [|apply IH].
    destruct inrun; [constructor | assumption].
  - constructor; [assumption | apply IH].
Qed.

Lemma squeeze_outside (cs : cset) (repl : pystr) (s : pystr) :
  Forall (fun c => cset_mem cs c = false) repl ->
  forall inrun,
    Forall (fun c => cset_mem cs c = false) (squeeze cs repl inrun s).
Proof.
  intros Hr. induction s as [|c s1 IH]; intros inrun; simpl; [constructor|].
  destruct (cset_mem cs c) eqn:E.
  - apply Forall_app. split; [|apply IH].
    destruct inrun; [constructor | assumption].
  - constructor; [assumption | apply IH].
Qed.

(** Runs of a character squeezed to one leave no two in a row. *)
Lemma squeeze_no_double (x : N) (s : pystr) :
  has_double x (squeeze (CChar x) [x] false s) = false
  /\ has_double x (x :: squeeze (CChar x) [x] true s) = false.
Proof.
  induction s as [|c s1 [IH1 IH2]]; [split; reflexivity|].
  cbn [squeeze cset_mem]. destruct (c =? x)%N eqn:E.
  - cbn [app]. split; assumption.
  - split.
    + destruct (squeeze (CChar x) [x] false s1) as [|d l] eqn:Es;
        [reflexivity|].
      cbn [has_double]. rewrite E. simpl. exact IH1.
    + cbn [has_double]. rewrite E, andb_false_r. simpl.
      destruct (squeeze (CChar x) [x] false s1) as [|d l] eqn:Es;
        [reflexivity|].
      exact IH1.
Qed.

Lemma has_double_spec (x : N) (s : pystr) :
  has_double x s = false -> forall pre post, s <> pre ++ x :: x :: post.
Proof.
  induction s as [|c s1 IH]; intros H pre post Heq.
  - destruct pre; discriminate.
  - destruct s1 as [|d s2]; [destruct pre as [|? [|? ?]]; discriminate|].
    cbn [has_double] in H. apply orb_false_iff in H. destruct H as [H1 H2].
    destruct pre as [|p pre].
    + simpl in Heq. injection Heq as -> -> _.
      rewrite N.eqb_refl in H1. discriminate.
    + simpl in Heq. injection Heq as _ Heq. now apply (IH H2 pre post).
Qed.

(** What is stripped is a stretch of the text. *)
Lemma lstrip_chars_suffix (chars s : pystr) :
  exists a, s = a ++ lstrip_chars chars s.
Proof.
  induction s as [|c s1 [a IH]]; [now exists []|]. simpl.
  destruct (existsb (N.eqb c) chars).
  - exists (c :: a). simpl. now f_equal.
  - now exists [].
Qed.

Lemma lstrip_chars_head (chars s : pystr) (c : N) (rest : pystr) :
  lstrip_chars chars s = c :: rest -> existsb (N.eqb c) chars = false.
Proof.
  induction s as [|d s1 IH]; simpl; [discriminate|].
  destruct (existsb (N.eqb d) chars) eqn:E; [assumption|].
  intros H. injection H as <- _. assumption.
Qed.

Lemma lstrip_chars_keeps_last (chars l : pystr) (x : N) :
  existsb (N.eqb x) chars = false ->
  exists l1, lstrip_chars chars (l ++ [x]) = l1 ++ [x].
Proof.
  intros Hx. induction l as [|c l IH]; simpl.
  - rewrite Hx. now exists [].
  - destruct (existsb (N.eqb c) chars); [assumption|]. now exists (c :: l).
Qed.

Lemma strip_chars_spec (chars s : pystr) :
  (exists a b, s = a ++ strip_chars chars s ++ b)
  /\ (forall c rest, strip_chars chars s = c :: rest ->
                     existsb (N.eqb c) chars = false)
  /\ (forall pre c, strip_chars chars s = pre ++ [c] ->
                    existsb (N.eqb c) chars = false).
Proof.
  unfold strip_chars.
  destruct (lstrip_chars_suffix chars s) as [a Ha].
  destruct (lstrip_chars_suffix chars (rev (lstrip_chars chars s)))
    as [b Hb].
  set (t := lstrip_chars chars s) in *.
  set (u := lstrip_chars chars (rev t)) in *.
  assert (Ht : t = rev u ++ rev b).
  { rewrite <- rev_app_distr, <- Hb. now rewrite rev_involutive. }
  split; [|split].
  - exists a, (rev b). now rewrite <- Ht.
  - intros c rest Hc. destruct t as [|x t1] eqn:Et.
    + simpl in u. subst u. discriminate.
    + pose proof (@lstrip_chars_head chars s x t1 Et) as Hx.
      simpl in u.
      destruct (@lstrip_chars_keeps_last chars (rev t1) x Hx) as [l1 Hl1].
      unfold u in Hc. rewrite Hl1, rev_app_distr in Hc. simpl in Hc.
      injection Hc as <- _. assumption.
  - intros pre c Hc. apply (f_equal (@rev N)) in Hc.
    rewrite rev_involutive, rev_app_distr in Hc. simpl in Hc.
    now apply lstrip_chars_head in Hc.
Qed.

Lemma unsafe_filter (t : pystr) :
  Forall (fun c => is_slug_char c = true \/ Unicode.isspace c = true)
         (re_sub no_flags unsafe_re [] t).
Proof.
  unfold re_sub, unsafe_re. rewrite sub_chr_removes.
  apply Forall_forall. intros c Hc. apply filter_In in Hc.
  destruct Hc as [_ Hc]. cbn [cset_mem] in Hc.
  rewrite negb_involutive in Hc. unfold is_slug_char.
  repeat rewrite orb_true_iff in Hc. repeat rewrite orb_true_iff. tauto.
Qed.

Lemma slug_char_no_space (c : N) :
  is_slug_char c = true -> Unicode.isspace c = false.
Proof.
  unfold is_slug_char, Unicode.isspace. intros H.
  apply not_true_is_false. intros H'.
  repeat rewrite ?orb_true_iff, ?andb_true_iff, ?N.leb_le, ?N.eqb_eq in H.
  repeat rewrite ?orb_true_iff, ?andb_true_iff, ?N.leb_le, ?N.eqb_eq in H'.
  lia.
Qed.

(** A text without a backtick has no text between backticks. *)
Lemma sub_backticked_none (repl : pystr) (s : pystr) :
  Forall (fun c => c <> 96%N) s ->
  forall prev, sub_aux no_flags backticked_re repl 0 prev s = s.
Proof.
  change backticked_re
    with (Seq (Chr (CChar 96))
              (Seq (Star (Chr (CNot (CChar 96)))) (Chr (CChar 96)))).
  induction 1 as [|c s1 Hc Hs IH]; intros prev; [reflexivity|].
  cbn [sub_aux]. unfold match_here. cbn [rmatch].
  rewrite cmatch_no_flags. cbn [cset_mem].
  apply N.eqb_neq in Hc. rewrite Hc. f_equal. apply IH.
Qed.

Lemma squeeze_none (cs : cset) (repl : pystr) (s : pystr) :
  Forall (fun c => cset_mem cs c = false) s ->
  forall inrun, squeeze cs repl inrun s = s.
Proof.
  induction 1 as [|c s1 Hc Hs IH]; intros inrun; [reflexivity|].
  simpl. rewrite Hc. f_equal. apply IH.
Qed.

(** Where no two are in a row, squeezing the runs changes nothing. *)
Lemma squeeze_single (x : N) (s : pystr) :
  (has_double x s = false -> squeeze (CChar x) [x] false s = s)
  /\ (has_double x (x :: s) = false -> squeeze (CChar x) [x] true s = s).
Proof.
  induction s as [|c s1 [IH1 IH2]]; [split; reflexivity|].
  assert (Hd : has_double x (c :: s1) = false -> has_double x s1 = false).
  { destruct s1 as [|d s2]; [reflexivity|]. cbn [has_double].
    intros H. apply orb_false_iff in H. tauto. }
  cbn [squeeze cset_mem]. split.
  - intros H. destruct (c =? x)%N eqn:E.
    + apply N.eqb_eq in E. subst c. cbn [app]. f_equal. now apply IH2.
    + f_equal. apply IH1. now apply Hd.
  - intros H. cbn [has_double] in H. rewrite N.eqb_refl in H.
    apply orb_false_iff in H. destruct H as [H1 H2].
    cbn [andb] in H1. rewrite H1. f_equal. apply IH1. now apply Hd.
Qed.

Lemma lstrip_chars_id (chars s : pystr) :
  match s with
  | c :: _ => existsb (N.eqb c) chars = false
  | [] => True
  end ->
  lstrip_chars chars s = s.
Proof. destruct s as [|c s1]; [reflexivity|]. simpl. now intros ->. Qed.

Lemma strip_chars_id (chars s : pystr) :
  match s with
  | c :: _ => existsb (N.eqb c) chars = false
  | [] => True
  end ->
  match rev s with
  | c :: _ => existsb (N.eqb c) chars = false
  | [] => True
  end ->
  strip_chars chars s = s.
Proof.
  intros H1 H2. unfold strip_chars.
  rewrite (lstrip_chars_id chars s H1), (lstrip_chars_id chars (rev s) H2).
  apply rev_involutive.
Qed.

Lemma lstrip_id (s : pystr) :
  match s with
  | c :: _ => Unicode.isspace c = false
  | [] => True
  end ->
  Str.lstrip s = s.
Proof. destruct s as [|c s1]; [reflexivity|]. simpl. now intros ->. Qed.

Lemma strip_id (s : pystr) :
  Forall (fun c => Unicode.isspace c = false) s -> Str.strip s = s.
Proof.
  intros H. unfold Str.strip, Str.rstrip.
  assert (Hhd : forall l : pystr,
             Forall (fun c => Unicode.isspace c = false) l ->
             match l with
             | c :: _ => Unicode.isspace c = false
             | [] => True
             end).
  { intros l Hl. destruct Hl; [exact I | assumption]. }
  rewrite (lstrip_id s (Hhd s H)).
  rewrite (lstrip_id (rev s)); [apply rev_involutive|].
  apply Hhd. now apply Forall_rev.
Qed.

(** What [is_slug] tells. *)
Lemma is_slug_spec (s : pystr) :
  is_slug s = true
  <-> Forall (fun c => is_slug_char c = true) s
      /\ has_double 45 s = false
      /\ hyphen_first s = false /\ hyphen_first (rev s) = false.
Proof.
  unfold is_slug.
  rewrite !andb_true_iff, !negb_true_iff, forallb_forall, Forall_forall.
  tauto.
Qed.

Lemma hyphen_first_head (s : pystr) :
  (forall c rest, s = c :: rest -> existsb (N.eqb c) [45%N] = false) ->
  hyphen_first s = false.
Proof.
  destruct s as [|c s1]; [reflexivity|]. intros H.
  specialize (H c s1 eq_refl). simpl in H. now rewrite orb_false_r in H.
Qed.

Lemma head_hyphen_first (s : pystr) :
  hyphen_first s = false ->
  match s with
  | c :: _ => existsb (N.eqb c) [45%N] = false
  | [] => True
  end.
Proof.
  destruct s as [|c s1]; [trivial|]. simpl. intros ->. reflexivity.
Qed.

Section WithLower.

Variable lower : pystr -> pystr.

(** The anchor is what is left of a text of small letters, digits and
    single hyphens when the hyphens at its ends are taken away. *)
Lemma slugify_anchor_form (text : pystr) :
  exists t5,
    Forall (fun c => is_slug_char c = true) t5
    /\ has_double 45 t5 = false
    /\ slugify_anchor lower text = strip_chars [45%N] t5.
Proof.
  unfold slugify_anchor. cbv zeta. change (py "-") with [45%N].
  set (t2 := lower _).
  pose proof (unsafe_filter t2) as H3.
  set (t3 := re_sub no_flags unsafe_re [] t2) in *.
  assert (H4 : Forall (fun c => is_slug_char c = true)
                      (re_sub no_flags spaces_re [45%N] t3)).
  { unfold re_sub, spaces_re, ws.
    rewrite (proj1 (sub_plus_squeeze CSpace [45%N] t3 None)).
    assert (Ha : Forall (fun c => is_slug_char c = true
                                  \/ Unicode.isspace c = true)
                        (squeeze CSpace [45%N] false t3)).
    { apply squeeze_Forall; [|assumption].
      constructor; [now left | constructor]. }
    assert (Hb : Forall (fun c => cset_mem CSpace c = false)
                        (squeeze CSpace [45%N] false t3)).
    { apply squeeze_outside. constructor; [reflexivity | constructor]. }
    rewrite Forall_forall in *. intros c Hc.
    destruct (Ha c Hc) as [H|H]; [assumption|].
    specialize (Hb c Hc). simpl in Hb. congruence. }
  set (t4 := re_sub no_flags spaces_re [45%N] t3) in *.
  exists (squeeze (CChar 45) [45%N] false t4). split; [|split].
  - apply squeeze_Forall; [|assumption].
    constructor; [reflexivity | constructor].
  - apply squeeze_no_double.
  - unfold re_sub at 1. unfold hyphens_re.
    now rewrite (proj1 (sub_plus_squeeze (CChar 45) [45%N] t4 None)).
Qed.

(** X14.  The anchor of a heading holds small letters, digits and
    hyphens only, no two hyphens in a row, and no hyphen at either
    end. *)
Theorem slugify_anchor_safe (text : pystr) :
  let slug := slugify_anchor lower text in
  Forall (fun c => is_slug_char c = true) slug
  /\ (forall pre post, slug <> pre ++ py "--" ++ post)
  /\ (forall rest, slug <> py "-" ++ rest)
  /\ (forall pre, slug <> pre ++ py "-").
Proof.
  intros slug. change (py "-") with [45%N]. change (py "--") with [45%N; 45%N].
  destruct (slugify_anchor_form text) as (t5 & H5 & H5d & Hs).
  fold slug in Hs. clearbody slug.
  destruct (strip_chars_spec [45%N] t5) as ((a & b & Hab) & Hhd & Hlast).
  rewrite <- Hs in Hab, Hhd, Hlast. clear Hs.
  split; [|split; [|split]].
  - rewrite Hab in H5. apply Forall_app in H5. destruct H5 as [_ H5].
    apply Forall_app in H5. tauto.
  - intros pre post Heq.
    apply (has_double_spec _ H5d (a ++ pre) (post ++ b)).
    rewrite Hab, Heq. cbn [app]. rewrite <- !app_assoc. reflexivity.
  - intros rest Heq. apply Hhd in Heq. discriminate.
  - intros pre Heq. apply Hlast in Heq. discriminate.
Qed.

Lemma has_double_stretch (x : N) (a s b : pystr) :
  has_double x (a ++ s ++ b) = false -> has_double x s = false.
Proof.
  intros H.
  assert (Hsuf : forall l r : pystr,
             has_double x (l ++ r) = false -> has_double x r = false).
  { induction l as [|c l IH]; intros r Hr; [assumption|].
    apply IH. simpl app in Hr. destruct (l ++ r) as [|d t]; [reflexivity|].
    cbn [has_double] in Hr. apply orb_false_iff in Hr. tauto. }
  assert (Hpre : forall l r : pystr,
             has_double x (l ++ r) = false -> has_double x l = false).
  { induction l as [|c l IH]; intros r Hr; [reflexivity|].
    destruct l as [|d l]; [reflexivity|].
    simpl app in Hr, IH. cbn [has_double] in Hr |- *.
    apply orb_false_iff in Hr. destruct Hr as [H1 H2].
    rewrite H1. simpl. now apply (IH r). }
  apply Hsuf in H. now apply Hpre in H.
Qed.

Lemma slugify_anchor_is_slug (text : pystr) :
  is_slug (slugify_anchor lower text) = true.
Proof.
  destruct (slugify_anchor_form text) as (t5 & H5 & H5d & ->).
  destruct (strip_chars_spec [45%N] t5) as ((a & b & Hab) & Hhd & Hlast).
  apply is_slug_spec. split; [|split; [|split]].
  - rewrite Hab in H5. apply Forall_app in H5. destruct H5 as [_ H5].
    apply Forall_app in H5. tauto.
  - rewrite Hab in H5d. now apply has_double_stretch in H5d.
  - now apply hyphen_first_head.
  - apply hyphen_first_head. intros c rest Hr. apply (Hlast (rev rest)).
    apply (f_equal (@rev N)) in Hr. rewrite rev_involutive in Hr.
    now rewrite Hr.
Qed.

Lemma slugify_anchor_fixed (s : pystr) :
  is_slug s = true -> lower s = s -> slugify_anchor lower s = s.
Proof.
  intros Hs Hl. apply is_slug_spec in Hs.
  destruct Hs as (Hc & Hd & Hf & Hr).
  assert (Hsp : Forall (fun c => Unicode.isspace c = false) s).
  { eapply Forall_impl; [|exact Hc]. apply slug_char_no_space. }
  unfold slugify_anchor. cbv zeta. change (py "-") with [45%N].
  unfold re_sub at 4. rewrite sub_backticked_none.
  2:{ eapply Forall_impl; [|exact Hc]. intros c H ->. discriminate H. }
  rewrite (strip_id Hsp), Hl.
  unfold re_sub at 3. unfold unsafe_re. rewrite sub_chr_removes.
  assert (Hfil : filter (fun c =>
                           negb (cset_mem
                                   (CNot (CUnion (CRange 97 122)
                                           (CUnion (CRange 48 57)
                                              (CUnion CSpace (CChar 45)))))
                                   c)) s = s).
  { clear -Hc. induction Hc as [|c s1 H Hs IH]; [reflexivity|].
    cbn [filter]. rewrite IH.
    assert (Hm : cset_mem (CNot (CUnion (CRange 97 122)
                                   (CUnion (CRange 48 57)
                                      (CUnion CSpace (CChar 45))))) c
                 = false).
    { cbn [cset_mem]. apply negb_false_iff. unfold is_slug_char in H.
      repeat rewrite orb_true_iff in H. repeat rewrite orb_true_iff.
      tauto. }
    now rewrite Hm. }
  rewrite Hfil.
  unfold re_sub at 2. unfold spaces_re, ws.
  rewrite (proj1 (sub_plus_squeeze CSpace [45%N] s None)).
  rewrite (@squeeze_none CSpace [45%N] s Hsp).
  unfold re_sub. unfold hyphens_re.
  rewrite (proj1 (sub_plus_squeeze (CChar 45) [45%N] s None)).
  rewrite (proj1 (squeeze_single 45 s) Hd).
  apply strip_chars_id; now apply head_hyphen_first.
Qed.

(** X15.  An anchor is its own anchor: [slugify_anchor] changes no
    text of small letters, digits and single hyphens between them that
    [lower] leaves as it is, and so applying it twice gives what
    applying it once gives. *)
Theorem slugify_anchor_idempotent :
  (forall s, is_slug s = true -> lower s = s ->
             slugify_anchor lower s = s)
  /\ (forall text,
         lower (slugify_anchor lower text) = slugify_anchor lower text ->
         slugify_anchor lower (slugify_anchor lower text)
         = slugify_anchor lower text).
Proof.
  split.
  - exact slugify_anchor_fixed.
  - intros text Hl. apply slugify_anchor_fixed; [|exact Hl].
    apply slugify_anchor_is_slug.
Qed.

End WithLower.

End TextFacts.
